(** * Chess game with a remote move source: a shallow embedding

    The development follows the two source units of the repository:
    the LM Studio service ([checkLMStudioConnection], [fetchRawAIMove])
    and the [ChessGame] component (history synchronisation, undo/redo,
    move resolution, fallback selection, player input).

    The chess rules library is an external collaborator.  It appears here
    as a record of functions ([RulesOracle]); whatever a theorem needs from
    it is stated as a hypothesis of that theorem. *)

From Stdlib Require Import String Ascii List ZArith QArith Qround Bool Lia.
From Stdlib Require Import Sorted Permutation.
Import ListNotations.

Local Open Scope string_scope.
Local Open Scope list_scope.

(** ** Host-language primitives on strings and arrays

    A text is a sequence of code units, one [ascii] each: the texts
    covered are those whose code units lie below 256 (Basic Latin and the
    Latin-1 Supplement). *)

Module JS.

(** [s.includes(sub)] *)
Fixpoint includes (sub s : string) : bool :=
  if String.prefix sub s then true
  else match s with
       | EmptyString => false
       | String _ t => includes sub t
       end.

(** [s.startsWith(p)] *)
Definition startsWith (p s : string) : bool := String.prefix p s.

(** The capital letters below 256: A to Z, and U+00C0 to U+00DE without
    the multiplication sign U+00D7; each has its small letter 32 further. *)
Definition lowerChar (c : ascii) : ascii :=
  let n := nat_of_ascii c in
  if orb (andb (Nat.leb 65 n) (Nat.leb n 90))
         (andb (andb (Nat.leb 192 n) (Nat.leb n 222)) (negb (Nat.eqb n 215)))
  then ascii_of_nat (n + 32) else c.

(** [s.toLowerCase()] *)
Fixpoint toLowerCase (s : string) : string :=
  match s with
  | EmptyString => EmptyString
  | String c t => String (lowerChar c) (toLowerCase t)
  end.

(** White space and line terminators as [trim] sees them, among the code
    units below 256: TAB, LF, VT, FF, CR, SP and the no-break space
    U+00A0. *)
Definition isWhiteSpace (c : ascii) : bool :=
  let n := nat_of_ascii c in
  orb (orb (andb (Nat.leb 9 n) (Nat.leb n 13)) (Nat.eqb n 32)) (Nat.eqb n 160).

Fixpoint trimStart (s : string) : string :=
  match s with
  | EmptyString => EmptyString
  | String c t => if isWhiteSpace c then trimStart t else s
  end.

Fixpoint trimEnd (s : string) : string :=
  match s with
  | EmptyString => EmptyString
  | String c t =>
      match trimEnd t with
      | EmptyString => if isWhiteSpace c then EmptyString else String c EmptyString
      | t' => String c t'
      end
  end.

(** [s.trim()] *)
Definition trim (s : string) : string := trimEnd (trimStart s).

(** [s.replace(/[...]/g, '')] for a character class given as a predicate *)
Fixpoint removeAll (cls : ascii -> bool) (s : string) : string :=
  match s with
  | EmptyString => EmptyString
  | String c t => if cls c then removeAll cls t else String c (removeAll cls t)
  end.

(** [s.split(' ')[0]]: everything before the first space character
    (the whole string when there is none, the empty string when the
    text starts with a space). *)
Fixpoint splitSpaceFirst (s : string) : string :=
  match s with
  | EmptyString => EmptyString
  | String c t => if Ascii.eqb c " " then EmptyString else String c (splitSpaceFirst t)
  end.

(** [s.charAt(i)] *)
Definition charAt (i : nat) (s : string) : string :=
  match String.get i s with
  | Some c => String c EmptyString
  | None => EmptyString
  end.

(** [arr[i]] for a number [i]: [undefined] outside the array. *)
Definition index {A} (arr : list A) (i : Z) : option A :=
  if (i <? 0)%Z then None else nth_error arr (Z.to_nat i).

(** [arr.slice(0, e)]; a negative [e] counts from the end. *)
Definition slice0 {A} (arr : list A) (e : Z) : list A :=
  if (e <? 0)%Z
  then firstn (Z.to_nat (Z.max 0 (Z.of_nat (length arr) + e))) arr
  else firstn (Z.to_nat e) arr.

(** [arr.length] *)
Definition len {A} (arr : list A) : Z := Z.of_nat (length arr).

(** [Math.floor(r * n)] for the value [r] drawn by [Math.random()]. *)
Definition floorMul (r : Q) (n : Z) : Z := Qfloor (r * inject_Z n).

(** [arr[Math.floor(Math.random() * arr.length)]] *)
Definition randomElement {A} (r : Q) (arr : list A) : option A :=
  index arr (floorMul r (len arr)).

End JS.

(** ** The rules library, as the component consumes it *)

Module ChessJS.

Definition Fen := string.
Definition Square := string.

(** ['w'] and ['b'] *)
Inductive Color := White | Black.

(** ['p' | 'n' | 'b' | 'r' | 'q' | 'k'] *)
Inductive PieceSymbol := Pawn | Knight | Bishop | Rook | Queen | King.

Definition symbol (t : PieceSymbol) : string :=
  match t with
  | Pawn => "p" | Knight => "n" | Bishop => "b"
  | Rook => "r" | Queen => "q" | King => "k"
  end.

Definition Color_eqb (a c : Color) : bool :=
  match a, c with
  | White, White | Black, Black => true
  | _, _ => false
  end.

Definition PieceSymbol_eqb (a c : PieceSymbol) : bool :=
  String.eqb (symbol a) (symbol c).

Record Piece := { ptype : PieceSymbol; pcolor : Color }.

(** The verbose move object. *)
Record Move := {
  color : Color;
  from : Square;
  to : Square;
  piece : PieceSymbol;
  captured : option PieceSymbol;
  promotion : option PieceSymbol;
  flags : string;
  san : string
}.

(** A game object: the position it stands on and the moves made on this
    very object. *)
Record Chess := { fen : Fen; history : list Move }.

Definition DEFAULT_POSITION : Fen :=
  "rnbqkbnr/pppppppp/8/8/8/8/PPPPPPPP/RNBQKBNR w KQkq - 0 1".

(** [new Chess(fen)]: an object built from a position has made no move. *)
Definition newChess (f : Fen) : Chess := {| fen := f; history := [] |}.

(** [new Chess(x)] where [x] may be [undefined]: the default parameter
    applies. *)
Definition newChessOpt (f : option Fen) : Chess :=
  match f with
  | Some f' => newChess f'
  | None => newChess DEFAULT_POSITION
  end.

(** What the component asks of the library on a position.  [None] stands
    for a call that throws (or returns [null]). *)
Record RulesOracle := {
  movesVerbose : Fen -> list Move;
  moveSan : Fen -> string -> option (Move * Fen);
  moveFromTo : Fen -> Square -> Square -> option PieceSymbol -> option (Move * Fen);
  turn : Fen -> Color;
  isGameOver : Fen -> bool;
  isCheckmate : Fen -> bool;
  isDraw : Fen -> bool;
  isCheck : Fen -> bool;
  get : Fen -> Square -> option Piece;
  validFen : Fen -> bool
}.

(** [moves()]: the notations of the legal moves, in the order of the
    verbose list. *)
Definition moves (O : RulesOracle) (f : Fen) : list string :=
  map san (movesVerbose O f).

End ChessJS.

(** ** The LM Studio service *)

Module LMStudio.

Record Message := { content : string }.

Record LMStudioChoice := {
  text : option string;
  message : option Message
}.

Record LMStudioResponse := {
  choices : option (list LMStudioChoice);
  model : option string
}.

Record LMStudioModelInfo := { id : string }.

Record LMStudioModelsResponse := {
  models : option (list LMStudioModelInfo)
}.

Record ConnectionStatus := {
  connected : bool;
  modelId : option string;
  error : option string
}.

(** Outcome of an awaited request: the response data (possibly absent), or
    the message of the error it rejects with (a timeout included). *)
Inductive Awaited (A : Type) :=
| Resolved (data : option A)
| Rejected (errorMessage : string).
Arguments Resolved {A} data.
Arguments Rejected {A} errorMessage.

Inductive Endpoint := ModelsEndpoint | ChatCompletions | Completions.

(** The request bodies, as far as the two functions vary them. *)
Record ChatBody := {
  chatModel : string;
  chatMessages : list (string * string);
  chatMaxTokens : Z;
  chatTuned : bool
}.

Record CompletionBody := {
  complModel : string;
  complPrompt : string;
  complMaxTokens : Z;
  complTuned : bool
}.

(** The server behind a base URL. *)
Record Server := {
  getModels : string -> Awaited LMStudioModelsResponse;
  postChat : string -> ChatBody -> Awaited LMStudioResponse;
  postCompletions : string -> CompletionBody -> Awaited LMStudioResponse
}.

(** [x || d] on an optional string: the empty string is falsy too. *)
Definition orElse (x : option string) (d : string) : string :=
  match x with
  | Some v => if String.eqb v "" then d else v
  | None => d
  end.

(** [data?.choices?.[0]] *)
Definition firstChoice (data : option LMStudioResponse) : option LMStudioChoice :=
  match data with
  | Some d => match choices d with
              | Some cs => JS.index cs 0
              | None => None
              end
  | None => None
  end.

(** [choice?.message?.content] when truthy *)
Definition chatContent (c : option LMStudioChoice) : option string :=
  match c with
  | Some ch => match message ch with
               | Some m => if String.eqb (content m) "" then None else Some (content m)
               | None => None
               end
  | None => None
  end.

(** [choice?.text] when truthy *)
Definition completionText (c : option LMStudioChoice) : option string :=
  match c with
  | Some ch => match text ch with
               | Some t => if String.eqb t "" then None else Some t
               | None => None
               end
  | None => None
  end.

Definition probeChatBody : ChatBody :=
  {| chatModel := "default"; chatMessages := [("user", "Say hello")];
     chatMaxTokens := 5; chatTuned := false |}.

Definition probeCompletionBody : CompletionBody :=
  {| complModel := "default"; complPrompt := "Say hello";
     complMaxTokens := 5; complTuned := false |}.

(** [checkLMStudioConnection]: the status, and the endpoints requested in
    order. *)
Definition checkLMStudioConnection (srv : Server) (lmStudioUrl : string)
  : list Endpoint * ConnectionStatus :=
  let viaModels :=
    match getModels srv (lmStudioUrl ++ "/models") with
    | Resolved (Some d) =>
        match models d with
        | Some (activeModel :: _) =>
            Some {| connected := true;
                    modelId := Some (orElse (Some (id activeModel)) "Unknown");
                    error := None |}
        | _ => None
        end
    | _ => None
    end in
  match viaModels with
  | Some st => ([ModelsEndpoint], st)
  | None =>
    let viaChat :=
      match postChat srv (lmStudioUrl ++ "/chat/completions") probeChatBody with
      | Resolved (Some d) =>
          Some {| connected := true;
                  modelId := Some (orElse (model d) "Unknown model");
                  error := None |}
      | _ => None
      end in
    match viaChat with
    | Some st => ([ModelsEndpoint; ChatCompletions], st)
    | None =>
      let viaCompletions :=
        match postCompletions srv (lmStudioUrl ++ "/completions") probeCompletionBody with
        | Resolved (Some d) =>
            Some {| connected := true;
                    modelId := Some (orElse (model d) "Unknown model");
                    error := None |}
        | _ => None
        end in
      match viaCompletions with
      | Some st => ([ModelsEndpoint; ChatCompletions; Completions], st)
      | None =>
          ([ModelsEndpoint; ChatCompletions; Completions],
           {| connected := false; modelId := None;
              error := Some "Failed to connect after trying multiple endpoints." |})
      end
    end
  end.

Definition systemInstruction : string :=
  "You are a chess engine. You will analyze the board position and make the best move possible based on chess principles. Respond with only a valid chess move in standard algebraic notation. Do not include any explanations or additional text.".

Definition moveChatBody (modelToUse prompt : string) : ChatBody :=
  {| chatModel := modelToUse;
     chatMessages := [("system", systemInstruction); ("user", prompt)];
     chatMaxTokens := 20; chatTuned := true |}.

Definition moveCompletionBody (modelToUse prompt : string) : CompletionBody :=
  {| complModel := modelToUse; complPrompt := prompt;
     complMaxTokens := 20; complTuned := true |}.

(** The first attempt of [fetchRawAIMove]: the trimmed chat content when
    there is some; [None] when the request rejects or carries no content
    (the function then goes on to the second attempt). *)
Definition chatAttempt (srv : Server) (lmStudioUrl modelToUse prompt : string)
  : option string :=
  match postChat srv (lmStudioUrl ++ "/chat/completions") (moveChatBody modelToUse prompt) with
  | Resolved data =>
      match chatContent (firstChoice data) with
      | Some c => Some (JS.trim c)
      | None => None
      end
  | Rejected _ => None
  end.

(** The second attempt: the trimmed completion text, or the message of
    the error caught by its [catch] (the request's own, or the one thrown
    for an empty response). *)
Definition completionAttempt (srv : Server) (lmStudioUrl modelToUse prompt : string)
  : string + string :=
  match postCompletions srv (lmStudioUrl ++ "/completions") (moveCompletionBody modelToUse prompt) with
  | Resolved data =>
      match completionText (firstChoice data) with
      | Some t => inl (JS.trim t)
      | None => inr "Received empty or invalid response from /completions endpoint."
      end
  | Rejected msg => inr msg
  end.

(** [fetchRawAIMove]: the endpoints requested in order, and either the
    raw text ([inl]) or the message of the error thrown ([inr]). *)
Definition fetchRawAIMove (srv : Server) (lmStudioUrl prompt : string)
  (modelId : option string) : list Endpoint * (string + string) :=
  let modelToUse := orElse modelId "default" in
  match chatAttempt srv lmStudioUrl modelToUse prompt with
  | Some rawText => ([ChatCompletions], inl rawText)
  | None =>
      match completionAttempt srv lmStudioUrl modelToUse prompt with
      | inl rawText => ([ChatCompletions; Completions], inl rawText)
      | inr msg =>
          ([ChatCompletions; Completions],
           inr ("Failed to get AI move from LM Studio after trying both endpoints. Last error: " ++ msg)%string)
      end
  end.

End LMStudio.

(** ** The game component *)

Module ChessGame.

Import ChessJS.
Local Open Scope string_scope.

Inductive Quality := excellent | good | fair | poor.

(** One entry of a captured-piece tally. *)
Record CapturedEntry := { type : PieceSymbol; count : Z }.

(** The tallies, keyed by the colour of the captured pieces. *)
Record CapturedPieces := { w : list CapturedEntry; b : list CapturedEntry }.

(** An entry of the displayed move list. *)
Record MoveRecord := { mrSan : string; mrColor : string }.

(** The component's state variables. *)
Record State := {
  game : Chess;
  fen : Fen;
  isPlayerTurn : bool;
  gameStatus : string;
  isLoading : bool;
  lastAIMove : string;
  aiMoveSource : string;
  aiThinking : string;
  moveQuality : option Quality;
  capturedPieces : CapturedPieces;
  moveHistory : list MoveRecord;
  gameStates : list Fen;
  currentStateIndex : Z;
  promotionMove : option (Square * Square);
  showPromotionModal : bool
}.

Definition setGame (v : Chess) (s : State) : State :=
  {| game := v;
     fen := fen s;
     isPlayerTurn := isPlayerTurn s;
     gameStatus := gameStatus s;
     isLoading := isLoading s;
     lastAIMove := lastAIMove s;
     aiMoveSource := aiMoveSource s;
     aiThinking := aiThinking s;
     moveQuality := moveQuality s;
     capturedPieces := capturedPieces s;
     moveHistory := moveHistory s;
     gameStates := gameStates s;
     currentStateIndex := currentStateIndex s;
     promotionMove := promotionMove s;
     showPromotionModal := showPromotionModal s |}.

Definition setFen (v : Fen) (s : State) : State :=
  {| game := game s;
     fen := v;
     isPlayerTurn := isPlayerTurn s;
     gameStatus := gameStatus s;
     isLoading := isLoading s;
     lastAIMove := lastAIMove s;
     aiMoveSource := aiMoveSource s;
     aiThinking := aiThinking s;
     moveQuality := moveQuality s;
     capturedPieces := capturedPieces s;
     moveHistory := moveHistory s;
     gameStates := gameStates s;
     currentStateIndex := currentStateIndex s;
     promotionMove := promotionMove s;
     showPromotionModal := showPromotionModal s |}.

Definition setIsPlayerTurn (v : bool) (s : State) : State :=
  {| game := game s;
     fen := fen s;
     isPlayerTurn := v;
     gameStatus := gameStatus s;
     isLoading := isLoading s;
     lastAIMove := lastAIMove s;
     aiMoveSource := aiMoveSource s;
     aiThinking := aiThinking s;
     moveQuality := moveQuality s;
     capturedPieces := capturedPieces s;
     moveHistory := moveHistory s;
     gameStates := gameStates s;
     currentStateIndex := currentStateIndex s;
     promotionMove := promotionMove s;
     showPromotionModal := showPromotionModal s |}.

Definition setGameStatus (v : string) (s : State) : State :=
  {| game := game s;
     fen := fen s;
     isPlayerTurn := isPlayerTurn s;
     gameStatus := v;
     isLoading := isLoading s;
     lastAIMove := lastAIMove s;
     aiMoveSource := aiMoveSource s;
     aiThinking := aiThinking s;
     moveQuality := moveQuality s;
     capturedPieces := capturedPieces s;
     moveHistory := moveHistory s;
     gameStates := gameStates s;
     currentStateIndex := currentStateIndex s;
     promotionMove := promotionMove s;
     showPromotionModal := showPromotionModal s |}.

Definition setIsLoading (v : bool) (s : State) : State :=
  {| game := game s;
     fen := fen s;
     isPlayerTurn := isPlayerTurn s;
     gameStatus := gameStatus s;
     isLoading := v;
     lastAIMove := lastAIMove s;
     aiMoveSource := aiMoveSource s;
     aiThinking := aiThinking s;
     moveQuality := moveQuality s;
     capturedPieces := capturedPieces s;
     moveHistory := moveHistory s;
     gameStates := gameStates s;
     currentStateIndex := currentStateIndex s;
     promotionMove := promotionMove s;
     showPromotionModal := showPromotionModal s |}.

Definition setLastAIMove (v : string) (s : State) : State :=
  {| game := game s;
     fen := fen s;
     isPlayerTurn := isPlayerTurn s;
     gameStatus := gameStatus s;
     isLoading := isLoading s;
     lastAIMove := v;
     aiMoveSource := aiMoveSource s;
     aiThinking := aiThinking s;
     moveQuality := moveQuality s;
     capturedPieces := capturedPieces s;
     moveHistory := moveHistory s;
     gameStates := gameStates s;
     currentStateIndex := currentStateIndex s;
     promotionMove := promotionMove s;
     showPromotionModal := showPromotionModal s |}.

Definition setAiMoveSource (v : string) (s : State) : State :=
  {| game := game s;
     fen := fen s;
     isPlayerTurn := isPlayerTurn s;
     gameStatus := gameStatus s;
     isLoading := isLoading s;
     lastAIMove := lastAIMove s;
     aiMoveSource := v;
     aiThinking := aiThinking s;
     moveQuality := moveQuality s;
     capturedPieces := capturedPieces s;
     moveHistory := moveHistory s;
     gameStates := gameStates s;
     currentStateIndex := currentStateIndex s;
     promotionMove := promotionMove s;
     showPromotionModal := showPromotionModal s |}.

Definition setAiThinking (v : string) (s : State) : State :=
  {| game := game s;
     fen := fen s;
     isPlayerTurn := isPlayerTurn s;
     gameStatus := gameStatus s;
     isLoading := isLoading s;
     lastAIMove := lastAIMove s;
     aiMoveSource := aiMoveSource s;
     aiThinking := v;
     moveQuality := moveQuality s;
     capturedPieces := capturedPieces s;
     moveHistory := moveHistory s;
     gameStates := gameStates s;
     currentStateIndex := currentStateIndex s;
     promotionMove := promotionMove s;
     showPromotionModal := showPromotionModal s |}.

Definition setMoveQuality (v : option Quality) (s : State) : State :=
  {| game := game s;
     fen := fen s;
     isPlayerTurn := isPlayerTurn s;
     gameStatus := gameStatus s;
     isLoading := isLoading s;
     lastAIMove := lastAIMove s;
     aiMoveSource := aiMoveSource s;
     aiThinking := aiThinking s;
     moveQuality := v;
     capturedPieces := capturedPieces s;
     moveHistory := moveHistory s;
     gameStates := gameStates s;
     currentStateIndex := currentStateIndex s;
     promotionMove := promotionMove s;
     showPromotionModal := showPromotionModal s |}.

Definition setCapturedPieces (v : CapturedPieces) (s : State) : State :=
  {| game := game s;
     fen := fen s;
     isPlayerTurn := isPlayerTurn s;
     gameStatus := gameStatus s;
     isLoading := isLoading s;
     lastAIMove := lastAIMove s;
     aiMoveSource := aiMoveSource s;
     aiThinking := aiThinking s;
     moveQuality := moveQuality s;
     capturedPieces := v;
     moveHistory := moveHistory s;
     gameStates := gameStates s;
     currentStateIndex := currentStateIndex s;
     promotionMove := promotionMove s;
     showPromotionModal := showPromotionModal s |}.

Definition setMoveHistory (v : list MoveRecord) (s : State) : State :=
  {| game := game s;
     fen := fen s;
     isPlayerTurn := isPlayerTurn s;
     gameStatus := gameStatus s;
     isLoading := isLoading s;
     lastAIMove := lastAIMove s;
     aiMoveSource := aiMoveSource s;
     aiThinking := aiThinking s;
     moveQuality := moveQuality s;
     capturedPieces := capturedPieces s;
     moveHistory := v;
     gameStates := gameStates s;
     currentStateIndex := currentStateIndex s;
     promotionMove := promotionMove s;
     showPromotionModal := showPromotionModal s |}.

Definition setGameStates (v : list Fen) (s : State) : State :=
  {| game := game s;
     fen := fen s;
     isPlayerTurn := isPlayerTurn s;
     gameStatus := gameStatus s;
     isLoading := isLoading s;
     lastAIMove := lastAIMove s;
     aiMoveSource := aiMoveSource s;
     aiThinking := aiThinking s;
     moveQuality := moveQuality s;
     capturedPieces := capturedPieces s;
     moveHistory := moveHistory s;
     gameStates := v;
     currentStateIndex := currentStateIndex s;
     promotionMove := promotionMove s;
     showPromotionModal := showPromotionModal s |}.

Definition setCurrentStateIndex (v : Z) (s : State) : State :=
  {| game := game s;
     fen := fen s;
     isPlayerTurn := isPlayerTurn s;
     gameStatus := gameStatus s;
     isLoading := isLoading s;
     lastAIMove := lastAIMove s;
     aiMoveSource := aiMoveSource s;
     aiThinking := aiThinking s;
     moveQuality := moveQuality s;
     capturedPieces := capturedPieces s;
     moveHistory := moveHistory s;
     gameStates := gameStates s;
     currentStateIndex := v;
     promotionMove := promotionMove s;
     showPromotionModal := showPromotionModal s |}.

Definition setPromotionMove (v : option (Square * Square)) (s : State) : State :=
  {| game := game s;
     fen := fen s;
     isPlayerTurn := isPlayerTurn s;
     gameStatus := gameStatus s;
     isLoading := isLoading s;
     lastAIMove := lastAIMove s;
     aiMoveSource := aiMoveSource s;
     aiThinking := aiThinking s;
     moveQuality := moveQuality s;
     capturedPieces := capturedPieces s;
     moveHistory := moveHistory s;
     gameStates := gameStates s;
     currentStateIndex := currentStateIndex s;
     promotionMove := v;
     showPromotionModal := showPromotionModal s |}.

Definition setShowPromotionModal (v : bool) (s : State) : State :=
  {| game := game s;
     fen := fen s;
     isPlayerTurn := isPlayerTurn s;
     gameStatus := gameStatus s;
     isLoading := isLoading s;
     lastAIMove := lastAIMove s;
     aiMoveSource := aiMoveSource s;
     aiThinking := aiThinking s;
     moveQuality := moveQuality s;
     capturedPieces := capturedPieces s;
     moveHistory := moveHistory s;
     gameStates := gameStates s;
     currentStateIndex := currentStateIndex s;
     promotionMove := promotionMove s;
     showPromotionModal := v |}.

(** The initial values given to [useState]. *)
Definition initialState : State :=
  {| game := newChess DEFAULT_POSITION;
     fen := DEFAULT_POSITION;
     isPlayerTurn := true;
     gameStatus := "White to move";
     isLoading := false;
     lastAIMove := "";
     aiMoveSource := "";
     aiThinking := "";
     moveQuality := None;
     capturedPieces := {| w := []; b := [] |};
     moveHistory := [];
     gameStates := [];
     currentStateIndex := -1;
     promotionMove := None;
     showPromotionModal := false |}.

(** *** Utility functions *)

Definition pieceOrder (t : PieceSymbol) : Z :=
  match t with
  | Queen => 1 | Rook => 2 | Bishop => 3 | Knight => 4 | Pawn => 5 | King => 6
  end.

Definition getPieceName (pieceType : option PieceSymbol) : string :=
  match pieceType with
  | None => "piece"
  | Some Pawn => "pawn"
  | Some Knight => "knight"
  | Some Bishop => "bishop"
  | Some Rook => "rook"
  | Some Queen => "queen"
  | Some King => "king"
  end.

(** [targetArray.findIndex(p => p.type === pieceType) > -1] *)
Definition hasType (t : PieceSymbol) (l : list CapturedEntry) : bool :=
  existsb (fun e => PieceSymbol_eqb (type e) t) l.

(** [targetArray[existingPieceIndex].count += 1] at the first match *)
Fixpoint bumpFirst (t : PieceSymbol) (l : list CapturedEntry) : list CapturedEntry :=
  match l with
  | [] => []
  | e :: l' =>
      if PieceSymbol_eqb (type e) t
      then {| type := type e; count := count e + 1 |} :: l'
      else e :: bumpFirst t l'
  end.

(** [pieceOrder[x] || 99] *)
Definition orderKey (t : PieceSymbol) : Z :=
  if (pieceOrder t =? 0)%Z then 99%Z else pieceOrder t.

Fixpoint insertByOrder (e : CapturedEntry) (l : list CapturedEntry) : list CapturedEntry :=
  match l with
  | [] => [e]
  | x :: l' =>
      if (orderKey (type e) - orderKey (type x) <? 0)%Z
      then e :: l
      else x :: insertByOrder e l'
  end.

(** [targetArray.sort(...)], a stable sort on the piece order *)
Definition sortByOrder (l : list CapturedEntry) : list CapturedEntry :=
  fold_left (fun acc e => insertByOrder e acc) l [].

Definition tallyAdd (t : PieceSymbol) (targetArray : list CapturedEntry) : list CapturedEntry :=
  sortByOrder (if hasType t targetArray
               then bumpFirst t targetArray
               else (targetArray ++ [{| type := t; count := 1 |}])%list).

(** [addCapturedPiece]: the argument's colour is that of the captured
    piece.  The value is that of one invocation of the updater handed to
    [setCapturedPieces]. *)
Definition addCapturedPiece (pc : Piece) (s : State) : State :=
  let prev := capturedPieces s in
  match pcolor pc with
  | White => setCapturedPieces {| w := tallyAdd (ptype pc) (w prev); b := b prev |} s
  | Black => setCapturedPieces {| w := w prev; b := tallyAdd (ptype pc) (b prev) |} s
  end.

Definition opposite (c : Color) : Color :=
  match c with White => Black | Black => White end.

(** [if (m.captured) addCapturedPiece({type: m.captured, color: m.color === 'w' ? 'b' : 'w'})] *)
Definition recordCapture (m : Move) (s : State) : State :=
  match captured m with
  | Some c => addCapturedPiece {| ptype := c; pcolor := opposite (color m) |} s
  | None => s
  end.

Definition colorName (c : Color) : string :=
  match c with White => "White" | Black => "Black" end.

Section WithOracle.

Variable O : RulesOracle.

(** *** Effects run when the game object changes *)

(** The effect that keeps [fen] and the undo/redo states in step with the
    game object. *)
Definition historySyncEffect (s : State) : State :=
  let currentFen := ChessJS.fen (game s) in
  let s1 := setFen currentFen s in
  if (currentStateIndex s =? -1)%Z then
    setCurrentStateIndex 0 (setGameStates [currentFen] s1)
  else
    match JS.index (gameStates s) (currentStateIndex s) with
    | Some f =>
        if String.eqb f currentFen then s1
        else
          let newStates := (JS.slice0 (gameStates s) (currentStateIndex s + 1) ++ [currentFen])%list in
          setCurrentStateIndex (JS.len newStates - 1) (setGameStates newStates s1)
    | None =>
        let newStates := (JS.slice0 (gameStates s) (currentStateIndex s + 1) ++ [currentFen])%list in
        setCurrentStateIndex (JS.len newStates - 1) (setGameStates newStates s1)
    end.

Definition statusText (f : Fen) : string :=
  if isGameOver O f then
    if isCheckmate O f then
      "Checkmate! " ++ colorName (opposite (turn O f)) ++ " wins!"
    else if isDraw O f then "Draw!"
    else "Game over!"
  else if isCheck O f then colorName (turn O f) ++ " is in check!"
  else colorName (turn O f) ++ " to move".

Definition formatHistory (h : list Move) : list MoveRecord :=
  map (fun m => {| mrSan := san m;
                   mrColor := match color m with White => "white" | Black => "black" end |}) h.

(** The effect that refreshes the status line and the move list. *)
Definition statusEffect (s : State) : State :=
  setMoveHistory (formatHistory (history (game s)))
    (setGameStatus (statusText (ChessJS.fen (game s))) s).

(** Both effects depend on [game]; they run after every update that
    installs a new game object. *)
Definition gameEffects (s : State) : State :=
  statusEffect (historySyncEffect s).

(** The state after the first render. *)
Definition mounted : State := gameEffects initialState.

(** *** AI move logic *)

(** The first test of [assessMoveQuality],
    [san.includes('+') || san.includes('#')]: the move gives check, mate
    included. *)
Definition putsKingInCheck (s : string) : bool :=
  orb (JS.includes "+" s) (JS.includes "#" s).

Definition pieceValues (t : PieceSymbol) : Z :=
  match t with
  | Pawn => 1 | Knight => 3 | Bishop => 3 | Rook => 5 | Queen => 9 | King => 0
  end.

Definition assessMoveQuality (moveResult : Move) : Quality * string :=
  if putsKingInCheck (san moveResult) then (excellent, "Puts the king in check.")
  else match captured moveResult with
  | Some c =>
      let capturedValue := pieceValues c in
      let movingValue := pieceValues (piece moveResult) in
      if (movingValue <? capturedValue)%Z then
        (excellent, "Captures a higher value piece (" ++ getPieceName (Some c) ++ ").")
      else if (capturedValue =? movingValue)%Z then
        (good, "Exchanges pieces of equal value (" ++ getPieceName (Some c) ++ ").")
      else
        (fair, "Captures a lower value piece (" ++ getPieceName (Some c) ++ ").")
  | None =>
    match promotion moveResult with
    | Some pr => (excellent, "Promotes a pawn to " ++ getPieceName (Some pr) ++ ".")
    | None =>
        if orb (JS.includes "k" (flags moveResult)) (JS.includes "q" (flags moveResult)) then
          (good, "Castles, improving king safety.")
        else match piece moveResult with
        | Knight | Bishop =>
            (good, "Develops the " ++ getPieceName (Some (piece moveResult)) ++ ".")
        | _ => (fair, "Moves the " ++ getPieceName (Some (piece moveResult)) ++ ".")
        end
    end
  end.

Record FallbackChoice := {
  selectedMove : option string;
  fbQuality : Quality;
  fbThinking : string
}.

Definition captureMoves (legalMoves : list string) : list string :=
  filter (JS.includes "x") legalMoves.
Definition checkMoves (legalMoves : list string) : list string :=
  filter (JS.includes "+") legalMoves.
Definition promotionMoves (legalMoves : list string) : list string :=
  filter (JS.includes "=") legalMoves.
Definition developingMoves (legalMoves : list string) : list string :=
  filter (fun m => andb (orb (JS.startsWith "N" m) (JS.startsWith "B" m))
                        (negb (JS.includes "x" m))) legalMoves.

(** The if/else-if chain of [makeFallbackMove]; [r] is the value returned
    by the single call of [Math.random()] on the branch taken. *)
Definition selectFallback (legalMoves : list string) (r : Q) : FallbackChoice :=
  if (0 <? JS.len (checkMoves legalMoves))%Z then
    {| selectedMove := JS.randomElement r (checkMoves legalMoves);
       fbQuality := excellent; fbThinking := "Fallback: Puts king in check." |}
  else if (0 <? JS.len (captureMoves legalMoves))%Z then
    {| selectedMove := JS.randomElement r (captureMoves legalMoves);
       fbQuality := good; fbThinking := "Fallback: Captures a piece." |}
  else if (0 <? JS.len (promotionMoves legalMoves))%Z then
    {| selectedMove := JS.randomElement r (promotionMoves legalMoves);
       fbQuality := excellent; fbThinking := "Fallback: Promotes a pawn." |}
  else if (0 <? JS.len (developingMoves legalMoves))%Z then
    {| selectedMove := JS.randomElement r (developingMoves legalMoves);
       fbQuality := good; fbThinking := "Fallback: Develops a piece." |}
  else
    {| selectedMove := JS.randomElement r legalMoves;
       fbQuality := fair; fbThinking := "Fallback: Basic move selection." |}.

(** [mutableGame.move(selectedMove)] where the selection may be [undefined] *)
Definition applySelected (f : Fen) (sel : option string) : option (Move * Fen) :=
  match sel with
  | Some m => moveSan O f m
  | None => None
  end.

Definition makeFallbackMove (r : Q) (s : State) : State :=
  let s1 := setGameStatus "AI using fallback strategy..."
              (setAiMoveSource "Smart Fallback" s) in
  let position := ChessJS.fen (game s) in
  let legalMoves := moves O position in
  if (JS.len legalMoves =? 0)%Z then
    setGameStatus "Your turn (no legal moves for AI)" (setIsPlayerTurn true s1)
  else
    let choice := selectFallback legalMoves r in
    match applySelected position (selectedMove choice) with
    | Some (moveResult, newFen) =>
        let s2 := recordCapture moveResult s1 in
        let s3 := setGame (newChess newFen) s2 in
        let s4 := setIsPlayerTurn true s3 in
        let s5 := setLastAIMove (match selectedMove choice with Some m => m | None => "" end) s4 in
        let s6 := setMoveQuality (Some (fbQuality choice)) s5 in
        let s7 := setAiThinking (fbThinking choice) s6 in
        gameEffects (setIsLoading false s7)
    | None =>
        setIsLoading false
          (setGameStatus "Your turn (AI fallback move failed)" (setIsPlayerTurn true s1))
    end.

(** The character class of the global [replace] in [getAIMove]:
    double quote, single quote, full stop, colon, comma, semicolon,
    line feed, carriage return (by character code). *)
Definition isStripped (c : ascii) : bool :=
  existsb (Nat.eqb (nat_of_ascii c)) [34; 39; 46; 58; 44; 59; 10; 13]%nat.

(** [rawAiMoveText.replace(...).split(' ')[0].trim()] *)
Definition cleanAIMoveText (rawAiMoveText : string) : string :=
  JS.trim (JS.splitSpaceFirst (JS.removeAll isStripped rawAiMoveText)).

(** The predicate given to [legalMovesVerbose.find]. *)
Definition matchesVariation (aiMoveText : string) (m : Move) : bool :=
  orb (String.eqb (san m) aiMoveText)
    (orb (String.eqb (JS.toLowerCase (san m)) (JS.toLowerCase aiMoveText))
         (String.eqb (JS.toLowerCase (symbol (piece m)) ++ to m)
                     (JS.toLowerCase aiMoveText))).

(** Validation of the cleaned text on a temporary game: the text finally
    used, and the move made (if any) with the resulting position. *)
Definition validateAIMove (currentFen : Fen) (aiMoveText : string)
  : string * option (Move * Fen) :=
  match moveSan O currentFen aiMoveText with
  | Some res => (aiMoveText, Some res)
  | None =>
      let legalMovesVerbose := movesVerbose O currentFen in
      match find (matchesVariation aiMoveText) legalMovesVerbose with
      | Some foundMove => (san foundMove, moveSan O currentFen (san foundMove))
      | None => (aiMoveText, None)
      end
  end.

Definition newline : string := String (ascii_of_nat 10) EmptyString.

(** [arr.join(', ')] *)
Definition joinComma (l : list string) : string := String.concat ", " l.

Definition aiPrompt (currentFen : Fen) (legalMovesForPrompt : list string) : string :=
  newline ++
  "      Current board FEN: " ++ currentFen ++ newline ++
  "      You are playing black." ++ newline ++
  "      Legal moves: " ++ joinComma legalMovesForPrompt ++ newline ++
  "      Choose the best move from the list." ++ newline ++
  "      CRITICAL: Your entire response must be ONLY the chosen move from the list (e.g., e5 or Nf6 or O-O). No other text or explanation.".

(** [getAIMove] from the point where the request to the service has
    settled: [fetched] is the raw text ([inl]) or the error ([inr]).
    The status text of the error branch starts with a warning sign in the
    source; [makeFallbackMove] overwrites the text at once. *)
Definition afterFetch (fetched : string + string) (r : Q) (s : State) : State :=
  match fetched with
  | inl rawAiMoveText =>
      let currentFen := ChessJS.fen (game s) in
      match validateAIMove currentFen (cleanAIMoveText rawAiMoveText) with
      | (aiMoveText, Some (moveResult, newFen)) =>
          let s1 := setAiMoveSource "LM Studio" s in
          let s2 := recordCapture moveResult s1 in
          let s3 := setMoveQuality (Some (fst (assessMoveQuality moveResult))) s2 in
          let s4 := setAiThinking (snd (assessMoveQuality moveResult)) s3 in
          let s5 := setGame (newChess newFen) s4 in
          let s6 := setIsPlayerTurn true s5 in
          let s7 := setLastAIMove aiMoveText s6 in
          gameEffects (setIsLoading false s7)
      | (_, None) => setIsLoading false (makeFallbackMove r s)
      end
  | inr _ =>
      setIsLoading false
        (makeFallbackMove r (setGameStatus "ERROR - Using fallback" s))
  end.

(** [getAIMove], for the run in which the component's state is not
    touched while the request is awaited. *)
Definition getAIMove (srv : LMStudio.Server) (lmStudioUrl : string)
  (modelId : option string) (r : Q) (s : State) : State :=
  if orb (isGameOver O (ChessJS.fen (game s))) (isPlayerTurn s) then
    setIsLoading false s
  else
    let s1 := setMoveQuality None
                (setAiThinking "" (setAiMoveSource "" (setIsLoading true s))) in
    let currentFen := ChessJS.fen (game s) in
    let prompt := aiPrompt currentFen (moves O currentFen) in
    afterFetch (snd (LMStudio.fetchRawAIMove srv lmStudioUrl prompt modelId)) r s1.

(** The condition under which the AI-trigger effect arms the timer that
    calls [getAIMove]. *)
Definition aiTurnTriggered (s : State) : bool :=
  andb (negb (isPlayerTurn s)) (negb (isGameOver O (ChessJS.fen (game s)))).

(** *** Player move handling *)

Definition handlePromotion (pieceType : PieceSymbol) (s : State) : State :=
  match promotionMove s with
  | None => s
  | Some (fromSq, toSq) =>
      match moveFromTo O (ChessJS.fen (game s)) fromSq toSq (Some pieceType) with
      | Some (_, newFen) =>
          gameEffects
            (setPromotionMove None
               (setShowPromotionModal false
                  (setIsPlayerTurn false (setGame (newChess newFen) s))))
      | None => s
      end
  end.

Definition isPawnPromotion (s : State) (sourceSquare targetSquare : Square) : bool :=
  match get O (ChessJS.fen (game s)) sourceSquare with
  | None => false
  | Some pc =>
      if negb (PieceSymbol_eqb (ptype pc) Pawn) then false
      else
        let targetRank := JS.charAt 1 targetSquare in
        orb (andb (Color_eqb (pcolor pc) White) (String.eqb targetRank "8"))
            (andb (Color_eqb (pcolor pc) Black) (String.eqb targetRank "1"))
  end.

(** [onDrop]: the new state and the value returned to the board. *)
Definition onDrop (sourceSquare targetSquare : Square) (s : State) : State * bool :=
  if orb (negb (isPlayerTurn s)) (isGameOver O (ChessJS.fen (game s))) then (s, false)
  else if isPawnPromotion s sourceSquare targetSquare then
    (setShowPromotionModal true (setPromotionMove (Some (sourceSquare, targetSquare)) s),
     true)
  else
    match moveFromTo O (ChessJS.fen (game s)) sourceSquare targetSquare None with
    | None => (s, false)
    | Some (move, newFen) =>
        (gameEffects
           (setIsPlayerTurn false (setGame (newChess newFen) (recordCapture move s))),
         true)
    end.

(** *** Game management *)

Definition loadGame (fenToLoad : Fen) (s : State) : State :=
  if validFen O fenToLoad then
    let newGame := newChess fenToLoad in
    gameEffects
      (setCurrentStateIndex 0
         (setGameStates [ChessJS.fen newGame]
            (setMoveHistory []
               (setCapturedPieces {| w := []; b := [] |}
                  (setLastAIMove ""
                     (setIsPlayerTurn (Color_eqb (turn O (ChessJS.fen newGame)) White)
                        (setGame newGame s)))))))
  else s.

Definition undoMove (s : State) : State :=
  if (0 <? currentStateIndex s)%Z then
    let previousIndex := (currentStateIndex s - 1)%Z in
    let previousState := JS.index (gameStates s) previousIndex in
    let previousGame := newChessOpt previousState in
    gameEffects
      (setIsPlayerTurn (Color_eqb (turn O (ChessJS.fen previousGame)) White)
         (setCurrentStateIndex previousIndex (setGame previousGame s)))
  else s.

Definition redoMove (s : State) : State :=
  if (currentStateIndex s <? JS.len (gameStates s) - 1)%Z then
    let nextIndex := (currentStateIndex s + 1)%Z in
    let nextState := JS.index (gameStates s) nextIndex in
    let nextGame := newChessOpt nextState in
    gameEffects
      (setIsPlayerTurn (Color_eqb (turn O (ChessJS.fen nextGame)) White)
         (setCurrentStateIndex nextIndex (setGame nextGame s)))
  else s.

Definition resetGame (s : State) : State :=
  let newGame := newChess DEFAULT_POSITION in
  gameEffects
    (setMoveQuality None
       (setAiThinking ""
          (setAiMoveSource ""
             (setCurrentStateIndex 0
                (setGameStates [ChessJS.fen newGame]
                   (setMoveHistory []
                      (setCapturedPieces {| w := []; b := [] |}
                         (setLastAIMove ""
                            (setIsPlayerTurn true (setGame newGame s)))))))))).

(** *** The history store seen through the component

    The three operations of the undo/redo log.  A position is committed
    when a handler installs a game object standing on it and the effects
    run; undo and redo are the two handlers. *)

Definition commit (p : Fen) (s : State) : State :=
  gameEffects (setGame (newChess p) s).

(** The guards of [undoMove] and [redoMove] (the buttons are disabled on
    their negations). *)
Definition canUndo (s : State) : bool := (0 <? currentStateIndex s)%Z.
Definition canRedo (s : State) : bool :=
  (currentStateIndex s <? JS.len (gameStates s) - 1)%Z.

(** The entry under the cursor. *)
Definition cursorEntry (s : State) : option Fen :=
  JS.index (gameStates s) (currentStateIndex s).

(** [Store s st n f]: the log of [s] is [st], the cursor is at [n], the
    entry there is [f], and [f] is the live position. *)
Definition Store (s : State) (st : list Fen) (n : nat) (f : Fen) : Prop :=
  gameStates s = st /\
  currentStateIndex s = Z.of_nat n /\
  ChessJS.fen (game s) = f /\
  nth_error st n = Some f.

(** *** States the component can be in *)

Inductive reachable : State -> Prop :=
| reach_mounted : reachable mounted
| reach_onDrop s sourceSquare targetSquare :
    reachable s -> reachable (fst (onDrop sourceSquare targetSquare s))
| reach_handlePromotion s pieceType :
    reachable s -> reachable (handlePromotion pieceType s)
| reach_getAIMove s srv lmStudioUrl modelId r :
    reachable s -> reachable (getAIMove srv lmStudioUrl modelId r s)
| reach_undoMove s : reachable s -> reachable (undoMove s)
| reach_redoMove s : reachable s -> reachable (redoMove s)
| reach_resetGame s : reachable s -> reachable (resetGame s)
| reach_loadGame s fenToLoad : reachable s -> reachable (loadGame fenToLoad s).

(** The data-model invariant: the game object carries no moves of its
    own, the displayed move list mirrors that, the cursor is inside the
    log and the entry under it is the live position. *)
Definition Inv (s : State) : Prop :=
  history (game s) = [] /\
  moveHistory s = [] /\
  (0 <= currentStateIndex s < JS.len (gameStates s))%Z /\
  cursorEntry s = Some (ChessJS.fen (game s)).

End WithOracle.

End ChessGame.

(** ** [getAIMove] around its [await]

    [getAIMove] reads the game object of the render it was created in,
    sends the request and is resumed when the answer is there.  Its
    validation and its fallback work on the position read before the
    request; its setters act on the state the component has when it is
    resumed, which the undo, redo, reset and load buttons may have
    changed in the meantime.  [ChessGame.getAIMove] is the run in which
    nothing happens in between. *)

Module Async.

Import ChessJS ChessGame.

Local Open Scope string_scope.

Section WithOracle.

Variable O : RulesOracle.

(** [getAIMove] up to the [await]: the state it leaves, and, when a
    request goes out, the position read from the game object and the
    prompt sent. *)
Definition getAIMoveStart (s : State) : State * option (Fen * string) :=
  if orb (isGameOver O (ChessJS.fen (game s))) (isPlayerTurn s) then
    (setIsLoading false s, None)
  else
    let s1 := setMoveQuality None
                (setAiThinking "" (setAiMoveSource "" (setIsLoading true s))) in
    let currentFen := ChessJS.fen (game s) in
    (s1, Some (currentFen, aiPrompt currentFen (moves O currentFen))).

(** [makeFallbackMove] as called from a resumed [getAIMove]: [position]
    is that of the game object its closure holds, [s] the state its
    setters act on. *)
Definition makeFallbackMoveAt (position : Fen) (r : Q) (s : State) : State :=
  let s1 := setGameStatus "AI using fallback strategy..."
              (setAiMoveSource "Smart Fallback" s) in
  let legalMoves := moves O position in
  if (JS.len legalMoves =? 0)%Z then
    setGameStatus "Your turn (no legal moves for AI)" (setIsPlayerTurn true s1)
  else
    let choice := selectFallback legalMoves r in
    match applySelected O position (selectedMove choice) with
    | Some (moveResult, newFen) =>
        let s2 := recordCapture moveResult s1 in
        let s3 := setGame (newChess newFen) s2 in
        let s4 := setIsPlayerTurn true s3 in
        let s5 := setLastAIMove (match selectedMove choice with Some m => m | None => "" end) s4 in
        let s6 := setMoveQuality (Some (fbQuality choice)) s5 in
        let s7 := setAiThinking (fbThinking choice) s6 in
        gameEffects O (setIsLoading false s7)
    | None =>
        setIsLoading false
          (setGameStatus "Your turn (AI fallback move failed)" (setIsPlayerTurn true s1))
    end.

(** [getAIMove] from the [await] on: [currentFen] is the position read
    before the request, [fetched] the raw text ([inl]) or the error
    ([inr]), [s] the state of the component at that moment. *)
Definition getAIMoveResume (currentFen : Fen) (fetched : string + string) (r : Q)
  (s : State) : State :=
  match fetched with
  | inl rawAiMoveText =>
      match validateAIMove O currentFen (cleanAIMoveText rawAiMoveText) with
      | (aiMoveText, Some (moveResult, newFen)) =>
          let s1 := setAiMoveSource "LM Studio" s in
          let s2 := recordCapture moveResult s1 in
          let s3 := setMoveQuality (Some (fst (assessMoveQuality moveResult))) s2 in
          let s4 := setAiThinking (snd (assessMoveQuality moveResult)) s3 in
          let s5 := setGame (newChess newFen) s4 in
          let s6 := setIsPlayerTurn true s5 in
          let s7 := setLastAIMove aiMoveText s6 in
          gameEffects O (setIsLoading false s7)
      | (_, None) => setIsLoading false (makeFallbackMoveAt currentFen r s)
      end
  | inr _ =>
      setIsLoading false
        (makeFallbackMoveAt currentFen r (setGameStatus "ERROR - Using fallback" s))
  end.

End WithOracle.

(** One event in the life of the component when AI turns can be
    interrupted: a handler, or one of the two halves of [getAIMove].  A
    resumption may come with any position and any answer, which covers
    every request that was sent earlier. *)
Inductive event (O : RulesOracle) (s : State) : State -> Prop :=
| ev_onDrop sourceSquare targetSquare :
    event O s (fst (onDrop O sourceSquare targetSquare s))
| ev_handlePromotion pieceType : event O s (handlePromotion O pieceType s)
| ev_getAIMoveStart : event O s (fst (getAIMoveStart O s))
| ev_getAIMoveResume currentFen fetched r :
    event O s (getAIMoveResume O currentFen fetched r s)
| ev_undoMove : event O s (undoMove O s)
| ev_redoMove : event O s (redoMove O s)
| ev_resetGame : event O s (resetGame O s)
| ev_loadGame fenToLoad : event O s (loadGame O fenToLoad s).

(** The states reached from the first render by such events. *)
Inductive interleaved (O : RulesOracle) : State -> Prop :=
| il_mounted : interleaved O (mounted O)
| il_event s s' : interleaved O s -> event O s s' -> interleaved O s'.

End Async.

(** ** The updater of [addCapturedPiece] and the arrays it works on

    The function handed to [setCapturedPieces] copies the record [prev]
    but not its two arrays: it bumps, pushes and sorts inside the array
    that [prev] holds.  What it returns and what [prev] holds afterwards
    are the same tallies, so an invocation that follows on the same
    [prev] finds the piece already recorded.  The framework invokes an
    updater once, or twice in a row on the same [prev] when it
    double-invokes updaters, as development builds in strict mode do. *)

Module Updater.

Import ChessJS ChessGame.

(** One invocation: what [prev] holds afterwards, and the value returned. *)
Definition capturedUpdater (pc : Piece) (prev : CapturedPieces)
  : CapturedPieces * CapturedPieces :=
  let newCaptured :=
    match pcolor pc with
    | White => {| w := tallyAdd (ptype pc) (w prev); b := b prev |}
    | Black => {| w := w prev; b := tallyAdd (ptype pc) (b prev) |}
    end in
  (newCaptured, newCaptured).

(** [runs] invocations in a row on the same [prev]: what it holds in the
    end, which is also the value the last invocation returns. *)
Fixpoint invoke (runs : nat) (pc : Piece) (prev : CapturedPieces) : CapturedPieces :=
  match runs with
  | O => prev
  | S k => invoke k pc (fst (capturedUpdater pc prev))
  end.

(** [addCapturedPiece] when the framework invokes the updater [runs]
    times. *)
Definition addCapturedPieceRuns (runs : nat) (pc : Piece) (s : State) : State :=
  setCapturedPieces (invoke runs pc (capturedPieces s)) s.

End Updater.

(** ** Outcomes of the service's requests, as the statements name them *)

Module Outcome.

Import LMStudio.

(** The models listing yields no model identifier: the request rejects,
    or it resolves without a non-empty list of models. *)
Definition modelsCheckFails (srv : Server) (lmStudioUrl : string) : Prop :=
  match getModels srv (lmStudioUrl ++ "/models") with
  | Resolved (Some d) =>
      match models d with
      | Some (_ :: _) => False
      | _ => True
      end
  | _ => True
  end.

(** The chat-style liveness request rejects or resolves without a body. *)
Definition chatCheckFails (srv : Server) (lmStudioUrl : string) : Prop :=
  match postChat srv (lmStudioUrl ++ "/chat/completions") probeChatBody with
  | Resolved (Some _) => False
  | _ => True
  end.

(** The legacy liveness request resolves with the body [d]. *)
Definition completionsCheckReturns (srv : Server) (lmStudioUrl : string)
  (d : LMStudioResponse) : Prop :=
  postCompletions srv (lmStudioUrl ++ "/completions") probeCompletionBody
  = Resolved (Some d).

(** The chat-style move request yields the non-empty content [c]. *)
Definition chatYields (srv : Server) (lmStudioUrl modelToUse prompt c : string) : Prop :=
  exists data,
    postChat srv (lmStudioUrl ++ "/chat/completions") (moveChatBody modelToUse prompt)
    = Resolved data /\
    chatContent (firstChoice data) = Some c.

(** The chat-style move request raises, or returns no usable content. *)
Definition chatFails (srv : Server) (lmStudioUrl modelToUse prompt : string) : Prop :=
  (exists e,
     postChat srv (lmStudioUrl ++ "/chat/completions") (moveChatBody modelToUse prompt)
     = Rejected e) \/
  (exists data,
     postChat srv (lmStudioUrl ++ "/chat/completions") (moveChatBody modelToUse prompt)
     = Resolved data /\
     chatContent (firstChoice data) = None).

(** The legacy move request yields the non-empty text [t]. *)
Definition legacyYields (srv : Server) (lmStudioUrl modelToUse prompt t : string) : Prop :=
  exists data,
    postCompletions srv (lmStudioUrl ++ "/completions") (moveCompletionBody modelToUse prompt)
    = Resolved data /\
    completionText (firstChoice data) = Some t.

(** The legacy move request fails with the underlying error [e]: the
    request's own, or the one raised for a response without text. *)
Definition legacyFailsWith (srv : Server) (lmStudioUrl modelToUse prompt e : string) : Prop :=
  postCompletions srv (lmStudioUrl ++ "/completions") (moveCompletionBody modelToUse prompt)
  = Rejected e \/
  (exists data,
     postCompletions srv (lmStudioUrl ++ "/completions") (moveCompletionBody modelToUse prompt)
     = Resolved data /\
     completionText (firstChoice data) = None /\
     e = "Received empty or invalid response from /completions endpoint.").

End Outcome.

(** ** What the answer to a move request holds

    Stated on the response itself, field by field, and on the outcome of
    the awaited request. *)

Module Answer.

Import LMStudio.

(** The response holds the non-empty string [c] at
    [choices[0].message.content]. *)
Definition hasChatContent (data : option LMStudioResponse) (c : string) : Prop :=
  exists d ch rest m,
    data = Some d /\ choices d = Some (ch :: rest) /\
    message ch = Some m /\ content m = c /\ c <> "".

(** The response holds the non-empty string [t] at [choices[0].text]. *)
Definition hasCompletionText (data : option LMStudioResponse) (t : string) : Prop :=
  exists d ch rest,
    data = Some d /\ choices d = Some (ch :: rest) /\
    text ch = Some t /\ t <> "".

(** The chat-style request gives nothing to return: it rejects, or it
    resolves with a response that holds no content. *)
Definition chatUnusable (answer : Awaited LMStudioResponse) : Prop :=
  (exists e, answer = Rejected e) \/
  (exists data, answer = Resolved data /\ forall c, ~ hasChatContent data c).

(** The legacy request gives nothing to return, the underlying error being
    [e]: the one it rejects with, or the one raised on a response that
    holds no text. *)
Definition legacyUnusable (answer : Awaited LMStudioResponse) (e : string) : Prop :=
  answer = Rejected e \/
  (exists data, answer = Resolved data /\ (forall t, ~ hasCompletionText data t) /\
     e = "Received empty or invalid response from /completions endpoint.").

End Answer.

(** ** A small rules oracle for worked examples

    A finite table of positions of a king-and-pawn against
    king-and-knight ending, each with its legal moves and the positions
    they lead to.  Notations are matched exactly; positions outside the
    table have no moves. *)

Module Example.

Import ChessJS.

Definition pieceOfLetter (c : ascii) : option Piece :=
  let n := nat_of_ascii c in
  let col := if Nat.leb 97 n then Black else White in
  match JS.lowerChar c with
  | "p"%char => Some {| ptype := Pawn; pcolor := col |}
  | "n"%char => Some {| ptype := Knight; pcolor := col |}
  | "b"%char => Some {| ptype := Bishop; pcolor := col |}
  | "r"%char => Some {| ptype := Rook; pcolor := col |}
  | "q"%char => Some {| ptype := Queen; pcolor := col |}
  | "k"%char => Some {| ptype := King; pcolor := col |}
  | _ => None
  end.

(** The 64 squares of the placement field, from a8 to h1. *)
Fixpoint placement (f : string) : list (option Piece) :=
  match f with
  | EmptyString => []
  | String c t =>
      let n := nat_of_ascii c in
      if Nat.eqb n 32 then []
      else if Nat.eqb n 47 then placement t
      else if andb (Nat.leb 49 n) (Nat.leb n 56) then
        (repeat None (n - 48) ++ placement t)%list
      else (pieceOfLetter c :: placement t)%list
  end.

Definition squareIndex (sq : Square) : option nat :=
  match sq with
  | String fl (String rk EmptyString) =>
      let x := nat_of_ascii fl in
      let y := nat_of_ascii rk in
      if andb (andb (Nat.leb 97 x) (Nat.leb x 104)) (andb (Nat.leb 49 y) (Nat.leb y 56))
      then Some ((56 - y) * 8 + (x - 97))%nat
      else None
  | _ => None
  end.

Definition pieceAt (f : Fen) (sq : Square) : option Piece :=
  match squareIndex sq with
  | Some i => match nth_error (placement f) i with
              | Some o => o
              | None => None
              end
  | None => None
  end.

(** The active-colour field. *)
Fixpoint activeColor (f : string) : Color :=
  match f with
  | EmptyString => White
  | String c t =>
      if Nat.eqb (nat_of_ascii c) 32 then
        match t with
        | String "b"%char _ => Black
        | _ => White
        end
      else activeColor t
  end.

Definition Table := list (Fen * list (Move * Fen)).

Fixpoint entries (tbl : Table) (f : Fen) : list (Move * Fen) :=
  match tbl with
  | [] => []
  | (g, l) :: rest => if String.eqb g f then l else entries rest f
  end.

Definition option_eqb (a c : option PieceSymbol) : bool :=
  match a, c with
  | Some x, Some y => PieceSymbol_eqb x y
  | None, None => true
  | _, _ => false
  end.

(** The object form of [move]: origin and destination must agree, and so
    must the promotion when the legal move is one. *)
Definition agrees (src tgt : Square) (promo : option PieceSymbol) (m : Move) : bool :=
  andb (andb (String.eqb (from m) src) (String.eqb (to m) tgt))
       (match promotion m with
        | Some _ => option_eqb promo (promotion m)
        | None => true
        end).

Definition tableOracle (tbl : Table) : RulesOracle :=
  {| movesVerbose := fun f => map fst (entries tbl f);
     moveSan := fun f txt => find (fun e => String.eqb (san (fst e)) txt) (entries tbl f);
     moveFromTo := fun f src tgt promo =>
                     find (fun e => agrees src tgt promo (fst e)) (entries tbl f);
     turn := activeColor;
     isGameOver := fun f => Nat.eqb (length (entries tbl f)) 0;
     isCheckmate := fun _ => false;
     isDraw := fun _ => false;
     isCheck := fun f => false;
     get := pieceAt;
     validFen := fun f => negb (Nat.eqb (length (entries tbl f)) 0) |}.

Definition quiet (c : Color) (pc : PieceSymbol) (src tgt : Square) (s : string) : Move :=
  {| color := c; from := src; to := tgt; piece := pc; captured := None;
     promotion := None; flags := "n"; san := s |}.

Definition capture (c : Color) (pc : PieceSymbol) (src tgt : Square)
  (victim : PieceSymbol) (s : string) : Move :=
  {| color := c; from := src; to := tgt; piece := pc; captured := Some victim;
     promotion := None; flags := "c"; san := s |}.

Definition promote (src tgt : Square) (pr : PieceSymbol) (s : string) : Move :=
  {| color := White; from := src; to := tgt; piece := Pawn; captured := None;
     promotion := Some pr; flags := "np"; san := s |}.

(** White: Kh1, a3.  Black: Ka8, Ng5.  White to move. *)
Definition posA : Fen := "k7/8/8/6n1/8/P7/8/7K w - - 0 1".
(** After Kg2. *)
Definition posB : Fen := "k7/8/8/6n1/8/P7/6K1/8 b - - 1 1".
(** After ... Nf3. *)
Definition posC : Fen := "k7/8/8/8/8/P4n2/6K1/8 w - - 2 2".
(** After Kxf3. *)
Definition posD : Fen := "k7/8/8/8/8/P4K2/8/8 b - - 0 2".
(** White: Kh1, e7.  Black: Ka8.  White to move. *)
Definition posP : Fen := "k7/4P3/8/8/8/8/8/7K w - - 0 1".

Definition Nf3 : Move := quiet Black Knight "g5" "f3" "Nf3".
Definition Kxf3 : Move := capture White King "g2" "f3" Knight "Kxf3".

Definition endgame : Table :=
  [ (posA,
     [ (quiet White Pawn "a3" "a4" "a4", "k7/8/8/6n1/P7/8/8/7K b - - 0 1");
       (quiet White King "h1" "g2" "Kg2", posB);
       (quiet White King "h1" "h2" "Kh2", "k7/8/8/6n1/8/P7/7K/8 b - - 1 1");
       (quiet White King "h1" "g1" "Kg1", "k7/8/8/6n1/8/P7/8/6K1 b - - 1 1") ]);
    (posB,
     [ (quiet Black King "a8" "b8" "Kb8", "1k6/8/8/6n1/8/P7/6K1/8 w - - 2 2");
       (quiet Black King "a8" "b7" "Kb7", "8/1k6/8/6n1/8/P7/6K1/8 w - - 2 2");
       (quiet Black King "a8" "a7" "Ka7", "8/k7/8/6n1/8/P7/6K1/8 w - - 2 2");
       (quiet Black Knight "g5" "e6" "Ne6", "k7/8/4n3/8/8/P7/6K1/8 w - - 2 2");
       (quiet Black Knight "g5" "f7" "Nf7", "k7/5n2/8/8/8/P7/6K1/8 w - - 2 2");
       (quiet Black Knight "g5" "h7" "Nh7", "k7/7n/8/8/8/P7/6K1/8 w - - 2 2");
       (quiet Black Knight "g5" "h3" "Nh3", "k7/8/8/8/8/P6n/6K1/8 w - - 2 2");
       (Nf3, posC);
       (quiet Black Knight "g5" "e4" "Ne4", "k7/8/8/8/4n3/P7/6K1/8 w - - 2 2") ]);
    (posC,
     [ (quiet White Pawn "a3" "a4" "a4", "k7/8/8/8/P7/5n2/6K1/8 b - - 0 2");
       (Kxf3, posD);
       (quiet White King "g2" "g3" "Kg3", "k7/8/8/8/8/P4nK1/8/8 b - - 3 2");
       (quiet White King "g2" "h3" "Kh3", "k7/8/8/8/8/P4n1K/8/8 b - - 3 2");
       (quiet White King "g2" "h1" "Kh1", "k7/8/8/8/8/P4n2/8/7K b - - 3 2");
       (quiet White King "g2" "f1" "Kf1", "k7/8/8/8/8/P4n2/8/5K2 b - - 3 2");
       (quiet White King "g2" "f2" "Kf2", "k7/8/8/8/8/P4n2/5K2/8 b - - 3 2") ]);
    (posD,
     [ (quiet Black King "a8" "b8" "Kb8", "1k6/8/8/8/8/P4K2/8/8 w - - 1 3");
       (quiet Black King "a8" "b7" "Kb7", "8/1k6/8/8/8/P4K2/8/8 w - - 1 3");
       (quiet Black King "a8" "a7" "Ka7", "8/k7/8/8/8/P4K2/8/8 w - - 1 3") ]);
    (posP,
     [ (promote "e7" "e8" Queen "e8=Q+", "k3Q3/8/8/8/8/8/8/7K b - - 0 1");
       (promote "e7" "e8" Rook "e8=R+", "k3R3/8/8/8/8/8/8/7K b - - 0 1");
       (promote "e7" "e8" Bishop "e8=B", "k3B3/8/8/8/8/8/8/7K b - - 0 1");
       (promote "e7" "e8" Knight "e8=N", "k3N3/8/8/8/8/8/8/7K b - - 0 1");
       (quiet White King "h1" "g2" "Kg2", "k7/4P3/8/8/8/8/6K1/8 b - - 1 1");
       (quiet White King "h1" "h2" "Kh2", "k7/4P3/8/8/8/8/7K/8 b - - 1 1");
       (quiet White King "h1" "g1" "Kg1", "k7/4P3/8/8/8/8/8/6K1 b - - 1 1") ]) ].

Definition oracle : RulesOracle := tableOracle endgame.

(** Black's legal moves after 1. f3 e5 2. g4, as the rules library lists
    them; [Qh4#] mates. *)
Definition foolsMateMoves : list string :=
  [ "Nc6"; "Na6"; "Qe7"; "Qf6"; "Qg5"; "Qh4#"; "Ke7";
    "Be7"; "Bd6"; "Bc5"; "Bb4"; "Ba3"; "Nh6"; "Nf6"; "Ne7";
    "a6"; "a5"; "b6"; "b5"; "c6"; "c5"; "d6"; "d5";
    "f6"; "f5"; "g6"; "g5"; "h6"; "h5"; "e4" ].

(** A server that answers every chat request with one fixed content and
    rejects everything else. *)
Definition chatOnly (answer : string) : LMStudio.Server :=
  {| LMStudio.getModels := fun _ => LMStudio.Rejected "Network Error";
     LMStudio.postChat := fun _ _ =>
       LMStudio.Resolved
         (Some {| LMStudio.choices :=
                    Some [ {| LMStudio.text := None;
                              LMStudio.message := Some {| LMStudio.content := answer |} |} ];
                  LMStudio.model := Some "local-model" |});
     LMStudio.postCompletions := fun _ _ => LMStudio.Rejected "Network Error" |}.

(** A server that only implements the legacy completion endpoint. *)
Definition legacyOnly (answer : string) : LMStudio.Server :=
  {| LMStudio.getModels := fun _ => LMStudio.Rejected "Request failed with status code 404";
     LMStudio.postChat := fun _ _ => LMStudio.Rejected "timeout of 5000ms exceeded";
     LMStudio.postCompletions := fun _ _ =>
       LMStudio.Resolved
         (Some {| LMStudio.choices :=
                    Some [ {| LMStudio.text := Some answer; LMStudio.message := None |} ];
                  LMStudio.model := Some "legacy-model" |}) |}.

(** A server whose chat endpoint answers with an empty list of choices
    and whose legacy endpoint answers with a text. *)
Definition chatEmptyLegacy (answer : string) : LMStudio.Server :=
  {| LMStudio.getModels := fun _ => LMStudio.Rejected "Network Error";
     LMStudio.postChat := fun _ _ =>
       LMStudio.Resolved
         (Some {| LMStudio.choices := Some []; LMStudio.model := Some "local-model" |});
     LMStudio.postCompletions := fun _ _ =>
       LMStudio.Resolved
         (Some {| LMStudio.choices :=
                    Some [ {| LMStudio.text := Some answer; LMStudio.message := None |} ];
                  LMStudio.model := Some "local-model" |}) |}.

(** A server that answers both requests, with an empty content and with
    no body. *)
Definition mute : LMStudio.Server :=
  {| LMStudio.getModels := fun _ => LMStudio.Rejected "Network Error";
     LMStudio.postChat := fun _ _ =>
       LMStudio.Resolved
         (Some {| LMStudio.choices :=
                    Some [ {| LMStudio.text := Some "e5";
                              LMStudio.message := Some {| LMStudio.content := EmptyString |} |} ];
                  LMStudio.model := None |});
     LMStudio.postCompletions := fun _ _ => LMStudio.Resolved None |}.

(** A server that is not there. *)
Definition offline : LMStudio.Server :=
  {| LMStudio.getModels := fun _ => LMStudio.Rejected "Network Error";
     LMStudio.postChat := fun _ _ => LMStudio.Rejected "Network Error";
     LMStudio.postCompletions := fun _ _ => LMStudio.Rejected "Network Error" |}.

(** The text a verbose model may send: the move with blanks in front, a
    full stop and a line feed behind. *)
Definition paddedNf3 : string := "  Nf3." ++ ChessGame.newline.

Definition localUrl : string := "http://localhost:11434/v1".

(** A short game on the table: the ending is loaded, White plays Kg2, the
    remote source answers Nf3, White takes the knight. *)
Definition loaded : ChessGame.State :=
  ChessGame.loadGame oracle posA (ChessGame.mounted oracle).
Definition afterKg2 : ChessGame.State :=
  fst (ChessGame.onDrop oracle "h1" "g2" loaded).
Definition afterNf3 : ChessGame.State :=
  ChessGame.getAIMove oracle (chatOnly paddedNf3) localUrl None (1 # 2) afterKg2.
Definition afterKxf3 : ChessGame.State :=
  fst (ChessGame.onDrop oracle "g2" "f3" afterNf3).

(** The promotion ending, loaded. *)
Definition loadedP : ChessGame.State :=
  ChessGame.loadGame oracle posP (ChessGame.mounted oracle).

End Example.

(** ** Vocabulary for statements about texts, tallies and saved games *)

Module Text.

(** Every character of [s] satisfies [p]. *)
Fixpoint allChars (p : ascii -> bool) (s : string) : bool :=
  match s with
  | EmptyString => true
  | String c t => andb (p c) (allChars p t)
  end.

Definition firstChar (s : string) : option ascii :=
  match s with
  | EmptyString => None
  | String c _ => Some c
  end.

Fixpoint lastChar (s : string) : option ascii :=
  match s with
  | EmptyString => None
  | String c EmptyString => Some c
  | String _ t => lastChar t
  end.

Definition isSpace (c : ascii) : bool := Ascii.eqb c " ".

(** A character that survives the cleaning of [getAIMove] wherever it
    stands: a Basic Latin character (below 128) that is neither in the
    stripped class nor white space. *)
Definition plainChar (c : ascii) : bool :=
  andb (Nat.ltb (nat_of_ascii c) 128)
       (andb (negb (ChessGame.isStripped c)) (negb (JS.isWhiteSpace c))).

End Text.

Module ProbeOutcome.

Import LMStudio.

(** The models listing resolves with a list whose first entry is [m]. *)
Definition modelsCheckFinds (srv : Server) (lmStudioUrl : string)
  (m : LMStudioModelInfo) : Prop :=
  exists d rest,
    getModels srv (lmStudioUrl ++ "/models") = Resolved (Some d) /\
    models d = Some (m :: rest).

(** The chat-style liveness request resolves with the body [d]. *)
Definition chatCheckReturns (srv : Server) (lmStudioUrl : string)
  (d : LMStudioResponse) : Prop :=
  postChat srv (lmStudioUrl ++ "/chat/completions") probeChatBody = Resolved (Some d).

(** The legacy liveness request rejects or resolves without a body. *)
Definition completionsCheckFails (srv : Server) (lmStudioUrl : string) : Prop :=
  match postCompletions srv (lmStudioUrl ++ "/completions") probeCompletionBody with
  | Resolved (Some _) => False
  | _ => True
  end.

End ProbeOutcome.

Module Tally.

Import ChessJS ChessGame.

(** The order in which a tally is displayed. *)
Definition byOrder (a c : CapturedEntry) : Prop :=
  (pieceOrder (type a) <= pieceOrder (type c))%Z.

(** How many pieces of kind [t] a tally records. *)
Fixpoint countOf (t : PieceSymbol) (l : list CapturedEntry) : Z :=
  match l with
  | [] => 0
  | e :: l' => ((if PieceSymbol_eqb (type e) t then count e else 0) + countOf t l')%Z
  end.

Definition kinds (l : list CapturedEntry) : list PieceSymbol := map type l.

(** A tally as the panel expects it: in display order, one entry per
    kind, every entry counting at least one piece. *)
Definition wellFormed (l : list CapturedEntry) : Prop :=
  StronglySorted byOrder l /\ NoDup (kinds l) /\ Forall (fun e => (1 <= count e)%Z) l.

(** One event of play: everything a user or the timer can trigger, except
    resetting the game and loading a saved one.  An AI turn appears as a
    whole and in its two halves, before and after the [await]. *)
Inductive play (O : RulesOracle) (s : State) : State -> Prop :=
| play_onDrop sourceSquare targetSquare :
    play O s (fst (onDrop O sourceSquare targetSquare s))
| play_handlePromotion pieceType : play O s (handlePromotion O pieceType s)
| play_getAIMove srv lmStudioUrl modelId r :
    play O s (getAIMove O srv lmStudioUrl modelId r s)
| play_getAIMoveStart : play O s (fst (Async.getAIMoveStart O s))
| play_getAIMoveResume currentFen fetched r :
    play O s (Async.getAIMoveResume O currentFen fetched r s)
| play_undoMove : play O s (undoMove O s)
| play_redoMove : play O s (redoMove O s).

End Tally.

Module Log.

Import ChessJS.

(** No two neighbouring entries of the log are the same position. *)
Definition noRepeat (st : list Fen) : Prop :=
  forall i a c, nth_error st i = Some a -> nth_error st (S i) = Some c -> a <> c.

End Log.

(** ** Saved games

    The remaining two handlers of the component.  They touch only the
    list of saved games, the copy of it written to the browser's storage
    and the flag of the save/load dialog, kept here in a record of their
    own.  The stored copy is the array handed to [JSON.stringify]
    ([None] as long as nothing was written); the answers of [prompt] and
    [confirm] and the clock are arguments. *)

Module SavedGames.

Record SavedGame := {
  name : string;
  fen : ChessJS.Fen;
  timestamp : Z
}.

Record Saves := {
  savedGames : list SavedGame;
  stored : option (list SavedGame);
  showSaveLoadModal : bool
}.

(** The values given to [useState]; the storage starts unwritten. *)
Definition initialSaves : Saves :=
  {| savedGames := []; stored := None; showSaveLoadModal := false |}.

(** [arr.splice(index, 1)] on a copy: the array that remains. *)
Definition splice1 {A} (arr : list A) (index : Z) : list A :=
  let start := if (index <? 0)%Z then Z.max (JS.len arr + index) 0
               else Z.min index (JS.len arr) in
  (firstn (Z.to_nat start) arr ++ skipn (Z.to_nat start + 1) arr)%list.

(** [saveGame]: [gameName] is the answer of [prompt] ([None] when it is
    dismissed), [now] the value of [Date.now()]. *)
Definition saveGame (gameName : option string) (now : Z) (game : ChessJS.Chess)
  (v : Saves) : Saves :=
  match gameName with
  | None => v
  | Some nm =>
      if String.eqb nm "" then v
      else
        let newSavedGame :=
          {| name := nm; fen := ChessJS.fen game; timestamp := now |} in
        let updatedSavedGames := (savedGames v ++ [newSavedGame])%list in
        {| savedGames := updatedSavedGames;
           stored := Some updatedSavedGames;
           showSaveLoadModal := false |}
  end.

(** [deleteSavedGame]: [confirmed] is the answer of [confirm]. *)
Definition deleteSavedGame (confirmed : bool) (index : Z) (v : Saves) : Saves :=
  if confirmed then
    let updatedSavedGames := splice1 (savedGames v) index in
    {| savedGames := updatedSavedGames;
       stored := Some updatedSavedGames;
       showSaveLoadModal := showSaveLoadModal v |}
  else v.

End SavedGames.

(** * Theorems *)

(** ** Random indexing stays inside the array *)

Lemma floorMul_range (r : Q) (n : Z) :
  (0 <= r)%Q -> (r < 1)%Q -> (0 < n)%Z ->
  (0 <= JS.floorMul r n < n)%Z.
Proof.
  intros H0 H1 Hn. unfold JS.floorMul.
  assert (Hn' : (inject_Z 0 < inject_Z n)%Q) by (rewrite <- Zlt_Qlt; exact Hn).
  split.
  - rewrite <- (Qfloor_Z 0). apply Qfloor_resp_le.
    apply Qmult_le_0_compat; [exact H0 | apply Qlt_le_weak; exact Hn'].
  - apply Z.lt_nge. intro Hge.
    assert (Hle : (inject_Z n <= r * inject_Z n)%Q).
    { eapply Qle_trans; [| apply Qfloor_le].
      rewrite <- Zle_Qle. exact Hge. }
    assert (Hlt : (r * inject_Z n < 1 * inject_Z n)%Q).
    { apply Qmult_lt_compat_r; assumption. }
    rewrite Qmult_1_l in Hlt.
    exact (Qlt_irrefl _ (Qle_lt_trans _ _ _ Hle Hlt)).
Qed.

Lemma randomElement_in {A} (r : Q) (arr : list A) :
  (0 <= r)%Q -> (r < 1)%Q -> arr <> [] ->
  exists x, JS.randomElement r arr = Some x /\ In x arr.
Proof.
  intros H0 H1 Hne.
  assert (Hlen : (0 < JS.len arr)%Z).
  { unfold JS.len. destruct arr; [congruence | simpl; lia]. }
  destruct (floorMul_range r (JS.len arr) H0 H1 Hlen) as [Hlo Hhi].
  unfold JS.randomElement, JS.index.
  set (k := JS.floorMul r (JS.len arr)) in *.
  destruct (Z.ltb_spec k 0) as [Hneg | _]; [lia |].
  destruct (nth_error arr (Z.to_nat k)) as [x |] eqn:E.
  - exists x. split; [reflexivity | eapply nth_error_In; exact E].
  - apply nth_error_None in E. unfold JS.len in Hhi. lia.
Qed.

(** ** Fallback selection *)

Import ChessJS ChessGame.

Lemma len_pos_iff {A} (l : list A) : (0 <? JS.len l)%Z = true <-> l <> [].
Proof.
  unfold JS.len. destruct l as [| x l]; simpl; split; intro H;
    try discriminate; try reflexivity.
  exfalso; apply H; reflexivity.
Qed.

Lemma len_pos_false {A} (l : list A) : (0 <? JS.len l)%Z = false <-> l = [].
Proof.
  unfold JS.len. destruct l as [| x l]; simpl; split; intro H;
    try discriminate; reflexivity.
Qed.

(** The bucket from which [selectFallback] draws: the first non-empty one
    in the order check, capture, promotion, developing, any. *)
Lemma selectFallback_bucket (legalMoves : list string) (r : Q) :
  (0 <= r)%Q -> (r < 1)%Q -> legalMoves <> [] ->
  exists m,
    selectedMove (selectFallback legalMoves r) = Some m /\
    In m legalMoves /\
    (checkMoves legalMoves <> [] -> In m (checkMoves legalMoves)) /\
    (checkMoves legalMoves = [] -> captureMoves legalMoves <> [] ->
       In m (captureMoves legalMoves)) /\
    (checkMoves legalMoves = [] -> captureMoves legalMoves = [] ->
       promotionMoves legalMoves <> [] -> In m (promotionMoves legalMoves)) /\
    (checkMoves legalMoves = [] -> captureMoves legalMoves = [] ->
       promotionMoves legalMoves = [] -> developingMoves legalMoves <> [] ->
       In m (developingMoves legalMoves)).
Proof.
  intros H0 H1 Hne. unfold selectFallback.
  destruct (0 <? JS.len (checkMoves legalMoves))%Z eqn:Ek.
  { apply len_pos_iff in Ek.
    destruct (randomElement_in r _ H0 H1 Ek) as [m [Hm Hin]].
    exists m. simpl. repeat split; try congruence; auto.
    unfold checkMoves in Hin. apply filter_In in Hin. tauto. }
  apply len_pos_false in Ek.
  destruct (0 <? JS.len (captureMoves legalMoves))%Z eqn:Ec.
  { apply len_pos_iff in Ec.
    destruct (randomElement_in r _ H0 H1 Ec) as [m [Hm Hin]].
    exists m. simpl. repeat split; try congruence; auto.
    unfold captureMoves in Hin. apply filter_In in Hin. tauto. }
  apply len_pos_false in Ec.
  destruct (0 <? JS.len (promotionMoves legalMoves))%Z eqn:Ep.
  { apply len_pos_iff in Ep.
    destruct (randomElement_in r _ H0 H1 Ep) as [m [Hm Hin]].
    exists m. simpl. repeat split; try congruence; auto.
    unfold promotionMoves in Hin. apply filter_In in Hin. tauto. }
  apply len_pos_false in Ep.
  destruct (0 <? JS.len (developingMoves legalMoves))%Z eqn:Ed.
  { apply len_pos_iff in Ed.
    destruct (randomElement_in r _ H0 H1 Ed) as [m [Hm Hin]].
    exists m. simpl. repeat split; try congruence; auto.
    unfold developingMoves in Hin. apply filter_In in Hin. tauto. }
  apply len_pos_false in Ed.
  destruct (randomElement_in r _ H0 H1 Hne) as [m [Hm Hin]].
  exists m. simpl. repeat split; try congruence; auto.
Qed.

(** The label and rationale follow the bucket. *)
Lemma selectFallback_check_label (legalMoves : list string) (r : Q) :
  checkMoves legalMoves <> [] ->
  fbQuality (selectFallback legalMoves r) = excellent /\
  fbThinking (selectFallback legalMoves r) = "Fallback: Puts king in check.".
Proof.
  intro Hne. unfold selectFallback.
  apply len_pos_iff in Hne. rewrite Hne. split; reflexivity.
Qed.

(** C1.  In the position after 1. f3 e5 2. g4 Black can mate with Qh4#,
    a move that [assessMoveQuality] counts as putting the king in check.
    The fallback selector nevertheless never plays it: whatever the random
    draw, it answers with a developing knight or bishop move that gives
    no check, under the rationale "Develops a piece". *)
Theorem fallback_skips_mating_check (r : Q) :
  (0 <= r)%Q -> (r < 1)%Q ->
  In "Qh4#" Example.foolsMateMoves /\
  putsKingInCheck "Qh4#" = true /\
  exists m,
    selectedMove (selectFallback Example.foolsMateMoves r) = Some m /\
    In m (developingMoves Example.foolsMateMoves) /\
    putsKingInCheck m = false /\
    fbThinking (selectFallback Example.foolsMateMoves r) = "Fallback: Develops a piece.".
Proof.
  intros H0 H1.
  split; [vm_compute; tauto |].
  split; [reflexivity |].
  assert (Hne : Example.foolsMateMoves <> []) by discriminate.
  destruct (selectFallback_bucket Example.foolsMateMoves r H0 H1 Hne)
    as [m [Hsel [_ [_ [_ [_ Hdev]]]]]].
  assert (Hin : In m (developingMoves Example.foolsMateMoves)).
  { apply Hdev; try reflexivity. discriminate. }
  exists m. split; [exact Hsel |]. split; [exact Hin |]. split.
  - vm_compute in Hin.
    repeat (destruct Hin as [<- | Hin]; [reflexivity |]). contradiction.
  - reflexivity.
Qed.

Lemma fallback_skips_mating_check_witness :
  (0 <= 1 # 2)%Q /\ (1 # 2 < 1)%Q /\
  (In "Qh4#" Example.foolsMateMoves /\
   putsKingInCheck "Qh4#" = true /\
   exists m,
     selectedMove (selectFallback Example.foolsMateMoves (1 # 2)) = Some m /\
     In m (developingMoves Example.foolsMateMoves) /\
     putsKingInCheck m = false /\
     fbThinking (selectFallback Example.foolsMateMoves (1 # 2))
       = "Fallback: Develops a piece.").
Proof.
  split; [discriminate |]. split; [reflexivity |].
  apply (fallback_skips_mating_check (1 # 2)); [discriminate | reflexivity].
Defined.

(** The draw one half picks the sixth developing move. *)
Example fallback_draw_half :
  selectedMove (selectFallback Example.foolsMateMoves (1 # 2)) = Some "Bb4".
Proof. reflexivity. Qed.

(** ** The service *)

Import LMStudio Outcome.

Lemma chatAttempt_yields srv url modelToUse prompt c :
  chatYields srv url modelToUse prompt c ->
  chatAttempt srv url modelToUse prompt = Some (JS.trim c).
Proof.
  intros [data [Hpost Hc]]. unfold chatAttempt. rewrite Hpost, Hc. reflexivity.
Qed.

Lemma chatAttempt_none_iff srv url modelToUse prompt :
  chatAttempt srv url modelToUse prompt = None <-> chatFails srv url modelToUse prompt.
Proof.
  unfold chatAttempt, chatFails.
  destruct (postChat srv _ _) as [data | e].
  - destruct (chatContent (firstChoice data)) as [c |] eqn:Ec; split.
    + discriminate.
    + intros [[e He] | [data' [Hd Hn]]]; [discriminate |].
      injection Hd as <-. congruence.
    + intros _. right. exists data. auto.
    + reflexivity.
  - split; [intros _; left; exists e; reflexivity | reflexivity].
Qed.

Lemma chatAttempt_some_iff srv url modelToUse prompt raw :
  chatAttempt srv url modelToUse prompt = Some raw <->
  exists c, chatYields srv url modelToUse prompt c /\ raw = JS.trim c.
Proof.
  unfold chatAttempt, chatYields.
  destruct (postChat srv _ _) as [data | e].
  - destruct (chatContent (firstChoice data)) as [c |] eqn:Ec; split.
    + intros [= <-]. exists c. split; [exists data; auto | reflexivity].
    + intros [c' [[data' [Hd Hc]] ->]]. injection Hd as <-. congruence.
    + discriminate.
    + intros [c' [[data' [Hd Hc]] _]]. injection Hd as <-. congruence.
  - split; [discriminate | intros [c [[data [Hd _]] _]]; discriminate].
Qed.

Lemma completionAttempt_inl_iff srv url modelToUse prompt raw :
  completionAttempt srv url modelToUse prompt = inl raw <->
  exists t, legacyYields srv url modelToUse prompt t /\ raw = JS.trim t.
Proof.
  unfold completionAttempt, legacyYields.
  destruct (postCompletions srv _ _) as [data | e].
  - destruct (completionText (firstChoice data)) as [t |] eqn:Et; split.
    + intros [= <-]. exists t. split; [exists data; auto | reflexivity].
    + intros [t' [[data' [Hd Ht]] ->]]. injection Hd as <-. congruence.
    + discriminate.
    + intros [t' [[data' [Hd Ht]] _]]. injection Hd as <-. congruence.
  - split; [discriminate | intros [t [[data [Hd _]] _]]; discriminate].
Qed.

Lemma completionAttempt_inr_iff srv url modelToUse prompt e :
  completionAttempt srv url modelToUse prompt = inr e <->
  legacyFailsWith srv url modelToUse prompt e.
Proof.
  unfold completionAttempt, legacyFailsWith.
  destruct (postCompletions srv _ _) as [data | e'].
  - destruct (completionText (firstChoice data)) as [t |] eqn:Et; split.
    + discriminate.
    + intros [Hr | [data' [Hd [Hn _]]]]; [discriminate |].
      injection Hd as <-. congruence.
    + intros [= <-]. right. exists data. auto.
    + intros [Hr | [data' [_ [_ ->]]]]; [discriminate | reflexivity].
  - split.
    + intros [= <-]. left. reflexivity.
    + intros [[= <-] | [data [Hd _]]]; [reflexivity | discriminate].
Qed.

(** Usable content is a non-empty string found at
    [choices[0].message.content]. *)
Lemma chatContent_some_iff (data : option LMStudioResponse) (c : string) :
  chatContent (firstChoice data) = Some c <->
  exists d ch rest m,
    data = Some d /\ choices d = Some (ch :: rest) /\
    message ch = Some m /\ content m = c /\ c <> "".
Proof.
  unfold chatContent, firstChoice. split.
  - destruct data as [d |]; [| discriminate].
    destruct (choices d) as [[| ch rest] |] eqn:Ech; try discriminate.
    cbn. destruct (message ch) as [m |] eqn:Em; [| discriminate].
    destruct (String.eqb (content m) "") eqn:E; [discriminate |].
    intros [= <-]. exists d, ch, rest, m.
    repeat split; auto. apply String.eqb_neq. exact E.
  - intros [d [ch [rest [m [-> [Hch [Hm [Hc Hne]]]]]]]].
    rewrite Hch. cbn. rewrite Hm, Hc.
    apply String.eqb_neq in Hne. rewrite Hne. reflexivity.
Qed.

(** Usable text is a non-empty string found at [choices[0].text]. *)
Lemma completionText_some_iff (data : option LMStudioResponse) (t : string) :
  completionText (firstChoice data) = Some t <->
  exists d ch rest,
    data = Some d /\ choices d = Some (ch :: rest) /\
    text ch = Some t /\ t <> "".
Proof.
  unfold completionText, firstChoice. split.
  - destruct data as [d |]; [| discriminate].
    destruct (choices d) as [[| ch rest] |] eqn:Ech; try discriminate.
    cbn. destruct (text ch) as [t0 |] eqn:Et; [| discriminate].
    destruct (String.eqb t0 "") eqn:E; [discriminate |].
    intros [= <-]. exists d, ch, rest.
    repeat split; auto. apply String.eqb_neq. exact E.
  - intros [d [ch [rest [-> [Hch [Ht Hne]]]]]].
    rewrite Hch. cbn. rewrite Ht.
    apply String.eqb_neq in Hne. rewrite Hne. reflexivity.
Qed.

Lemma chatContent_none_iff (data : option LMStudioResponse) :
  chatContent (firstChoice data) = None <->
  forall c, ~ Answer.hasChatContent data c.
Proof.
  split.
  - intros Hn c Hc. apply chatContent_some_iff in Hc. congruence.
  - intro Hall. destruct (chatContent (firstChoice data)) as [c |] eqn:E; [| reflexivity].
    exfalso. apply (Hall c). apply chatContent_some_iff. exact E.
Qed.

Lemma completionText_none_iff (data : option LMStudioResponse) :
  completionText (firstChoice data) = None <->
  forall t, ~ Answer.hasCompletionText data t.
Proof.
  split.
  - intros Hn t Ht. apply completionText_some_iff in Ht. congruence.
  - intro Hall. destruct (completionText (firstChoice data)) as [t |] eqn:E; [| reflexivity].
    exfalso. apply (Hall t). apply completionText_some_iff. exact E.
Qed.

Lemma chatFails_iff_unusable srv url modelToUse prompt :
  chatFails srv url modelToUse prompt <->
  Answer.chatUnusable
    (postChat srv (url ++ "/chat/completions") (moveChatBody modelToUse prompt)).
Proof.
  unfold chatFails, Answer.chatUnusable. split.
  - intros [He | [data [Hd Hn]]]; [left; exact He |].
    right. exists data. split; [exact Hd | apply chatContent_none_iff; exact Hn].
  - intros [He | [data [Hd Hn]]]; [left; exact He |].
    right. exists data. split; [exact Hd | apply chatContent_none_iff; exact Hn].
Qed.

Lemma legacyFailsWith_iff_unusable srv url modelToUse prompt e :
  legacyFailsWith srv url modelToUse prompt e <->
  Answer.legacyUnusable
    (postCompletions srv (url ++ "/completions") (moveCompletionBody modelToUse prompt)) e.
Proof.
  unfold legacyFailsWith, Answer.legacyUnusable. split.
  - intros [He | [data [Hd [Hn Hm]]]]; [left; exact He |].
    right. exists data. split; [exact Hd |].
    split; [apply completionText_none_iff; exact Hn | exact Hm].
  - intros [He | [data [Hd [Hn Hm]]]]; [left; exact He |].
    right. exists data. split; [exact Hd |].
    split; [apply completionText_none_iff; exact Hn | exact Hm].
Qed.

(** C8.  [fetchRawAIMove] raises exactly when both request shapes are
    exhausted.  The chat-style request always comes first.  When its
    response holds a non-empty string at [choices[0].message.content],
    that string, trimmed, is returned and nothing else is requested.  The
    legacy request is made exactly when the first request rejects or its
    response holds no such content; when the legacy response holds a
    non-empty string at [choices[0].text], that string, trimmed, is
    returned.  An error is thrown exactly when the first request gives
    nothing and the second rejects or holds no text, and it carries the
    message of that last underlying error. *)
Theorem fetchRawAIMove_raises_iff_both_exhausted
  (srv : Server) (lmStudioUrl prompt : string) (modelId : option string) :
  let modelToUse := orElse modelId "default" in
  let chat :=
    postChat srv (lmStudioUrl ++ "/chat/completions") (moveChatBody modelToUse prompt) in
  let legacy :=
    postCompletions srv (lmStudioUrl ++ "/completions")
      (moveCompletionBody modelToUse prompt) in
  let out := fetchRawAIMove srv lmStudioUrl prompt modelId in
  hd_error (fst out) = Some ChatCompletions /\
  (forall data c, chat = Resolved data -> Answer.hasChatContent data c ->
     out = ([ChatCompletions], inl (JS.trim c))) /\
  (In Completions (fst out) <-> Answer.chatUnusable chat) /\
  (forall data t, Answer.chatUnusable chat ->
     legacy = Resolved data -> Answer.hasCompletionText data t ->
     out = ([ChatCompletions; Completions], inl (JS.trim t))) /\
  ((exists msg, snd out = inr msg) <->
     (Answer.chatUnusable chat /\ exists e, Answer.legacyUnusable legacy e)) /\
  (forall e, Answer.chatUnusable chat -> Answer.legacyUnusable legacy e ->
     out = ([ChatCompletions; Completions],
            inr ("Failed to get AI move from LM Studio after trying both endpoints. Last error: "
                 ++ e)%string)).
Proof.
  intros modelToUse chat legacy out.
  assert (Hyes : forall data c, chat = Resolved data -> Answer.hasChatContent data c ->
                 chatAttempt srv lmStudioUrl modelToUse prompt = Some (JS.trim c)).
  { intros data c Hd Hc. apply chatAttempt_yields. exists data.
    split; [exact Hd | apply chatContent_some_iff; exact Hc]. }
  assert (Hnone : chatAttempt srv lmStudioUrl modelToUse prompt = None <->
                  Answer.chatUnusable chat).
  { rewrite chatAttempt_none_iff. apply chatFails_iff_unusable. }
  assert (Hinl : forall data t, legacy = Resolved data -> Answer.hasCompletionText data t ->
                 completionAttempt srv lmStudioUrl modelToUse prompt = inl (JS.trim t)).
  { intros data t Hd Ht. apply completionAttempt_inl_iff. exists t.
    split; [| reflexivity]. exists data.
    split; [exact Hd | apply completionText_some_iff; exact Ht]. }
  assert (Hinr : forall e, completionAttempt srv lmStudioUrl modelToUse prompt = inr e <->
                 Answer.legacyUnusable legacy e).
  { intro e. rewrite completionAttempt_inr_iff. apply legacyFailsWith_iff_unusable. }
  subst out. unfold fetchRawAIMove. fold modelToUse.
  destruct (chatAttempt srv lmStudioUrl modelToUse prompt) as [raw |] eqn:Echat.
  - (* the chat attempt gave a text *)
    assert (Hnf : ~ Answer.chatUnusable chat).
    { intro Hf. apply Hnone in Hf. discriminate. }
    cbn. refine (conj _ (conj _ (conj _ (conj _ (conj _ _))))).
    + reflexivity.
    + intros data c Hd Hc. specialize (Hyes data c Hd Hc). congruence.
    + split; [intros [H | []]; discriminate | intro Hf; contradiction].
    + intros data t Hf. contradiction.
    + split; [intros [msg Hmsg]; discriminate | intros [Hf _]; contradiction].
    + intros e Hf. contradiction.
  - assert (Hf : Answer.chatUnusable chat) by (apply Hnone; reflexivity).
    destruct (completionAttempt srv lmStudioUrl modelToUse prompt) as [raw | e0] eqn:Ecompl.
    + cbn. refine (conj _ (conj _ (conj _ (conj _ (conj _ _))))).
      * reflexivity.
      * intros data c Hd Hc. specialize (Hyes data c Hd Hc). discriminate.
      * split; [intros _; exact Hf | intros _; right; left; reflexivity].
      * intros data t _ Hd Ht. specialize (Hinl data t Hd Ht).
        injection Hinl as ->. reflexivity.
      * split; [intros [msg Hmsg]; discriminate |].
        intros [_ [e He]]. apply Hinr in He. discriminate.
      * intros e _ He. apply Hinr in He. discriminate.
    + cbn. refine (conj _ (conj _ (conj _ (conj _ (conj _ _))))).
      * reflexivity.
      * intros data c Hd Hc. specialize (Hyes data c Hd Hc). discriminate.
      * split; [intros _; exact Hf | intros _; right; left; reflexivity].
      * intros data t _ Hd Ht. specialize (Hinl data t Hd Ht). discriminate.
      * split; [| intros _; eexists; reflexivity].
        intros _. split; [exact Hf |]. exists e0. apply Hinr. reflexivity.
      * intros e _ He. apply Hinr in He. injection He as <-. reflexivity.
Qed.

(** Three servers answer a request: content with blanks around it is
    returned trimmed from the first endpoint; an empty list of choices
    sends the function on to the legacy endpoint, whose text is returned
    trimmed; an empty content followed by a missing body raises, with the
    message of the second failure. *)
Lemma fetchRawAIMove_raises_iff_both_exhausted_witness :
  fetchRawAIMove (Example.chatOnly Example.paddedNf3) Example.localUrl "prompt" None
  = ([ChatCompletions], inl "Nf3.") /\
  fetchRawAIMove (Example.chatEmptyLegacy " e5 ") Example.localUrl "prompt" (Some "")
  = ([ChatCompletions; Completions], inl "e5") /\
  fetchRawAIMove Example.mute Example.localUrl "prompt" (Some "local-model")
  = ([ChatCompletions; Completions],
     inr "Failed to get AI move from LM Studio after trying both endpoints. Last error: Received empty or invalid response from /completions endpoint.").
Proof.
  split; [| split].
  - pose proof (fetchRawAIMove_raises_iff_both_exhausted
                  (Example.chatOnly Example.paddedNf3) Example.localUrl "prompt" None) as H.
    cbv zeta in H. destruct H as [_ [H _]].
    refine (H _ Example.paddedNf3 eq_refl _).
    eexists _, _, _, _. repeat split. discriminate.
  - pose proof (fetchRawAIMove_raises_iff_both_exhausted
                  (Example.chatEmptyLegacy " e5 ") Example.localUrl "prompt" (Some "")) as H.
    cbv zeta in H. destruct H as [_ [_ [_ [H _]]]].
    refine (H _ " e5 " _ eq_refl _).
    + right. eexists. split; [reflexivity |].
      intros c [d [ch [rest [m [Hd [Hch _]]]]]].
      injection Hd as <-. discriminate Hch.
    + eexists _, _, _. repeat split. discriminate.
  - pose proof (fetchRawAIMove_raises_iff_both_exhausted
                  Example.mute Example.localUrl "prompt" (Some "local-model")) as H.
    cbv zeta in H. destruct H as [_ [_ [_ [_ [_ H]]]]].
    apply H.
    + right. eexists. split; [reflexivity |].
      intros c [d [ch [rest [m [Hd [Hch [Hm [Hc Hne]]]]]]]].
      injection Hd as <-. injection Hch as <- _. injection Hm as <-.
      apply Hne. symmetry. exact Hc.
    + right. exists None. split; [reflexivity |]. split; [| reflexivity].
      intros t [d [ch [rest [Hd _]]]]. discriminate Hd.
Defined.

(** Two concrete runs: an offline server, and content with blanks around. *)
Example fetch_offline :
  fetchRawAIMove Example.offline "http://localhost:11434/v1" "prompt" None
  = ([ChatCompletions; Completions],
     inr "Failed to get AI move from LM Studio after trying both endpoints. Last error: Network Error").
Proof. reflexivity. Qed.

Example fetch_legacy :
  fetchRawAIMove (Example.legacyOnly " e5 ") "http://localhost:11434/v1" "prompt" None
  = ([ChatCompletions; Completions], inl "e5").
Proof. reflexivity. Qed.

(** C9.  Against a server on which the models listing and the chat-style
    check both fail (they reject, time out, or come back empty) while the
    legacy completion call returns a body, the probe requests the three
    endpoints in order and reports [connected: true], with the model name
    of that body (or "Unknown model"). *)
Theorem probe_connects_via_legacy_endpoint
  (srv : Server) (lmStudioUrl : string) (d : LMStudioResponse) :
  modelsCheckFails srv lmStudioUrl ->
  chatCheckFails srv lmStudioUrl ->
  completionsCheckReturns srv lmStudioUrl d ->
  checkLMStudioConnection srv lmStudioUrl
  = ([ModelsEndpoint; ChatCompletions; Completions],
     {| connected := true;
        modelId := Some (orElse (model d) "Unknown model");
        error := None |}).
Proof.
  unfold modelsCheckFails, chatCheckFails, completionsCheckReturns,
    checkLMStudioConnection.
  intros Hm Hc Hl. rewrite Hl.
  destruct (getModels srv _) as [[dm |] | em].
  - destruct (models dm) as [[| a l] |]; [| contradiction |];
      (destruct (postChat srv _ _) as [[dc |] | ec]; [contradiction | |]; reflexivity).
  - destruct (postChat srv _ _) as [[dc |] | ec]; [contradiction | |]; reflexivity.
  - destruct (postChat srv _ _) as [[dc |] | ec]; [contradiction | |]; reflexivity.
Qed.

Lemma probe_connects_via_legacy_endpoint_witness :
  connected (snd (checkLMStudioConnection (Example.legacyOnly "hello")
                    "http://localhost:11434/v1")) = true.
Proof.
  rewrite (probe_connects_via_legacy_endpoint (Example.legacyOnly "hello")
             "http://localhost:11434/v1"
             {| choices := Some [ {| text := Some "hello"; message := None |} ];
                model := Some "legacy-model" |}).
  - reflexivity.
  - exact I.
  - exact I.
  - reflexivity.
Defined.

(** Projections of setter chains, without touching the arithmetic. *)
Ltac state_simpl :=
  cbn [game ChessGame.fen isPlayerTurn gameStatus isLoading lastAIMove
       aiMoveSource aiThinking moveQuality capturedPieces moveHistory
       gameStates currentStateIndex promotionMove showPromotionModal
       setGame setFen setIsPlayerTurn setGameStatus setIsLoading setLastAIMove
       setAiMoveSource setAiThinking setMoveQuality setCapturedPieces
       setMoveHistory setGameStates setCurrentStateIndex setPromotionMove
       setShowPromotionModal ChessJS.fen history newChess newChessOpt].

(** ** Frame properties of the effects and of bookkeeping *)

Section Frames.

Variable O : RulesOracle.

Lemma historySyncEffect_frame (s : State) :
  game (historySyncEffect s) = game s /\
  isPlayerTurn (historySyncEffect s) = isPlayerTurn s /\
  capturedPieces (historySyncEffect s) = capturedPieces s /\
  moveHistory (historySyncEffect s) = moveHistory s /\
  lastAIMove (historySyncEffect s) = lastAIMove s /\
  aiMoveSource (historySyncEffect s) = aiMoveSource s /\
  promotionMove (historySyncEffect s) = promotionMove s /\
  showPromotionModal (historySyncEffect s) = showPromotionModal s.
Proof.
  unfold historySyncEffect.
  destruct (currentStateIndex s =? -1)%Z; [cbn; tauto |].
  destruct (JS.index (gameStates s) (currentStateIndex s)) as [f |]; [| cbn; tauto].
  destruct (String.eqb f (ChessJS.fen (game s))); cbn; tauto.
Qed.

Lemma gameEffects_frame (s : State) :
  game (gameEffects O s) = game s /\
  isPlayerTurn (gameEffects O s) = isPlayerTurn s /\
  capturedPieces (gameEffects O s) = capturedPieces s /\
  lastAIMove (gameEffects O s) = lastAIMove s /\
  aiMoveSource (gameEffects O s) = aiMoveSource s /\
  promotionMove (gameEffects O s) = promotionMove s /\
  showPromotionModal (gameEffects O s) = showPromotionModal s.
Proof.
  unfold gameEffects, statusEffect. cbn.
  pose proof (historySyncEffect_frame s). tauto.
Qed.

Lemma gameEffects_store (s : State) :
  gameStates (gameEffects O s) = gameStates (historySyncEffect s) /\
  currentStateIndex (gameEffects O s) = currentStateIndex (historySyncEffect s) /\
  moveHistory (gameEffects O s) = formatHistory (history (game s)).
Proof.
  unfold gameEffects, statusEffect. cbn.
  destruct (historySyncEffect_frame s) as [-> _]. tauto.
Qed.

Lemma recordCapture_frame (m : Move) (s : State) :
  game (recordCapture m s) = game s /\
  isPlayerTurn (recordCapture m s) = isPlayerTurn s /\
  gameStates (recordCapture m s) = gameStates s /\
  currentStateIndex (recordCapture m s) = currentStateIndex s /\
  moveHistory (recordCapture m s) = moveHistory s /\
  lastAIMove (recordCapture m s) = lastAIMove s /\
  aiMoveSource (recordCapture m s) = aiMoveSource s.
Proof.
  unfold recordCapture, addCapturedPiece.
  destruct (captured m); [| tauto].
  cbn. destruct (opposite (color m)); cbn; tauto.
Qed.

Lemma gameEffects_game (s : State) : game (gameEffects O s) = game s.
Proof. apply gameEffects_frame. Qed.

Lemma gameEffects_isPlayerTurn (s : State) :
  isPlayerTurn (gameEffects O s) = isPlayerTurn s.
Proof. apply gameEffects_frame. Qed.

Lemma gameEffects_capturedPieces (s : State) :
  capturedPieces (gameEffects O s) = capturedPieces s.
Proof. apply gameEffects_frame. Qed.

Lemma gameEffects_lastAIMove (s : State) :
  lastAIMove (gameEffects O s) = lastAIMove s.
Proof. apply gameEffects_frame. Qed.

Lemma gameEffects_aiMoveSource (s : State) :
  aiMoveSource (gameEffects O s) = aiMoveSource s.
Proof. apply gameEffects_frame. Qed.

Lemma gameEffects_promotionMove (s : State) :
  promotionMove (gameEffects O s) = promotionMove s.
Proof. apply gameEffects_frame. Qed.

Lemma recordCapture_aiMoveSource (m : Move) (s : State) :
  aiMoveSource (recordCapture m s) = aiMoveSource s.
Proof. apply recordCapture_frame. Qed.

End Frames.

(** ** Resolution of the remote text *)

Lemma find_none_of_all_false {A} (f : A -> bool) (l : list A) :
  (forall x, In x l -> f x = false) -> find f l = None.
Proof.
  induction l as [| a l IH]; intro H; [reflexivity |].
  simpl. rewrite (H a (or_introl eq_refl)).
  apply IH. intros x Hx. apply H. right. exact Hx.
Qed.

(** The cleaning of [getAIMove] on three texts. *)
Example clean_trimmed : cleanAIMoveText "Nf3." = "Nf3".
Proof. reflexivity. Qed.

Example clean_quoted : cleanAIMoveText ("'Nf3', because" ++ newline) = "Nf3".
Proof. reflexivity. Qed.

Example clean_padded : cleanAIMoveText Example.paddedNf3 = "".
Proof. reflexivity. Qed.

(** The cleaning of [getAIMove] taken on its own, on a text that still
    has its leading blanks: the token comes out empty and nothing is
    resolved.  [getAIMove] does not meet this case on the text of a
    response, which [fetchRawAIMove] returns trimmed. *)
Example padded_text_unresolved :
  moveSan Example.oracle Example.posB "Nf3" = Some (Example.Nf3, Example.posC) /\
  filter (fun m => String.eqb (to m) "f3") (movesVerbose Example.oracle Example.posB)
    = [Example.Nf3] /\
  cleanAIMoveText Example.paddedNf3 <> "Nf3" /\
  validateAIMove Example.oracle Example.posB (cleanAIMoveText Example.paddedNf3)
    = ("", None).
Proof.
  split; [reflexivity |]. split; [reflexivity |]. split; [discriminate | reflexivity].
Qed.

(** C2.  The raw text ["  Nf3.\n"] resolves by direct application.  When
    the response to the chat request holds that text at
    [choices[0].message.content], [fetchRawAIMove] hands over ["Nf3."]
    (the surrounding white space is trimmed there), the cleaning of
    [getAIMove] strips the full stop and leaves the token [Nf3], and in a
    position where the rules library accepts [Nf3] the token applies
    directly, without the search among the legal moves.  [getAIMove] then
    installs the resulting position, records [Nf3] as the last AI move
    with source "LM Studio" and gives the turn back to the player. *)
Theorem remote_padded_Nf3_applies_directly
  (O : RulesOracle) (srv : Server) (lmStudioUrl : string)
  (modelId : option string) (r : Q) (s : State)
  (data : option LMStudioResponse) (res : Move * Fen) :
  isPlayerTurn s = false ->
  isGameOver O (ChessJS.fen (game s)) = false ->
  postChat srv (lmStudioUrl ++ "/chat/completions")
    (moveChatBody (orElse modelId "default")
       (aiPrompt (ChessJS.fen (game s)) (moves O (ChessJS.fen (game s)))))
  = Resolved data ->
  Answer.hasChatContent data Example.paddedNf3 ->
  moveSan O (ChessJS.fen (game s)) "Nf3" = Some res ->
  let fetched :=
    snd (fetchRawAIMove srv lmStudioUrl
           (aiPrompt (ChessJS.fen (game s)) (moves O (ChessJS.fen (game s)))) modelId) in
  let s' := getAIMove O srv lmStudioUrl modelId r s in
  fetched = inl "Nf3." /\
  cleanAIMoveText "Nf3." = "Nf3" /\
  validateAIMove O (ChessJS.fen (game s)) (cleanAIMoveText "Nf3.") = ("Nf3", Some res) /\
  game s' = newChess (snd res) /\
  lastAIMove s' = "Nf3" /\
  aiMoveSource s' = "LM Studio" /\
  isPlayerTurn s' = true.
Proof.
  intros Hturn Hover Hpost Hcontent Hmove fetched s'.
  assert (Hchat : chatYields srv lmStudioUrl (orElse modelId "default")
                    (aiPrompt (ChessJS.fen (game s)) (moves O (ChessJS.fen (game s))))
                    Example.paddedNf3).
  { exists data. split; [exact Hpost | apply chatContent_some_iff; exact Hcontent]. }
  assert (Hfetch : fetched = inl "Nf3.").
  { subst fetched. unfold fetchRawAIMove.
    rewrite (chatAttempt_yields _ _ _ _ _ Hchat). reflexivity. }
  assert (Hval : validateAIMove O (ChessJS.fen (game s)) (cleanAIMoveText "Nf3.")
                 = ("Nf3", Some res)).
  { change (cleanAIMoveText "Nf3.") with "Nf3".
    unfold validateAIMove. rewrite Hmove. reflexivity. }
  split; [exact Hfetch |]. split; [reflexivity |]. split; [exact Hval |].
  subst s'. unfold getAIMove. rewrite Hover, Hturn. cbn [orb].
  fold fetched. rewrite Hfetch. unfold afterFetch.
  cbn [game setMoveQuality setAiThinking setAiMoveSource setIsLoading].
  rewrite Hval. destruct res as [moveResult newFen].
  rewrite gameEffects_game, gameEffects_lastAIMove, gameEffects_aiMoveSource,
    gameEffects_isPlayerTurn.
  cbn. rewrite recordCapture_aiMoveSource. cbn. repeat split; reflexivity.
Qed.

Lemma remote_padded_Nf3_applies_directly_witness :
  ChessJS.fen (game Example.afterNf3) = Example.posC /\
  lastAIMove Example.afterNf3 = "Nf3".
Proof.
  destruct (remote_padded_Nf3_applies_directly Example.oracle
              (Example.chatOnly Example.paddedNf3) Example.localUrl None (1 # 2)
              Example.afterKg2
              (Some {| choices :=
                         Some [ {| text := None;
                                   message := Some {| content := Example.paddedNf3 |} |} ];
                       model := Some "local-model" |})
              (Example.Nf3, Example.posC))
    as [_ [_ [_ [Hg [Hl _]]]]].
  - reflexivity.
  - reflexivity.
  - reflexivity.
  - eexists _, _, _, _. repeat split. discriminate.
  - reflexivity.
  - unfold Example.afterNf3. rewrite Hg, Hl. split; reflexivity.
Defined.

(** C3.  The text [f3] in a position where a knight move descriptor
    (notation [Nf3], piece knight, destination f3) is legal, where [f3]
    does not apply directly and where no legal notation reads [f3]: the
    search finds nothing, because the third test compares the piece letter
    followed by the destination ([nf3]) with the token ([f3]).  The
    validation yields no move and [getAIMove] goes on to the fallback. *)
Theorem bare_destination_not_recovered
  (O : RulesOracle) (f : Fen) (knightMove : Move) :
  In knightMove (movesVerbose O f) ->
  san knightMove = "Nf3" -> piece knightMove = Knight -> to knightMove = "f3" ->
  moveSan O f "f3" = None ->
  (forall m, In m (movesVerbose O f) -> JS.toLowerCase (san m) <> "f3") ->
  cleanAIMoveText "f3" = "f3" /\
  matchesVariation "f3" knightMove = false /\
  validateAIMove O f (cleanAIMoveText "f3") = ("f3", None) /\
  forall r s, ChessJS.fen (game s) = f ->
    afterFetch O (inl "f3") r s = setIsLoading false (makeFallbackMove O r s).
Proof.
  intros Hin Hsan Hpiece Hto Hdirect Hnosan.
  assert (Hnomatch : forall m, In m (movesVerbose O f) -> matchesVariation "f3" m = false).
  { intros m Hm. unfold matchesVariation.
    assert (Hlow : String.eqb (JS.toLowerCase (san m)) (JS.toLowerCase "f3") = false).
    { apply String.eqb_neq. exact (Hnosan m Hm). }
    assert (Hexact : String.eqb (san m) "f3" = false).
    { apply String.eqb_neq. intro E. apply (Hnosan m Hm). rewrite E. reflexivity. }
    rewrite Hexact, Hlow. destruct (piece m); reflexivity. }
  assert (Hval : validateAIMove O f (cleanAIMoveText "f3") = ("f3", None)).
  { change (cleanAIMoveText "f3") with "f3". unfold validateAIMove.
    rewrite Hdirect, (find_none_of_all_false _ _ Hnomatch). reflexivity. }
  split; [reflexivity |]. split; [exact (Hnomatch _ Hin) |]. split; [exact Hval |].
  intros r s Hs. unfold afterFetch. rewrite Hs, Hval. reflexivity.
Qed.

Lemma bare_destination_not_recovered_witness :
  validateAIMove Example.oracle Example.posB (cleanAIMoveText "f3") = ("f3", None).
Proof.
  apply (bare_destination_not_recovered Example.oracle Example.posB Example.Nf3).
  - vm_compute. tauto.
  - reflexivity.
  - reflexivity.
  - reflexivity.
  - reflexivity.
  - intros m Hm. vm_compute in Hm.
    repeat (destruct Hm as [<- | Hm]; [discriminate |]). contradiction.
Defined.

(** ** The history store *)

Section History.

Variable O : RulesOracle.

Lemma index_of_nat {A} (l : list A) (n : nat) :
  JS.index l (Z.of_nat n) = nth_error l n.
Proof.
  unfold JS.index. destruct (Z.ltb_spec (Z.of_nat n) 0); [lia |].
  rewrite Nat2Z.id. reflexivity.
Qed.

Lemma slice0_of_nat {A} (l : list A) (n : nat) :
  JS.slice0 l (Z.of_nat n) = firstn n l.
Proof.
  unfold JS.slice0. destruct (Z.ltb_spec (Z.of_nat n) 0); [lia |].
  rewrite Nat2Z.id. reflexivity.
Qed.

Lemma Store_cursorEntry s st n f : Store s st n f -> cursorEntry s = Some f.
Proof.
  intros [Hst [Hidx [_ Hnth]]]. unfold cursorEntry.
  rewrite Hst, Hidx, index_of_nat. exact Hnth.
Qed.

Lemma Store_bound s st n f : Store s st n f -> (n < length st)%nat.
Proof.
  intros [_ [_ [_ Hnth]]]. apply nth_error_Some. congruence.
Qed.

(** When the entry under the cursor is the live position the effects
    leave the log alone. *)
Lemma sync_noop (s : State) :
  cursorEntry s = Some (ChessJS.fen (game s)) ->
  gameStates (gameEffects O s) = gameStates s /\
  currentStateIndex (gameEffects O s) = currentStateIndex s.
Proof.
  intro H. destruct (gameEffects_store O s) as [-> [-> _]].
  unfold historySyncEffect. unfold cursorEntry in H.
  destruct (Z.eqb_spec (currentStateIndex s) (-1)) as [E | _].
  - rewrite E in H. discriminate.
  - rewrite H, String.eqb_refl. split; reflexivity.
Qed.

(** Otherwise the entries after the cursor are dropped and the live
    position is appended. *)
Lemma sync_append (s : State) :
  currentStateIndex s <> (-1)%Z ->
  cursorEntry s <> Some (ChessJS.fen (game s)) ->
  gameStates (gameEffects O s)
    = (JS.slice0 (gameStates s) (currentStateIndex s + 1) ++ [ChessJS.fen (game s)])%list /\
  currentStateIndex (gameEffects O s)
    = (JS.len (JS.slice0 (gameStates s) (currentStateIndex s + 1)
               ++ [ChessJS.fen (game s)])%list - 1)%Z.
Proof.
  intros Hidx H. destruct (gameEffects_store O s) as [-> [-> _]].
  unfold historySyncEffect. unfold cursorEntry in H.
  destruct (Z.eqb_spec (currentStateIndex s) (-1)) as [E | _]; [contradiction |].
  destruct (JS.index (gameStates s) (currentStateIndex s)) as [f |].
  - destruct (String.eqb_spec f (ChessJS.fen (game s))) as [-> | _];
      [contradiction | split; reflexivity].
  - split; reflexivity.
Qed.

Lemma sync_init (s : State) :
  currentStateIndex s = (-1)%Z ->
  gameStates (gameEffects O s) = [ChessJS.fen (game s)] /\
  currentStateIndex (gameEffects O s) = 0%Z.
Proof.
  intro E. destruct (gameEffects_store O s) as [-> [-> _]].
  unfold historySyncEffect. rewrite E. split; reflexivity.
Qed.

(** After the effects the cursor is inside the log, on the live
    position -- whatever the state before. *)
Lemma gameEffects_Store (s : State) :
  exists n, Store (gameEffects O s) (gameStates (gameEffects O s)) n (ChessJS.fen (game s)).
Proof.
  unfold Store. rewrite gameEffects_game.
  destruct (Z.eq_dec (currentStateIndex s) (-1)) as [E | NE].
  - destruct (sync_init s E) as [-> ->]. exists 0%nat. repeat split; reflexivity.
  - destruct (cursorEntry s) as [f |] eqn:Ecur.
    + destruct (String.eqb_spec f (ChessJS.fen (game s))) as [-> | Hne].
      * destruct (sync_noop s Ecur) as [-> ->].
        unfold cursorEntry, JS.index in Ecur.
        destruct (Z.ltb_spec (currentStateIndex s) 0); [discriminate |].
        exists (Z.to_nat (currentStateIndex s)).
        repeat split; [lia | exact Ecur].
      * assert (Hc : cursorEntry s <> Some (ChessJS.fen (game s))) by congruence.
        destruct (sync_append s NE Hc) as [-> ->].
        exists (length (JS.slice0 (gameStates s) (currentStateIndex s + 1))).
        repeat split.
        -- unfold JS.len. rewrite length_app. simpl. lia.
        -- rewrite nth_error_app2, Nat.sub_diag by lia. reflexivity.
    + assert (Hc : cursorEntry s <> Some (ChessJS.fen (game s))) by congruence.
      destruct (sync_append s NE Hc) as [-> ->].
      exists (length (JS.slice0 (gameStates s) (currentStateIndex s + 1))).
      repeat split.
      * unfold JS.len. rewrite length_app. simpl. lia.
      * rewrite nth_error_app2, Nat.sub_diag by lia. reflexivity.
Qed.

(** *** Commit *)

Lemma commit_Store (p : Fen) (s : State) :
  exists n, Store (commit O p s) (gameStates (commit O p s)) n p.
Proof.
  unfold commit.
  destruct (gameEffects_Store (setGame (newChess p) s)) as [n Hn].
  exists n. exact Hn.
Qed.

(** A duplicate commit is a no-op on the log. *)
Lemma commit_same (s : State) (st : list Fen) (n : nat) (p : Fen) :
  Store s st n p -> Store (commit O p s) st n p.
Proof.
  intros [Hst [Hidx [Hf Hnth]]]. unfold commit, Store.
  rewrite gameEffects_game.
  assert (Hcur : cursorEntry (setGame (newChess p) s)
                 = Some (ChessJS.fen (game (setGame (newChess p) s)))).
  { unfold cursorEntry. cbn. rewrite Hst, Hidx, index_of_nat. exact Hnth. }
  destruct (sync_noop _ Hcur) as [-> ->]. cbn. auto.
Qed.

(** The branch-discard rule: committing a position other than the entry
    under the cursor keeps the log up to the cursor, drops the rest and
    appends the position, on which the cursor then stands. *)
Lemma commit_fresh (s : State) (st : list Fen) (n : nat) (f p : Fen) :
  Store s st n f -> p <> f ->
  Store (commit O p s) (firstn (S n) st ++ [p])%list (S n) p.
Proof.
  intros Hs Hne. pose proof (Store_bound _ _ _ _ Hs) as Hb.
  destruct Hs as [Hst [Hidx [Hf Hnth]]]. unfold commit, Store.
  rewrite gameEffects_game.
  set (t := setGame (newChess p) s).
  assert (Hidx' : currentStateIndex t <> (-1)%Z) by (subst t; cbn; lia).
  assert (Hcur : cursorEntry t <> Some (ChessJS.fen (game t))).
  { subst t. unfold cursorEntry. cbn. rewrite Hst, Hidx, index_of_nat, Hnth. congruence. }
  destruct (sync_append t Hidx' Hcur) as [-> ->].
  assert (Ht : gameStates t = st /\ currentStateIndex t = Z.of_nat n /\
               ChessJS.fen (game t) = p) by (subst t; cbn; auto).
  destruct Ht as [-> [-> ->]].
  replace (Z.of_nat n + 1)%Z with (Z.of_nat (S n)) by lia.
  rewrite slice0_of_nat.
  assert (Hlen : length (firstn (S n) st) = S n) by (rewrite length_firstn; lia).
  split; [reflexivity |]. split; [| split; [reflexivity |]].
  - unfold JS.len. rewrite length_app, Hlen. cbn [length]. lia.
  - rewrite nth_error_app2, Hlen, Nat.sub_diag by lia. reflexivity.
Qed.

(** *** Undo and redo *)

Lemma undo_Store (s : State) (st : list Fen) (n : nat) (f q : Fen) :
  Store s st (S n) f -> nth_error st n = Some q ->
  Store (undoMove O s) st n q.
Proof.
  intros [Hst [Hidx [Hf Hnth]]] Hq. unfold undoMove, Store. cbv zeta.
  rewrite Hidx. destruct (Z.ltb_spec 0 (Z.of_nat (S n))) as [_ | ?]; [| lia].
  replace (Z.of_nat (S n) - 1)%Z with (Z.of_nat n) by lia.
  rewrite Hst, index_of_nat, Hq. cbn [newChessOpt].
  rewrite gameEffects_game.
  match goal with
  | |- context [gameEffects O ?t] =>
      assert (Hcur : cursorEntry t = Some (ChessJS.fen (game t)))
  end.
  { unfold cursorEntry. state_simpl. rewrite Hst, index_of_nat. exact Hq. }
  destruct (sync_noop _ Hcur) as [-> ->]. state_simpl. auto.
Qed.

Lemma undo_at_zero (s : State) (st : list Fen) (f : Fen) :
  Store s st 0 f -> undoMove O s = s.
Proof.
  intros [_ [Hidx _]]. unfold undoMove. rewrite Hidx. reflexivity.
Qed.

Lemma redo_Store (s : State) (st : list Fen) (n : nat) (f q : Fen) :
  Store s st n f -> nth_error st (S n) = Some q ->
  Store (redoMove O s) st (S n) q.
Proof.
  intros [Hst [Hidx [Hf Hnth]]] Hq. unfold redoMove, Store. cbv zeta.
  assert (Hb : (S n < length st)%nat) by (apply nth_error_Some; congruence).
  rewrite Hidx, Hst. unfold JS.len.
  destruct (Z.ltb_spec (Z.of_nat n) (Z.of_nat (length st) - 1)) as [_ | ?]; [| lia].
  replace (Z.of_nat n + 1)%Z with (Z.of_nat (S n)) by lia.
  rewrite index_of_nat, Hq. cbn [newChessOpt].
  rewrite gameEffects_game.
  match goal with
  | |- context [gameEffects O ?t] =>
      assert (Hcur : cursorEntry t = Some (ChessJS.fen (game t)))
  end.
  { unfold cursorEntry. state_simpl. rewrite Hst, index_of_nat. exact Hq. }
  destruct (sync_noop _ Hcur) as [-> ->]. state_simpl. auto.
Qed.

(** At the last index there is nothing to redo. *)
Lemma redo_at_tip (s : State) (st : list Fen) (n : nat) (f : Fen) :
  Store s st n f -> S n = length st ->
  canRedo s = false /\ redoMove O s = s.
Proof.
  intros [Hst [Hidx _]] Htip. unfold canRedo, redoMove, JS.len.
  rewrite Hidx, Hst.
  destruct (Z.ltb_spec (Z.of_nat n) (Z.of_nat (length st) - 1)) as [? | _]; [lia |].
  split; reflexivity.
Qed.

End History.

(** ** Branch discard and round trip *)

(** C4, as stated, at a concrete store.  From the mounted component
    (log: the start position) the same position [a] is committed three
    times, the last two being duplicates; two undos bring the cursor back
    to the start position; committing [d], the start position itself and
    so distinct from [a], is again a duplicate and discards nothing: redo
    is still available and leads to [a]. *)
Lemma duplicate_commits_keep_redo :
  let O := Example.oracle in
  let a := Example.posA in
  let d := DEFAULT_POSITION in
  let s := commit O d (undoMove O (undoMove O
             (commit O a (commit O a (commit O a (mounted O)))))) in
  d <> a /\
  canRedo s = true /\
  cursorEntry (redoMove O s) = Some a.
Proof.
  cbv zeta. split; [discriminate |]. split; vm_compute; reflexivity.
Qed.

(** C4, amended.  When each of [b] and [c] differs from the position
    committed just before it and [d] differs from [a], then after
    commit a; commit b; commit c; undo; undo; commit d -- from any state
    whatever -- nothing can be redone: the log is the log as it stood
    after the commit of [a], cut after [a], followed by [d], and the
    cursor is on [d] at the last index. *)
Theorem branch_discard (O : RulesOracle) (s : State) (a b c d : Fen) :
  b <> a -> c <> b -> d <> a ->
  let s1 := commit O a s in
  let s6 := commit O d (undoMove O (undoMove O (commit O c (commit O b s1)))) in
  canRedo s6 = false /\
  redoMove O s6 = s6 /\
  cursorEntry s6 = Some d /\
  exists n,
    currentStateIndex s1 = Z.of_nat n /\
    nth_error (gameStates s1) n = Some a /\
    gameStates s6 = (firstn (S n) (gameStates s1) ++ [d])%list.
Proof.
  intros Hba Hcb Hda s1 s6.
  destruct (commit_Store O a s) as [n H1]. fold s1 in H1.
  set (st1 := gameStates s1) in *.
  pose proof (Store_bound _ _ _ _ H1) as Hb1.
  assert (Hl1 : length (firstn (S n) st1) = S n) by (rewrite length_firstn; lia).
  pose proof (commit_fresh O _ _ _ _ b H1 Hba) as H2.
  set (st2 := (firstn (S n) st1 ++ [b])%list) in *.
  assert (Hl2 : length st2 = S (S n)).
  { subst st2. rewrite length_app, Hl1. cbn [length]. lia. }
  pose proof (commit_fresh O _ _ _ _ c H2 Hcb) as H3.
  set (st3 := (firstn (S (S n)) st2 ++ [c])%list) in *.
  assert (Hst3 : st3 = (firstn (S n) st1 ++ [b; c])%list).
  { subst st3. rewrite firstn_all2 by lia. subst st2.
    rewrite <- app_assoc. reflexivity. }
  assert (Hb3 : nth_error st3 (S n) = Some b).
  { rewrite Hst3, nth_error_app2, Hl1, Nat.sub_diag by lia. reflexivity. }
  assert (Ha3 : nth_error st3 n = Some a).
  { rewrite Hst3, nth_error_app1, nth_error_firstn by lia.
    destruct (Nat.ltb_spec n (S n)); [| lia]. apply H1. }
  pose proof (undo_Store O _ _ _ _ _ H3 Hb3) as H4.
  pose proof (undo_Store O _ _ _ _ _ H4 Ha3) as H5.
  pose proof (commit_fresh O _ _ _ _ d H5 Hda) as H6. fold s6 in H6.
  assert (Hst6 : (firstn (S n) st3 ++ [d])%list = (firstn (S n) st1 ++ [d])%list).
  { f_equal. rewrite Hst3, firstn_app, Hl1, Nat.sub_diag, firstn_O, app_nil_r.
    rewrite firstn_firstn, Nat.min_id. reflexivity. }
  rewrite Hst6 in H6.
  assert (Htip : S (S n) = length (firstn (S n) st1 ++ [d])%list).
  { rewrite length_app, Hl1. cbn [length]. lia. }
  destruct (redo_at_tip O _ _ _ _ H6 Htip) as [Hcan Hredo].
  split; [exact Hcan |]. split; [exact Hredo |].
  split; [exact (Store_cursorEntry _ _ _ _ H6) |].
  exists n. split; [apply H1 |]. split; [apply H1 | apply H6].
Qed.

Lemma branch_discard_witness :
  let O := Example.oracle in
  canRedo (commit O Example.posD (undoMove O (undoMove O
             (commit O Example.posC (commit O Example.posB
                (commit O Example.posA (mounted O))))))) = false.
Proof.
  cbv zeta.
  apply (branch_discard Example.oracle (mounted Example.oracle)
           Example.posA Example.posB Example.posC Example.posD);
    discriminate.
Defined.

(** The log of that run: the start position, [a], [d]. *)
Example branch_discard_log :
  let O := Example.oracle in
  gameStates (commit O Example.posD (undoMove O (undoMove O
                (commit O Example.posC (commit O Example.posB
                   (commit O Example.posA (mounted O)))))))
  = [DEFAULT_POSITION; Example.posA; Example.posD].
Proof. vm_compute. reflexivity. Qed.

Section RoundTrip.

Variable O : RulesOracle.

(** After a commit on an empty log, or on a log whose cursor is at the
    last index, the cursor is at the last index, on the committed
    position. *)
Lemma commit_at_tip (p : Fen) (s : State) :
  currentStateIndex s = (-1)%Z \/
  (exists st n f, Store s st n f /\ S n = length st) ->
  exists st n, Store (commit O p s) st n p /\ S n = length st.
Proof.
  intros [Hempty | [st [n [f [Hs Htip]]]]].
  - exists [p], 0%nat. split; [| reflexivity].
    unfold commit, Store. rewrite gameEffects_game.
    destruct (sync_init O (setGame (newChess p) s) Hempty) as [-> ->].
    state_simpl. repeat split; reflexivity.
  - destruct (String.eqb_spec p f) as [-> | Hne].
    + exists st, n. split; [apply commit_same; exact Hs | exact Htip].
    + exists (firstn (S n) st ++ [p])%list, (S n). split.
      * apply commit_fresh with (f := f); assumption.
      * rewrite length_app, length_firstn. cbn [length]. lia.
Qed.

Lemma commits_at_tip (ps : list Fen) (s : State) :
  currentStateIndex s = (-1)%Z \/
  (exists st n f, Store s st n f /\ S n = length st) ->
  currentStateIndex (fold_left (fun t q => commit O q t) ps s) = (-1)%Z \/
  (exists st n f,
     Store (fold_left (fun t q => commit O q t) ps s) st n f /\ S n = length st).
Proof.
  revert s. induction ps as [| q ps IH]; intros s Hs; [exact Hs |].
  cbn [fold_left]. apply IH. right.
  destruct (commit_at_tip q s Hs) as [st [n [H Htip]]].
  exists st, n, q. auto.
Qed.

Lemma undo_redo_at_tip (s : State) (st : list Fen) (n : nat) (p : Fen) :
  Store s st n p -> S n = length st ->
  Store (redoMove O (undoMove O s)) st n p.
Proof.
  intros Hs Htip. destruct n as [| m].
  - rewrite (undo_at_zero O _ _ _ Hs).
    destruct (redo_at_tip O _ _ _ _ Hs Htip) as [_ ->]. exact Hs.
  - destruct (nth_error st m) as [q |] eqn:Eq.
    + apply redo_Store with (f := q); [| apply Hs].
      apply undo_Store with (f := p); assumption.
    + apply nth_error_None in Eq. lia.
Qed.

End RoundTrip.

(** C5.  Whatever positions were committed before (from the empty log of
    the initial state), committing [p], undoing and redoing leaves the
    cursor on an entry equal to [p], which is also the live position. *)
Theorem commit_undo_redo_roundtrip (O : RulesOracle) (ps : list Fen) (p : Fen) :
  let s0 := fold_left (fun t q => commit O q t) ps initialState in
  let s := redoMove O (undoMove O (commit O p s0)) in
  cursorEntry s = Some p /\ ChessJS.fen (game s) = p.
Proof.
  intros s0 s.
  assert (H0 : currentStateIndex s0 = (-1)%Z \/
               (exists st n f, Store s0 st n f /\ S n = length st)).
  { apply commits_at_tip. left. reflexivity. }
  destruct (commit_at_tip O p s0 H0) as [st [n [H1 Htip]]].
  pose proof (undo_redo_at_tip O _ _ _ _ H1 Htip) as H2. fold s in H2.
  split; [exact (Store_cursorEntry _ _ _ _ H2) | apply H2].
Qed.

(** One run of the round trip, with the cursor moving in between. *)
Example roundtrip_run :
  let O := Example.oracle in
  let s1 := commit O Example.posB (commit O Example.posA initialState) in
  currentStateIndex s1 = 1%Z /\
  currentStateIndex (undoMove O s1) = 0%Z /\
  cursorEntry (undoMove O s1) = Some Example.posA /\
  currentStateIndex (redoMove O (undoMove O s1)) = 1%Z /\
  cursorEntry (redoMove O (undoMove O s1)) = Some Example.posB.
Proof. vm_compute. repeat split; reflexivity. Qed.

(** ** The data-model invariant holds in every reachable state *)

Section Invariant.

Variable O : RulesOracle.

Lemma Inv_gameEffects (s : State) :
  history (game s) = [] -> Inv (gameEffects O s).
Proof.
  intro Hh. destruct (gameEffects_Store O s) as [n Hn].
  pose proof (Store_bound _ _ _ _ Hn) as Hb.
  pose proof (Store_cursorEntry _ _ _ _ Hn) as Hc.
  destruct Hn as [_ [Hidx _]].
  unfold Inv. rewrite gameEffects_game.
  destruct (gameEffects_store O s) as [_ [_ Hm]].
  rewrite Hm, Hh. unfold JS.len.
  repeat split; try reflexivity; try lia. exact Hc.
Qed.

Lemma Inv_frame (s s' : State) :
  game s' = game s -> moveHistory s' = moveHistory s ->
  gameStates s' = gameStates s -> currentStateIndex s' = currentStateIndex s ->
  Inv s -> Inv s'.
Proof.
  unfold Inv, cursorEntry. intros -> -> -> ->. tauto.
Qed.

Lemma newChessOpt_history (o : option Fen) : history (newChessOpt o) = [].
Proof. destruct o; reflexivity. Qed.

Lemma Inv_recordCapture (m : Move) (s : State) : Inv s -> Inv (recordCapture m s).
Proof.
  destruct (recordCapture_frame m s) as [Hg [_ [Hst [Hi [Hm _]]]]].
  apply Inv_frame; assumption.
Qed.

Lemma Inv_makeFallbackMove (r : Q) (s : State) :
  Inv s -> Inv (makeFallbackMove O r s).
Proof.
  intro H. unfold makeFallbackMove.
  destruct (JS.len (moves O (ChessJS.fen (game s))) =? 0)%Z.
  - revert H. apply Inv_frame; reflexivity.
  - destruct (applySelected O _ _) as [[moveResult newFen] |].
    + apply Inv_gameEffects. reflexivity.
    + revert H. apply Inv_frame; reflexivity.
Qed.

Lemma Inv_afterFetch (fetched : string + string) (r : Q) (s : State) :
  Inv s -> Inv (afterFetch O fetched r s).
Proof.
  intro H. unfold afterFetch. destruct fetched as [raw | e].
  - destruct (validateAIMove O _ _) as [txt [[moveResult newFen] |]].
    + apply Inv_gameEffects. reflexivity.
    + generalize (Inv_makeFallbackMove r s H). apply Inv_frame; reflexivity.
  - assert (H' : Inv (setGameStatus "ERROR - Using fallback" s))
      by (revert H; apply Inv_frame; reflexivity).
    generalize (Inv_makeFallbackMove r _ H'). apply Inv_frame; reflexivity.
Qed.

Theorem reachable_Inv (s : State) : reachable O s -> Inv s.
Proof.
  induction 1 as [| s a c _ IH | s k _ IH | s srv url mid r _ IH
                  | s _ IH | s _ IH | s _ IH | s f _ IH].
  - apply Inv_gameEffects. reflexivity.
  - unfold onDrop.
    destruct (orb _ _); [exact IH |].
    destruct (isPawnPromotion O s a c).
    + revert IH. apply Inv_frame; reflexivity.
    + destruct (moveFromTo O _ a c None) as [[move newFen] |]; [| exact IH].
      apply Inv_gameEffects. reflexivity.
  - unfold handlePromotion.
    destruct (promotionMove s) as [[fromSq toSq] |]; [| exact IH].
    destruct (moveFromTo O _ fromSq toSq (Some k)) as [[move newFen] |]; [| exact IH].
    apply Inv_gameEffects. reflexivity.
  - unfold getAIMove.
    destruct (orb _ _).
    + revert IH. apply Inv_frame; reflexivity.
    + apply Inv_afterFetch. revert IH. apply Inv_frame; reflexivity.
  - unfold undoMove. destruct (0 <? currentStateIndex s)%Z; [| exact IH].
    apply Inv_gameEffects. apply newChessOpt_history.
  - unfold redoMove.
    destruct (currentStateIndex s <? JS.len (gameStates s) - 1)%Z; [| exact IH].
    apply Inv_gameEffects. apply newChessOpt_history.
  - apply Inv_gameEffects. reflexivity.
  - unfold loadGame. destruct (validFen O f); [| exact IH].
    apply Inv_gameEffects. reflexivity.
Qed.

(** The invariant, read as a store. *)
Lemma Inv_Store (s : State) :
  Inv s ->
  exists n, Store s (gameStates s) n (ChessJS.fen (game s)).
Proof.
  intros [_ [_ [[Hlo Hhi] Hc]]].
  exists (Z.to_nat (currentStateIndex s)). unfold Store.
  unfold cursorEntry, JS.index in Hc.
  destruct (Z.ltb_spec (currentStateIndex s) 0); [lia |].
  repeat split; [lia | exact Hc].
Qed.

End Invariant.

(** ** Undo and the derived logs *)




Lemma example_game_reachable : reachable Example.oracle Example.afterKxf3.
Proof.
  unfold Example.afterKxf3, Example.afterNf3, Example.afterKg2, Example.loaded.
  apply reach_onDrop, reach_getAIMove, reach_onDrop, reach_loadGame, reach_mounted.
Qed.

(** The example game at its end: a knight in the tally, four snapshots. *)
Example example_game_end :
  capturedPieces Example.afterKxf3
    = {| w := []; b := [ {| type := Knight; count := 1 |} ] |} /\
  gameStates Example.afterKxf3
    = [Example.posA; Example.posB; Example.posC; Example.posD] /\
  currentStateIndex Example.afterKxf3 = 3%Z /\
  ChessJS.fen (game (undoMove Example.oracle Example.afterKxf3)) = Example.posC.
Proof. vm_compute. repeat split; reflexivity. Qed.


(** Undo on a state whose move list holds an entry: the entry goes, the
    tally stays. *)
Example undo_resets_a_filled_move_list :
  let s := setMoveHistory [ {| mrSan := "Kxf3"; mrColor := "white" |} ] Example.afterKxf3 in
  moveHistory (undoMove Example.oracle s) = [] /\
  capturedPieces (undoMove Example.oracle s) = capturedPieces s.
Proof. vm_compute. split; reflexivity. Qed.

(** ** Promotion *)

(** C7.  A drop that takes a white pawn from the seventh rank to the
    eighth changes neither the game object, nor the board position, nor
    the log, nor the cursor, nor the turn; on the player's turn in a
    running game it only records the pending promotion and opens the
    choice.  The position changes, and is committed, when a piece kind is
    supplied for which the rules library accepts the move. *)
Theorem promotion_drop_defers_commit
  (O : RulesOracle) (s : State) (sourceSquare targetSquare : Square) :
  get O (ChessJS.fen (game s)) sourceSquare = Some {| ptype := Pawn; pcolor := White |} ->
  JS.charAt 1 sourceSquare = "7" ->
  JS.charAt 1 targetSquare = "8" ->
  let s' := fst (onDrop O sourceSquare targetSquare s) in
  game s' = game s /\
  ChessGame.fen s' = ChessGame.fen s /\
  gameStates s' = gameStates s /\
  currentStateIndex s' = currentStateIndex s /\
  isPlayerTurn s' = isPlayerTurn s /\
  capturedPieces s' = capturedPieces s /\
  (isPlayerTurn s = true -> isGameOver O (ChessJS.fen (game s)) = false ->
     promotionMove s' = Some (sourceSquare, targetSquare) /\
     showPromotionModal s' = true /\
     forall pieceType move newFen,
       moveFromTo O (ChessJS.fen (game s)) sourceSquare targetSquare (Some pieceType)
         = Some (move, newFen) ->
       ChessJS.fen (game (handlePromotion O pieceType s')) = newFen /\
       cursorEntry (handlePromotion O pieceType s') = Some newFen /\
       isPlayerTurn (handlePromotion O pieceType s') = false /\
       promotionMove (handlePromotion O pieceType s') = None).
Proof.
  intros Hget _ Htgt s'.
  assert (Hprom : isPawnPromotion O s sourceSquare targetSquare = true).
  { unfold isPawnPromotion. rewrite Hget. cbn. rewrite Htgt. reflexivity. }
  subst s'. unfold onDrop. rewrite Hprom.
  destruct (isPlayerTurn s) eqn:Hturn; cbn [negb orb].
  - destruct (isGameOver O (ChessJS.fen (game s))) eqn:Hover; cbn [fst];
      state_simpl.
    + do 6 (split; [first [reflexivity | exact Hturn] |]). intros _ Habs. discriminate.
    + do 6 (split; [first [reflexivity | exact Hturn] |]). intros _ _.
      split; [reflexivity |]. split; [reflexivity |].
      intros pieceType move newFen Hmove.
      unfold handlePromotion. state_simpl. rewrite Hmove.
      rewrite gameEffects_game, gameEffects_isPlayerTurn, gameEffects_promotionMove.
      state_simpl. repeat split; try reflexivity.
      match goal with
      | |- cursorEntry (gameEffects O ?t) = _ =>
          destruct (gameEffects_Store O t) as [n Hn];
          exact (Store_cursorEntry _ _ _ _ Hn)
      end.
  - cbn [fst]. do 6 (split; [first [reflexivity | exact Hturn] |]).
    intros Habs. discriminate.
Qed.

Lemma promotion_drop_defers_commit_witness :
  let s' := fst (onDrop Example.oracle "e7" "e8" Example.loadedP) in
  game s' = game Example.loadedP /\
  currentStateIndex s' = currentStateIndex Example.loadedP /\
  promotionMove s' = Some ("e7", "e8") /\
  ChessJS.fen (game (handlePromotion Example.oracle Queen s'))
    = "k3Q3/8/8/8/8/8/8/7K b - - 0 1".
Proof.
  cbv zeta.
  destruct (promotion_drop_defers_commit Example.oracle Example.loadedP "e7" "e8")
    as [Hg [_ [_ [Hi [_ [_ Hp]]]]]].
  - reflexivity.
  - reflexivity.
  - reflexivity.
  - cbv zeta in Hg, Hi, Hp.
    destruct Hp as [Hpm [_ Hk]]; [reflexivity | reflexivity |].
    split; [exact Hg |]. split; [exact Hi |]. split; [exact Hpm |].
    apply (Hk Queen (Example.promote "e7" "e8" Queen "e8=Q+")). reflexivity.
Defined.

(** ** The AI always ends up moving *)

Section AIMoves.

Variable O : RulesOracle.

Lemma validateAIMove_sound (f : Fen) (aiMoveText txt : string) (res : Move * Fen) :
  validateAIMove O f aiMoveText = (txt, Some res) ->
  moveSan O f txt = Some res.
Proof.
  unfold validateAIMove.
  destruct (moveSan O f aiMoveText) as [res0 |] eqn:E0.
  - intros [= <- <-]. exact E0.
  - destruct (find _ _) as [foundMove |]; [| discriminate].
    destruct (moveSan O f (san foundMove)) as [res1 |] eqn:E1; [| discriminate].
    intros [= <- <-]. exact E1.
Qed.

(** The fallback is total on a position with legal moves, provided every
    notation the rules library lists is one it accepts. *)
Lemma makeFallbackMove_moves (r : Q) (s : State) :
  (0 <= r)%Q -> (r < 1)%Q ->
  moves O (ChessJS.fen (game s)) <> [] ->
  (forall m, In m (moves O (ChessJS.fen (game s))) ->
             moveSan O (ChessJS.fen (game s)) m <> None) ->
  exists txt moveResult newFen,
    In txt (moves O (ChessJS.fen (game s))) /\
    moveSan O (ChessJS.fen (game s)) txt = Some (moveResult, newFen) /\
    game (makeFallbackMove O r s) = newChess newFen /\
    isPlayerTurn (makeFallbackMove O r s) = true /\
    aiMoveSource (makeFallbackMove O r s) = "Smart Fallback".
Proof.
  intros H0 H1 Hne Hok. unfold makeFallbackMove.
  destruct (Z.eqb_spec (JS.len (moves O (ChessJS.fen (game s)))) 0) as [E | _].
  { exfalso. unfold JS.len in E. destruct (moves O (ChessJS.fen (game s)));
      [congruence | cbn [length] in E; lia]. }
  destruct (selectFallback_bucket _ r H0 H1 Hne) as [m [Hsel [Hin _]]].
  rewrite Hsel. cbn [applySelected].
  destruct (moveSan O (ChessJS.fen (game s)) m) as [[moveResult newFen] |] eqn:Em.
  - exists m, moveResult, newFen.
    rewrite gameEffects_game, gameEffects_isPlayerTurn, gameEffects_aiMoveSource.
    state_simpl. rewrite recordCapture_aiMoveSource. state_simpl. auto.
  - exfalso. exact (Hok m Hin Em).
Qed.

(** Once triggered, [getAIMove] installs a position reached by a move the
    rules library accepts -- the remote move when it validates, a fallback
    move otherwise -- and hands the turn to the player. *)
Lemma getAIMove_moves (srv : Server) (lmStudioUrl : string)
  (modelId : option string) (r : Q) (s : State) :
  aiTurnTriggered O s = true ->
  (0 <= r)%Q -> (r < 1)%Q ->
  moves O (ChessJS.fen (game s)) <> [] ->
  (forall m, In m (moves O (ChessJS.fen (game s))) ->
             moveSan O (ChessJS.fen (game s)) m <> None) ->
  exists txt moveResult newFen,
    moveSan O (ChessJS.fen (game s)) txt = Some (moveResult, newFen) /\
    game (getAIMove O srv lmStudioUrl modelId r s) = newChess newFen /\
    isPlayerTurn (getAIMove O srv lmStudioUrl modelId r s) = true.
Proof.
  intros Htrig H0 H1 Hne Hok. unfold aiTurnTriggered in Htrig.
  apply andb_true_iff in Htrig. destruct Htrig as [Hturn Hover].
  apply negb_true_iff in Hturn. apply negb_true_iff in Hover.
  unfold getAIMove. rewrite Hturn, Hover. cbn [orb].
  set (s1 := setMoveQuality None _).
  assert (Hg1 : game s1 = game s) by reflexivity.
  destruct (snd (fetchRawAIMove srv lmStudioUrl _ modelId)) as [raw | e];
    unfold afterFetch.
  - destruct (validateAIMove O (ChessJS.fen (game s1)) (cleanAIMoveText raw))
      as [txt [[moveResult newFen] |]] eqn:Ev.
    + apply validateAIMove_sound in Ev. rewrite Hg1 in Ev.
      exists txt, moveResult, newFen.
      rewrite gameEffects_game, gameEffects_isPlayerTurn. state_simpl. auto.
    + destruct (makeFallbackMove_moves r s1 H0 H1) as [m [mv [f' [_ [Hm [Hg [Hp _]]]]]]];
        [rewrite Hg1; exact Hne | rewrite Hg1; exact Hok |].
      rewrite Hg1 in Hm. exists m, mv, f'. state_simpl. auto.
  - set (s2 := setGameStatus _ s1).
    assert (Hg2 : game s2 = game s) by reflexivity.
    destruct (makeFallbackMove_moves r s2 H0 H1) as [m [mv [f' [_ [Hm [Hg [Hp _]]]]]]];
      [rewrite Hg2; exact Hne | rewrite Hg2; exact Hok |].
    rewrite Hg2 in Hm. exists m, mv, f'. state_simpl. auto.
Qed.

End AIMoves.

(** ** Turn ownership after undo and redo *)

(** C10.  In a reachable state, an undo or a redo that moves the cursor
    restores the snapshot stored at the new cursor and sets the
    player-to-move flag to "the restored position has White to move".
    The AI trigger then holds exactly when that position has Black to
    move and the game is not over there; in that case, as soon as the
    rules library accepts the notations it lists, [getAIMove] makes a
    move for Black from the restored position and returns the turn. *)
Theorem turn_follows_restored_snapshot
  (O : RulesOracle) (step : State -> State) (s : State) :
  step = undoMove O \/ step = redoMove O ->
  reachable O s ->
  currentStateIndex (step s) <> currentStateIndex s ->
  exists snapshot,
    JS.index (gameStates s) (currentStateIndex (step s)) = Some snapshot /\
    game (step s) = newChess snapshot /\
    isPlayerTurn (step s) = Color_eqb (turn O snapshot) White /\
    aiTurnTriggered O (step s)
      = andb (negb (Color_eqb (turn O snapshot) White)) (negb (isGameOver O snapshot)) /\
    (turn O snapshot = Black -> isGameOver O snapshot = false ->
       aiTurnTriggered O (step s) = true /\
       forall srv lmStudioUrl modelId r,
         (0 <= r)%Q -> (r < 1)%Q ->
         moves O snapshot <> [] ->
         (forall m, In m (moves O snapshot) -> moveSan O snapshot m <> None) ->
         exists txt moveResult newFen,
           moveSan O snapshot txt = Some (moveResult, newFen) /\
           game (getAIMove O srv lmStudioUrl modelId r (step s)) = newChess newFen /\
           isPlayerTurn (getAIMove O srv lmStudioUrl modelId r (step s)) = true).
Proof.
  intros Hstep Hr Hmoved.
  pose proof (reachable_Inv O s Hr) as HI.
  destruct (Inv_Store s HI) as [n Hs].
  pose proof (Store_bound _ _ _ _ Hs) as Hb.
  assert (Hmain : exists snapshot,
            JS.index (gameStates s) (currentStateIndex (step s)) = Some snapshot /\
            game (step s) = newChess snapshot /\
            isPlayerTurn (step s) = Color_eqb (turn O snapshot) White).
  { destruct Hstep as [-> | ->].
    - (* undo *)
      destruct n as [| m];
        [rewrite (undo_at_zero O _ _ _ Hs) in Hmoved; contradiction |].
      destruct (nth_error (gameStates s) m) as [q |] eqn:Eq;
        [| apply nth_error_None in Eq; lia].
      pose proof (undo_Store O _ _ _ _ _ Hs Eq) as [_ [Hidx' _]].
      exists q. rewrite Hidx', index_of_nat. split; [exact Eq |].
      destruct Hs as [_ [Hidx _]].
      unfold undoMove. rewrite Hidx.
      destruct (Z.ltb_spec 0 (Z.of_nat (S m))) as [_ | ?]; [| lia]. cbv zeta.
      replace (Z.of_nat (S m) - 1)%Z with (Z.of_nat m) by lia.
      rewrite index_of_nat, Eq, gameEffects_game, gameEffects_isPlayerTurn.
      state_simpl. split; reflexivity.
    - (* redo *)
      destruct (nth_error (gameStates s) (S n)) as [q |] eqn:Eq.
      + pose proof (redo_Store O _ _ _ _ _ Hs Eq) as [_ [Hidx' _]].
        exists q. rewrite Hidx', index_of_nat. split; [exact Eq |].
        assert (Hb' : (S n < length (gameStates s))%nat)
          by (apply nth_error_Some; congruence).
        destruct Hs as [_ [Hidx _]].
        unfold redoMove. rewrite Hidx. unfold JS.len.
        destruct (Z.ltb_spec (Z.of_nat n) (Z.of_nat (length (gameStates s)) - 1))
          as [_ | ?]; [| lia]. cbv zeta.
        replace (Z.of_nat n + 1)%Z with (Z.of_nat (S n)) by lia.
        rewrite index_of_nat, Eq, gameEffects_game, gameEffects_isPlayerTurn.
        state_simpl. split; reflexivity.
      + apply nth_error_None in Eq.
        assert (Htip : S n = length (gameStates s)) by lia.
        destruct (redo_at_tip O _ _ _ _ Hs Htip) as [_ Hsame].
        rewrite Hsame in Hmoved. contradiction. }
  destruct Hmain as [snapshot [Hsnap [Hgame Hflag]]].
  exists snapshot.
  assert (Htrig : aiTurnTriggered O (step s)
                  = andb (negb (Color_eqb (turn O snapshot) White))
                         (negb (isGameOver O snapshot))).
  { unfold aiTurnTriggered. rewrite Hflag, Hgame. reflexivity. }
  split; [exact Hsnap |]. split; [exact Hgame |]. split; [exact Hflag |].
  split; [exact Htrig |].
  intros Hblack Hover.
  assert (Htrue : aiTurnTriggered O (step s) = true).
  { rewrite Htrig, Hblack, Hover. reflexivity. }
  split; [exact Htrue |].
  intros srv lmStudioUrl modelId r H0 H1 Hne Hok.
  assert (Hfen : ChessJS.fen (game (step s)) = snapshot) by (rewrite Hgame; reflexivity).
  destruct (getAIMove_moves O srv lmStudioUrl modelId r (step s) Htrue H0 H1)
    as [txt [mv [f' [Hm [Hg Hp]]]]].
  - rewrite Hfen. exact Hne.
  - rewrite Hfen. exact Hok.
  - rewrite Hfen in Hm. exists txt, mv, f'. auto.
Qed.

Lemma turn_follows_restored_snapshot_witness :
  isPlayerTurn Example.afterNf3 = true /\
  isPlayerTurn (undoMove Example.oracle Example.afterNf3) = false /\
  aiTurnTriggered Example.oracle (undoMove Example.oracle Example.afterNf3) = true.
Proof.
  split; [reflexivity |].
  destruct (turn_follows_restored_snapshot Example.oracle
              (undoMove Example.oracle) Example.afterNf3)
    as [snapshot [Hsnap [_ [Hflag [Htrig _]]]]].
  - left. reflexivity.
  - unfold Example.afterNf3, Example.afterKg2, Example.loaded.
    apply reach_getAIMove, reach_onDrop, reach_loadGame, reach_mounted.
  - vm_compute. discriminate.
  - vm_compute in Hsnap. injection Hsnap as <-.
    rewrite Hflag, Htrig. split; reflexivity.
Defined.

(** The same run, spelled out: the player undoes Black's reply, the
    position with Black to move comes back, and the remote source being
    silent the fallback answers for Black. *)
Example undo_then_ai_moves_again :
  let O := Example.oracle in
  let s := undoMove O Example.afterNf3 in
  ChessJS.fen (game s) = Example.posB /\
  currentStateIndex s = 1%Z /\
  gameStates s = [Example.posA; Example.posB; Example.posC] /\
  isPlayerTurn (getAIMove O Example.offline Example.localUrl None (1 # 2) s) = true /\
  lastAIMove (getAIMove O Example.offline Example.localUrl None (1 # 2) s) = "Nh3" /\
  gameStates (getAIMove O Example.offline Example.localUrl None (1 # 2) s)
    = [Example.posA; Example.posB; "k7/8/8/8/8/P6n/6K1/8 w - - 2 2"].
Proof. vm_compute. repeat split; reflexivity. Qed.

(** * Further properties of the code *)

(** ** Trimming and cleaning *)

Lemma trimStart_head (s : string) :
  forall c, Text.firstChar (JS.trimStart s) = Some c -> JS.isWhiteSpace c = false.
Proof.
  induction s as [| a t IH]; intros c; cbn [JS.trimStart].
  - discriminate.
  - destruct (JS.isWhiteSpace a) eqn:Ea; [apply IH |].
    cbn. intros [= <-]. exact Ea.
Qed.

Lemma trimStart_fixed (s : string) :
  (forall c, Text.firstChar s = Some c -> JS.isWhiteSpace c = false) ->
  JS.trimStart s = s.
Proof.
  destruct s as [| a t]; intro H; [reflexivity |].
  cbn [JS.trimStart]. rewrite (H a eq_refl). reflexivity.
Qed.

Lemma trimEnd_cons (a : ascii) (t : string) :
  JS.trimEnd (String a t)
  = match JS.trimEnd t with
    | EmptyString => if JS.isWhiteSpace a then EmptyString else String a EmptyString
    | String b u => String a (String b u)
    end.
Proof. reflexivity. Qed.

Lemma trimEnd_idempotent (s : string) : JS.trimEnd (JS.trimEnd s) = JS.trimEnd s.
Proof.
  induction s as [| a t IH]; [reflexivity |].
  rewrite (trimEnd_cons a t). destruct (JS.trimEnd t) as [| b u] eqn:Et.
  - destruct (JS.isWhiteSpace a) eqn:Ea; [reflexivity |].
    rewrite trimEnd_cons. cbn [JS.trimEnd]. rewrite Ea. reflexivity.
  - rewrite trimEnd_cons, IH. reflexivity.
Qed.

Lemma trimEnd_head (s : string) (c : ascii) :
  Text.firstChar s = Some c -> JS.isWhiteSpace c = false ->
  Text.firstChar (JS.trimEnd s) = Some c.
Proof.
  destruct s as [| a t]; [discriminate |].
  cbn [Text.firstChar]. intros [= ->] Hc. cbn [JS.trimEnd].
  destruct (JS.trimEnd t); [rewrite Hc |]; reflexivity.
Qed.

Lemma trimEnd_head_inv (s : string) (c : ascii) :
  Text.firstChar (JS.trimEnd s) = Some c -> Text.firstChar s = Some c.
Proof.
  destruct s as [| a t]; [discriminate |].
  cbn [JS.trimEnd]. destruct (JS.trimEnd t).
  - destruct (JS.isWhiteSpace a); [discriminate | exact (fun H => H)].
  - exact (fun H => H).
Qed.

Lemma trimEnd_last (s : string) :
  forall c, Text.lastChar (JS.trimEnd s) = Some c -> JS.isWhiteSpace c = false.
Proof.
  induction s as [| a t IH]; intros c; [discriminate |].
  cbn [JS.trimEnd]. destruct (JS.trimEnd t) as [| b u] eqn:Et.
  - destruct (JS.isWhiteSpace a) eqn:Ea; [discriminate |].
    cbn. intros [= <-]. exact Ea.
  - cbn [Text.lastChar]. apply IH.
Qed.

Lemma trim_idempotent (s : string) : JS.trim (JS.trim s) = JS.trim s.
Proof.
  unfold JS.trim.
  rewrite (trimStart_fixed (JS.trimEnd (JS.trimStart s))).
  - apply trimEnd_idempotent.
  - intros c Hc. apply trimEnd_head_inv in Hc. exact (trimStart_head s c Hc).
Qed.

Lemma trim_ends (s : string) :
  (forall c, Text.firstChar (JS.trim s) = Some c -> JS.isWhiteSpace c = false) /\
  (forall c, Text.lastChar (JS.trim s) = Some c -> JS.isWhiteSpace c = false).
Proof.
  unfold JS.trim. split.
  - intros c Hc. apply trimEnd_head_inv in Hc. exact (trimStart_head s c Hc).
  - apply trimEnd_last.
Qed.

Lemma allChars_trimStart p s :
  Text.allChars p s = true -> Text.allChars p (JS.trimStart s) = true.
Proof.
  induction s as [| a t IH]; [trivial |].
  cbn [Text.allChars JS.trimStart]. intro H. apply andb_true_iff in H.
  destruct (JS.isWhiteSpace a); [apply IH; tauto |].
  cbn [Text.allChars]. apply andb_true_iff. exact H.
Qed.

Lemma allChars_trimEnd p s :
  Text.allChars p s = true -> Text.allChars p (JS.trimEnd s) = true.
Proof.
  induction s as [| a t IH]; [trivial |].
  cbn [Text.allChars JS.trimEnd]. intro H. apply andb_true_iff in H.
  destruct H as [Ha Ht]. specialize (IH Ht).
  destruct (JS.trimEnd t) as [| b u].
  - destruct (JS.isWhiteSpace a); [reflexivity |].
    cbn [Text.allChars]. rewrite Ha. reflexivity.
  - cbn [Text.allChars] in *. rewrite Ha. exact IH.
Qed.

Lemma allChars_weaken (p q : ascii -> bool) s :
  (forall c, p c = true -> q c = true) ->
  Text.allChars p s = true -> Text.allChars q s = true.
Proof.
  intro Hpq. induction s as [| a t IH]; [trivial |].
  cbn [Text.allChars]. intro H. apply andb_true_iff in H.
  apply andb_true_iff. split; [apply Hpq | apply IH]; tauto.
Qed.

Lemma removeAll_allChars cls s :
  Text.allChars (fun c => negb (cls c)) (JS.removeAll cls s) = true.
Proof.
  induction s as [| a t IH]; [reflexivity |].
  cbn [JS.removeAll]. destruct (cls a) eqn:Ea; [exact IH |].
  cbn [Text.allChars]. rewrite Ea, IH. reflexivity.
Qed.

Lemma removeAll_fixed cls s :
  Text.allChars (fun c => negb (cls c)) s = true -> JS.removeAll cls s = s.
Proof.
  induction s as [| a t IH]; [reflexivity |].
  cbn [Text.allChars JS.removeAll]. intro H. apply andb_true_iff in H.
  destruct H as [Ha Ht]. apply negb_true_iff in Ha. rewrite Ha, (IH Ht). reflexivity.
Qed.

Lemma removeAll_app cls s u :
  JS.removeAll cls (s ++ u) = (JS.removeAll cls s ++ JS.removeAll cls u)%string.
Proof.
  induction s as [| a t IH]; [reflexivity |].
  cbn [String.append JS.removeAll]. rewrite IH. destruct (cls a); reflexivity.
Qed.

Lemma splitSpaceFirst_allChars p s :
  Text.allChars p s = true ->
  Text.allChars (fun c => andb (p c) (negb (Text.isSpace c))) (JS.splitSpaceFirst s) = true.
Proof.
  induction s as [| a t IH]; [reflexivity |].
  cbn [Text.allChars JS.splitSpaceFirst]. intro H. apply andb_true_iff in H.
  destruct H as [Ha Ht].
  destruct (Ascii.eqb a " ") eqn:Ea; [reflexivity |].
  cbn [Text.allChars]. rewrite (IH Ht). unfold Text.isSpace. rewrite Ha, Ea. reflexivity.
Qed.

Lemma splitSpaceFirst_fixed s :
  Text.allChars (fun c => negb (Text.isSpace c)) s = true -> JS.splitSpaceFirst s = s.
Proof.
  induction s as [| a t IH]; [reflexivity |].
  cbn [Text.allChars JS.splitSpaceFirst]. intro H. apply andb_true_iff in H.
  destruct H as [Ha Ht]. unfold Text.isSpace in Ha. apply negb_true_iff in Ha.
  rewrite Ha, (IH Ht). reflexivity.
Qed.

Lemma splitSpaceFirst_app s u :
  Text.allChars (fun c => negb (Text.isSpace c)) s = true ->
  JS.splitSpaceFirst (s ++ u) = (s ++ JS.splitSpaceFirst u)%string.
Proof.
  induction s as [| a t IH]; [reflexivity |].
  cbn [Text.allChars String.append JS.splitSpaceFirst]. intro H.
  apply andb_true_iff in H. destruct H as [Ha Ht].
  unfold Text.isSpace in Ha. apply negb_true_iff in Ha.
  rewrite Ha, (IH Ht). reflexivity.
Qed.

Lemma trimEnd_no_whitespace s :
  Text.allChars (fun c => negb (JS.isWhiteSpace c)) s = true -> JS.trimEnd s = s.
Proof.
  induction s as [| a t IH]; [reflexivity |].
  cbn [Text.allChars JS.trimEnd]. intro H. apply andb_true_iff in H.
  destruct H as [Ha Ht]. apply negb_true_iff in Ha. rewrite (IH Ht), Ha.
  destruct t; reflexivity.
Qed.

Lemma trim_no_whitespace s :
  Text.allChars (fun c => negb (JS.isWhiteSpace c)) s = true -> JS.trim s = s.
Proof.
  intro H. unfold JS.trim. rewrite trimStart_fixed.
  - apply trimEnd_no_whitespace. exact H.
  - destruct s as [| a t]; [discriminate |].
    cbn. intros c [= <-]. cbn [Text.allChars] in H.
    apply andb_true_iff in H. apply negb_true_iff. tauto.
Qed.

Lemma append_empty_r (s : string) : (s ++ "")%string = s.
Proof. induction s as [| a t IH]; [reflexivity |]. cbn. rewrite IH. reflexivity. Qed.

(** X1.  The token that [getAIMove] derives from the raw text contains
    none of the stripped characters (quotes, full stop, colon, comma,
    semicolon, line breaks) and no space, and cleaning it again changes
    nothing. *)
Theorem cleaned_token_is_clean (rawAiMoveText : string) :
  Text.allChars (fun c => andb (negb (isStripped c)) (negb (Text.isSpace c)))
    (cleanAIMoveText rawAiMoveText) = true /\
  cleanAIMoveText (cleanAIMoveText rawAiMoveText) = cleanAIMoveText rawAiMoveText.
Proof.
  assert (H : Text.allChars (fun c => andb (negb (isStripped c)) (negb (Text.isSpace c)))
                (cleanAIMoveText rawAiMoveText) = true).
  { unfold cleanAIMoveText, JS.trim.
    apply allChars_trimEnd, allChars_trimStart.
    apply (splitSpaceFirst_allChars (fun c => negb (isStripped c))).
    apply removeAll_allChars. }
  split; [exact H |].
  set (v := cleanAIMoveText rawAiMoveText) in *.
  unfold cleanAIMoveText at 1.
  rewrite removeAll_fixed, splitSpaceFirst_fixed.
  - subst v. unfold cleanAIMoveText. apply trim_idempotent.
  - revert H. apply allChars_weaken. intros c Hc.
    apply andb_true_iff in Hc. tauto.
  - revert H. apply allChars_weaken. intros c Hc.
    apply andb_true_iff in Hc. tauto.
Qed.

(** X2.  A raw text whose first character, stripped characters aside, is
    a space is cleaned to the empty token, whatever follows: the part
    before the first space is taken before anything is trimmed. *)
Theorem leading_space_gives_empty_token (junk rest : string) :
  Text.allChars isStripped junk = true ->
  cleanAIMoveText (junk ++ String " " rest) = "".
Proof.
  intro Hj. unfold cleanAIMoveText.
  assert (H : JS.removeAll isStripped (junk ++ String " " rest)
              = String " " (JS.removeAll isStripped rest)).
  { induction junk as [| a t IH]; [reflexivity |].
    cbn [Text.allChars] in Hj. apply andb_true_iff in Hj. destruct Hj as [Ha Ht].
    cbn [String.append JS.removeAll]. rewrite Ha. exact (IH Ht). }
  rewrite H. reflexivity.
Qed.

Lemma leading_space_gives_empty_token_witness :
  cleanAIMoveText ("'" ++ String " " "Nf3'")%string = "".
Proof.
  apply (leading_space_gives_empty_token "'" "Nf3'"). reflexivity.
Defined.

(** X3.  First word: when the text starts with a token made of plain
    characters (Basic Latin, none stripped, no white space) and what
    follows is, once the stripped characters are gone, empty or opened by
    a space, the cleaning returns exactly that token. *)
Theorem cleaning_takes_first_word (token rest : string) :
  Text.allChars Text.plainChar token = true ->
  JS.splitSpaceFirst (JS.removeAll isStripped rest) = "" ->
  cleanAIMoveText (token ++ rest) = token.
Proof.
  intros Htok Hrest. unfold cleanAIMoveText.
  assert (Hns : Text.allChars (fun c => negb (isStripped c)) token = true).
  { revert Htok. apply allChars_weaken. unfold Text.plainChar. intros c Hc.
    apply andb_true_iff in Hc. destruct Hc as [_ Hc].
    apply andb_true_iff in Hc. tauto. }
  assert (Hnw : Text.allChars (fun c => negb (JS.isWhiteSpace c)) token = true).
  { revert Htok. apply allChars_weaken. unfold Text.plainChar. intros c Hc.
    apply andb_true_iff in Hc. destruct Hc as [_ Hc].
    apply andb_true_iff in Hc. tauto. }
  assert (Hnsp : Text.allChars (fun c => negb (Text.isSpace c)) token = true).
  { revert Hnw. apply allChars_weaken. intros c Hc. unfold Text.isSpace.
    destruct (Ascii.eqb_spec c " ") as [-> | _]; [discriminate | reflexivity]. }
  rewrite removeAll_app, (removeAll_fixed _ _ Hns).
  rewrite (splitSpaceFirst_app _ _ Hnsp), Hrest, append_empty_r.
  apply trim_no_whitespace. exact Hnw.
Qed.

Lemma cleaning_takes_first_word_witness :
  cleanAIMoveText ("O-O" ++ ("." ++ newline ++ " is best"))%string = "O-O".
Proof.
  apply (cleaning_takes_first_word "O-O" ("." ++ newline ++ " is best")%string);
    reflexivity.
Defined.

(** X4.  Whatever the server answers, a text returned by
    [fetchRawAIMove] is trimmed: trimming it again changes nothing, and
    neither its first nor its last character is white space. *)
Theorem fetched_text_is_trimmed
  (srv : Server) (lmStudioUrl prompt : string) (modelId : option string) (raw : string) :
  snd (fetchRawAIMove srv lmStudioUrl prompt modelId) = inl raw ->
  JS.trim raw = raw /\
  (forall c, Text.firstChar raw = Some c -> JS.isWhiteSpace c = false) /\
  (forall c, Text.lastChar raw = Some c -> JS.isWhiteSpace c = false).
Proof.
  intro H.
  assert (Ht : exists c, raw = JS.trim c).
  { unfold fetchRawAIMove in H.
    destruct (chatAttempt srv lmStudioUrl _ prompt) as [r |] eqn:Ec.
    - cbn in H. injection H as <-.
      apply chatAttempt_some_iff in Ec. destruct Ec as [c [_ ->]]. exists c. reflexivity.
    - destruct (completionAttempt srv lmStudioUrl _ prompt) as [r | e] eqn:El;
        cbn in H; [| discriminate].
      injection H as <-.
      apply completionAttempt_inl_iff in El. destruct El as [t [_ ->]].
      exists t. reflexivity. }
  destruct Ht as [c ->].
  split; [apply trim_idempotent | apply trim_ends].
Qed.

Lemma fetched_text_is_trimmed_witness :
  JS.trim "Nf3." = "Nf3.".
Proof.
  apply (fetched_text_is_trimmed (Example.chatOnly Example.paddedNf3)
           Example.localUrl "prompt" None "Nf3.").
  reflexivity.
Defined.

(** ** The connection probe *)

Import ProbeOutcome.

Lemma orElse_nonempty (x : option string) (d : string) :
  d <> "" -> orElse x d <> "".
Proof.
  intro Hd. unfold orElse. destruct x as [v |]; [| exact Hd].
  destruct (String.eqb_spec v ""); assumption.
Qed.

(** X5.  The status returned by [checkLMStudioConnection] is coherent:
    when connected it carries a non-empty model identifier and no error;
    when not connected it carries no identifier and the fixed error text,
    and all three endpoints were requested.  It is not connected exactly
    when the three checks fail. *)
Theorem probe_status_coherent (srv : Server) (lmStudioUrl : string) :
  let out := checkLMStudioConnection srv lmStudioUrl in
  (connected (snd out) = true ->
     exists m, modelId (snd out) = Some m /\ m <> "" /\ error (snd out) = None) /\
  (connected (snd out) = false ->
     modelId (snd out) = None /\
     error (snd out) = Some "Failed to connect after trying multiple endpoints." /\
     fst out = [ModelsEndpoint; ChatCompletions; Completions]) /\
  (connected (snd out) = false <->
     modelsCheckFails srv lmStudioUrl /\ chatCheckFails srv lmStudioUrl /\
     completionsCheckFails srv lmStudioUrl).
Proof.
  cbv zeta.
  unfold checkLMStudioConnection, modelsCheckFails, chatCheckFails, completionsCheckFails.
  assert (U1 : "Unknown" <> "") by discriminate.
  assert (U2 : "Unknown model" <> "") by discriminate.
  assert (Hok : forall tr x d, d <> "" ->
            let st := {| connected := true; modelId := Some (orElse x d); error := None |} in
            (connected (snd (tr, st)) = true ->
               exists m, modelId (snd (tr, st)) = Some m /\ m <> "" /\
                         error (snd (tr, st)) = None) /\
            (connected (snd (tr, st)) = false ->
               modelId (snd (tr, st)) = None /\
               error (snd (tr, st))
                 = Some "Failed to connect after trying multiple endpoints." /\
               fst (tr, st) = [ModelsEndpoint; ChatCompletions; Completions])).
  { intros tr x d Hd. cbn. split; [| discriminate].
    intros _. exists (orElse x d). auto using orElse_nonempty. }
  destruct (getModels srv _) as [[dm |] | em];
    [destruct (models dm) as [[| a l] |] | |].
  2: { destruct (Hok [ModelsEndpoint] (Some (id a)) "Unknown" U1) as [H1 H2].
       split; [exact H1 |]. split; [exact H2 |].
       cbn. split; [discriminate | tauto]. }
  all: destruct (postChat srv _ _) as [[dc |] | ec].
  all: try (destruct (Hok [ModelsEndpoint; ChatCompletions] (model dc) "Unknown model" U2)
              as [H1 H2];
            split; [exact H1 |]; split; [exact H2 |];
            cbn; split; [discriminate | tauto]).
  all: destruct (postCompletions srv _ _) as [[dl |] | el].
  all: try (destruct (Hok [ModelsEndpoint; ChatCompletions; Completions]
                        (model dl) "Unknown model" U2) as [H1 H2];
            split; [exact H1 |]; split; [exact H2 |];
            cbn; split; [discriminate | tauto]).
  all: cbn; split; [discriminate |]; split; [auto |]; tauto.
Qed.

(** X6.  The first successful check wins and the later endpoints are not
    requested: a models listing with at least one entry ends the probe
    after one request, with the identifier of the first entry (or
    "Unknown" when it is empty); failing that, a chat response with a body
    ends it after two, with the model name of the body (or
    "Unknown model"). *)
Theorem probe_short_circuits (srv : Server) (lmStudioUrl : string) :
  (forall m, modelsCheckFinds srv lmStudioUrl m ->
     checkLMStudioConnection srv lmStudioUrl
     = ([ModelsEndpoint],
        {| connected := true; modelId := Some (orElse (Some (id m)) "Unknown");
           error := None |})) /\
  (forall d, modelsCheckFails srv lmStudioUrl -> chatCheckReturns srv lmStudioUrl d ->
     checkLMStudioConnection srv lmStudioUrl
     = ([ModelsEndpoint; ChatCompletions],
        {| connected := true; modelId := Some (orElse (model d) "Unknown model");
           error := None |})).
Proof.
  unfold modelsCheckFinds, modelsCheckFails, chatCheckReturns, checkLMStudioConnection.
  split.
  - intros m [d [rest [-> Hm]]]. rewrite Hm. reflexivity.
  - intros d Hfail Hchat. rewrite Hchat.
    destruct (getModels srv _) as [[dm |] | em]; try reflexivity.
    destruct (models dm) as [[| a l] |]; try reflexivity. contradiction.
Qed.

(** The three servers of the examples. *)
Example probe_offline :
  checkLMStudioConnection Example.offline Example.localUrl
  = ([ModelsEndpoint; ChatCompletions; Completions],
     {| connected := false; modelId := None;
        error := Some "Failed to connect after trying multiple endpoints." |}).
Proof. reflexivity. Qed.

Example probe_chat_only :
  checkLMStudioConnection (Example.chatOnly "hi") Example.localUrl
  = ([ModelsEndpoint; ChatCompletions],
     {| connected := true; modelId := Some "local-model"; error := None |}).
Proof. reflexivity. Qed.

(** ** Validation of the remote move *)

(** X7.  Whatever the rules library and the text, a move returned by the
    validation was accepted by the rules library for the text finally
    recorded; that text is the token itself or the notation of a legal
    move that the token matched after it had failed to apply directly. *)
Theorem validated_move_was_accepted
  (O : RulesOracle) (f : Fen) (aiMoveText txt : string) (res : Move * Fen) :
  validateAIMove O f aiMoveText = (txt, Some res) ->
  moveSan O f txt = Some res /\
  (txt = aiMoveText \/
   (moveSan O f aiMoveText = None /\
    exists m, In m (movesVerbose O f) /\ matchesVariation aiMoveText m = true /\
              txt = san m)).
Proof.
  unfold validateAIMove.
  destruct (moveSan O f aiMoveText) as [res0 |] eqn:E0.
  - intros [= <- <-]. split; [exact E0 | left; reflexivity].
  - destruct (find (matchesVariation aiMoveText) (movesVerbose O f))
      as [foundMove |] eqn:Ef; [| discriminate].
    destruct (moveSan O f (san foundMove)) as [res1 |] eqn:E1; [| discriminate].
    intros [= <- <-]. split; [exact E1 |]. right. split; [reflexivity |].
    apply find_some in Ef. exists foundMove. tauto.
Qed.

Lemma validated_move_was_accepted_witness :
  moveSan Example.oracle Example.posB "Nf3" = Some (Example.Nf3, Example.posC).
Proof.
  apply (validated_move_was_accepted Example.oracle Example.posB "nf3" "Nf3"
           (Example.Nf3, Example.posC)).
  reflexivity.
Defined.

(** X8.  Recovery of a variation: when the token does not apply directly
    but matches a legal move -- same notation up to letter case, or piece
    letter followed by the destination square -- and all the legal moves
    it matches share one notation, the validation re-applies that
    notation and returns whatever the rules library answers for it. *)
Theorem unambiguous_variation_is_recovered
  (O : RulesOracle) (f : Fen) (aiMoveText : string) (m : Move) :
  moveSan O f aiMoveText = None ->
  In m (movesVerbose O f) ->
  matchesVariation aiMoveText m = true ->
  (forall m', In m' (movesVerbose O f) -> matchesVariation aiMoveText m' = true ->
              san m' = san m) ->
  validateAIMove O f aiMoveText = (san m, moveSan O f (san m)).
Proof.
  intros Hdirect Hin Hmatch Huniq. unfold validateAIMove. rewrite Hdirect.
  destruct (find (matchesVariation aiMoveText) (movesVerbose O f))
    as [foundMove |] eqn:Ef.
  - apply find_some in Ef. destruct Ef as [Hin' Hm'].
    rewrite (Huniq foundMove Hin' Hm').
    destruct (moveSan O f (san m)); reflexivity.
  - exfalso. pose proof (find_none _ _ Ef m Hin) as Hn. congruence.
Qed.

Lemma unambiguous_variation_is_recovered_witness :
  validateAIMove Example.oracle Example.posC "kf3"
  = ("Kxf3", Some (Example.Kxf3, Example.posD)).
Proof.
  apply (unambiguous_variation_is_recovered Example.oracle Example.posC "kf3"
           Example.Kxf3).
  - reflexivity.
  - vm_compute. tauto.
  - reflexivity.
  - intros m' Hin Hm. vm_compute in Hin.
    repeat (destruct Hin as [<- | Hin]; [first [reflexivity | discriminate Hm] |]).
    contradiction.
Defined.

(** ** The AI turn *)

Section AITurn.

Variable O : RulesOracle.

Lemma gameEffects_isLoading (s : State) : isLoading (gameEffects O s) = isLoading s.
Proof.
  unfold gameEffects, statusEffect, historySyncEffect. state_simpl.
  destruct (currentStateIndex s =? -1)%Z; [reflexivity |].
  destruct (JS.index (gameStates s) (currentStateIndex s)) as [f |]; [| reflexivity].
  destruct (String.eqb f (ChessJS.fen (game s))); reflexivity.
Qed.

Lemma recordCapture_congr (m : Move) (s t : State) :
  capturedPieces t = capturedPieces s ->
  capturedPieces (recordCapture m t) = capturedPieces (recordCapture m s).
Proof.
  intro H. unfold recordCapture, addCapturedPiece. rewrite H.
  destruct (captured m); [| exact H].
  cbn [pcolor ptype]. destruct (opposite (color m)); reflexivity.
Qed.

Lemma randomElement_some_in {A} (r : Q) (arr : list A) (x : A) :
  JS.randomElement r arr = Some x -> In x arr.
Proof.
  unfold JS.randomElement, JS.index.
  destruct (JS.floorMul r (JS.len arr) <? 0)%Z; [discriminate |].
  apply nth_error_In.
Qed.

Lemma selectFallback_selected_in (legalMoves : list string) (r : Q) (m : string) :
  selectedMove (selectFallback legalMoves r) = Some m -> In m legalMoves.
Proof.
  unfold selectFallback.
  destruct (0 <? JS.len (checkMoves legalMoves))%Z;
    [| destruct (0 <? JS.len (captureMoves legalMoves))%Z;
       [| destruct (0 <? JS.len (promotionMoves legalMoves))%Z;
          [| destruct (0 <? JS.len (developingMoves legalMoves))%Z]]];
    cbn [selectedMove]; intro H; apply randomElement_some_in in H;
    unfold checkMoves, captureMoves, promotionMoves, developingMoves in H;
    try (apply filter_In in H; destruct H as [H _]); exact H.
Qed.

Lemma makeFallbackMove_outcome (r : Q) (s : State) :
  (game (makeFallbackMove O r s) = game s /\
   gameStates (makeFallbackMove O r s) = gameStates s /\
   currentStateIndex (makeFallbackMove O r s) = currentStateIndex s /\
   capturedPieces (makeFallbackMove O r s) = capturedPieces s /\
   isPlayerTurn (makeFallbackMove O r s) = true) \/
  (exists txt moveResult newFen,
     In txt (moves O (ChessJS.fen (game s))) /\
     moveSan O (ChessJS.fen (game s)) txt = Some (moveResult, newFen) /\
     game (makeFallbackMove O r s) = newChess newFen /\
     lastAIMove (makeFallbackMove O r s) = txt /\
     capturedPieces (makeFallbackMove O r s) = capturedPieces (recordCapture moveResult s) /\
     isPlayerTurn (makeFallbackMove O r s) = true).
Proof.
  unfold makeFallbackMove.
  destruct (JS.len (moves O (ChessJS.fen (game s))) =? 0)%Z eqn:Elen.
  { left. state_simpl. auto. }
  destruct (selectedMove (selectFallback (moves O (ChessJS.fen (game s))) r))
    as [m |] eqn:Esel; cbn [applySelected].
  2: { left. state_simpl. auto. }
  destruct (moveSan O (ChessJS.fen (game s)) m) as [[moveResult newFen] |] eqn:Em.
  2: { left. state_simpl. auto. }
  right. exists m, moveResult, newFen.
  rewrite gameEffects_game, gameEffects_lastAIMove, gameEffects_capturedPieces,
    gameEffects_isPlayerTurn.
  state_simpl.
  split; [exact (selectFallback_selected_in _ _ _ Esel) |].
  split; [exact Em |]. repeat split; try reflexivity.
  apply recordCapture_congr. reflexivity.
Qed.

End AITurn.

(** X9.  [getAIMove] never leaves the loading indicator on: whatever the
    state, the server, the rules library and the random draw, [isLoading]
    is false when it is done. *)
Theorem getAIMove_clears_loading
  (O : RulesOracle) (srv : Server) (lmStudioUrl : string)
  (modelId : option string) (r : Q) (s : State) :
  isLoading (getAIMove O srv lmStudioUrl modelId r s) = false.
Proof.
  unfold getAIMove. destruct (orb _ _); [reflexivity |].
  unfold afterFetch.
  destruct (snd (fetchRawAIMove srv lmStudioUrl _ modelId)) as [raw | e];
    [| reflexivity].
  destruct (validateAIMove O _ _) as [txt [[moveResult newFen] |]]; [| reflexivity].
  rewrite gameEffects_isLoading. reflexivity.
Qed.

Section AIResumed.

Variable O : RulesOracle.

Lemma makeFallbackMoveAt_outcome (position : Fen) (r : Q) (s : State) :
  let u := Async.makeFallbackMoveAt O position r s in
  (game u = game s /\ gameStates u = gameStates s /\
   currentStateIndex u = currentStateIndex s /\
   capturedPieces u = capturedPieces s /\ lastAIMove u = lastAIMove s /\
   isPlayerTurn u = true) \/
  (exists txt moveResult newFen,
     In txt (moves O position) /\
     moveSan O position txt = Some (moveResult, newFen) /\
     game u = newChess newFen /\
     lastAIMove u = txt /\
     capturedPieces u = capturedPieces (recordCapture moveResult s) /\
     isPlayerTurn u = true).
Proof.
  cbv zeta. unfold Async.makeFallbackMoveAt.
  destruct (JS.len (moves O position) =? 0)%Z eqn:Elen.
  { left. state_simpl. repeat split; reflexivity. }
  destruct (selectedMove (selectFallback (moves O position) r))
    as [m |] eqn:Esel; cbn [applySelected].
  2: { left. state_simpl. repeat split; reflexivity. }
  destruct (moveSan O position m) as [[moveResult newFen] |] eqn:Em.
  2: { left. state_simpl. repeat split; reflexivity. }
  right. exists m, moveResult, newFen.
  rewrite gameEffects_game, gameEffects_lastAIMove, gameEffects_capturedPieces,
    gameEffects_isPlayerTurn.
  state_simpl.
  split; [exact (selectFallback_selected_in _ _ _ Esel) |].
  split; [exact Em |]. repeat split; try reflexivity.
  apply recordCapture_congr. reflexivity.
Qed.

Lemma makeFallbackMoveAt_isLoading (position : Fen) (r : Q) (s : State) :
  isLoading (setIsLoading false (Async.makeFallbackMoveAt O position r s)) = false.
Proof. reflexivity. Qed.

(** What a resumed [getAIMove] does to the tallies. *)
Lemma getAIMoveResume_tally (currentFen : Fen) (fetched : string + string) (r : Q)
  (s : State) :
  capturedPieces (Async.getAIMoveResume O currentFen fetched r s) = capturedPieces s \/
  exists m, capturedPieces (Async.getAIMoveResume O currentFen fetched r s)
            = capturedPieces (recordCapture m s).
Proof.
  assert (Hfb : forall t, capturedPieces t = capturedPieces s ->
            capturedPieces (setIsLoading false (Async.makeFallbackMoveAt O currentFen r t))
              = capturedPieces s \/
            exists m, capturedPieces
                        (setIsLoading false (Async.makeFallbackMoveAt O currentFen r t))
                      = capturedPieces (recordCapture m s)).
  { intros t Ht. state_simpl.
    destruct (makeFallbackMoveAt_outcome currentFen r t)
      as [[_ [_ [_ [Hc _]]]] | [txt [mv [f' [_ [_ [_ [_ [Hc _]]]]]]]]].
    - left. congruence.
    - right. exists mv. rewrite Hc. apply recordCapture_congr. exact Ht. }
  unfold Async.getAIMoveResume. destruct fetched as [raw | e].
  - destruct (validateAIMove O _ _) as [txt [[moveResult newFen] |]].
    + right. exists moveResult. rewrite gameEffects_capturedPieces. state_simpl.
      apply recordCapture_congr. reflexivity.
    + apply Hfb. reflexivity.
  - apply Hfb. reflexivity.
Qed.

(** The run of [getAIMove] in which nothing happens during the [await]. *)
Lemma getAIMove_uninterrupted (srv : Server) (lmStudioUrl : string)
  (modelId : option string) (r : Q) (s : State) :
  getAIMove O srv lmStudioUrl modelId r s =
  match Async.getAIMoveStart O s with
  | (s1, None) => s1
  | (s1, Some (currentFen, prompt)) =>
      Async.getAIMoveResume O currentFen
        (snd (fetchRawAIMove srv lmStudioUrl prompt modelId)) r s1
  end.
Proof.
  unfold getAIMove, Async.getAIMoveStart.
  destruct (orb _ _); [reflexivity |].
  unfold afterFetch, Async.getAIMoveResume.
  destruct (snd (fetchRawAIMove srv lmStudioUrl _ modelId)) as [raw | e]; reflexivity.
Qed.

End AIResumed.

(** X10.  [getAIMove] only ever installs positions the rules library
    produced.  Up to its [await] it touches neither the game object, the
    log, the cursor, the tallies nor the turn, and it sends a request
    exactly when it is the AI's turn in a running game.  When it is
    resumed, whatever the answer and whatever state the component has by
    then, the turn goes to the player and the loading indicator off;
    either the game object, the log, the cursor, the tallies and the last
    AI move stay as they are, or the position installed results from a
    text the rules library accepted on the position read before the
    request, and that text is recorded as the last AI move.  (That
    position is the current one when nothing happened in between, which
    is the run [getAIMove] describes.) *)
Theorem ai_installs_only_accepted_moves
  (O : RulesOracle) (currentFen : Fen) (fetched : string + string) (r : Q) (s : State) :
  let started := Async.getAIMoveStart O s in
  let s' := Async.getAIMoveResume O currentFen fetched r s in
  (game (fst started) = game s /\ gameStates (fst started) = gameStates s /\
   currentStateIndex (fst started) = currentStateIndex s /\
   capturedPieces (fst started) = capturedPieces s /\
   isPlayerTurn (fst started) = isPlayerTurn s) /\
  (snd started =
     if aiTurnTriggered O s
     then Some (ChessJS.fen (game s),
                aiPrompt (ChessJS.fen (game s)) (moves O (ChessJS.fen (game s))))
     else None) /\
  isPlayerTurn s' = true /\
  isLoading s' = false /\
  ((game s' = game s /\ gameStates s' = gameStates s /\
    currentStateIndex s' = currentStateIndex s /\
    capturedPieces s' = capturedPieces s /\ lastAIMove s' = lastAIMove s) \/
   (exists txt moveResult newFen,
      moveSan O currentFen txt = Some (moveResult, newFen) /\
      game s' = newChess newFen /\
      lastAIMove s' = txt)) /\
  (forall srv lmStudioUrl modelId,
     getAIMove O srv lmStudioUrl modelId r s =
     match started with
     | (s1, None) => s1
     | (s1, Some (position, prompt)) =>
         Async.getAIMoveResume O position
           (snd (fetchRawAIMove srv lmStudioUrl prompt modelId)) r s1
     end).
Proof.
  cbv zeta.
  split; [| split].
  { unfold Async.getAIMoveStart. destruct (orb _ _); state_simpl; cbn [fst];
      state_simpl; repeat split; reflexivity. }
  { unfold Async.getAIMoveStart, aiTurnTriggered.
    destruct (isGameOver O (ChessJS.fen (game s))), (isPlayerTurn s); reflexivity. }
  assert (Hfb : forall t, game t = game s -> gameStates t = gameStates s ->
            currentStateIndex t = currentStateIndex s ->
            capturedPieces t = capturedPieces s -> lastAIMove t = lastAIMove s ->
            let u := setIsLoading false (Async.makeFallbackMoveAt O currentFen r t) in
            isPlayerTurn u = true /\ isLoading u = false /\
            ((game u = game s /\ gameStates u = gameStates s /\
              currentStateIndex u = currentStateIndex s /\
              capturedPieces u = capturedPieces s /\ lastAIMove u = lastAIMove s) \/
             (exists txt moveResult newFen,
                moveSan O currentFen txt = Some (moveResult, newFen) /\
                game u = newChess newFen /\ lastAIMove u = txt))).
  { intros t Hg Hst Hi Hc Hl u. subst u.
    split; [| split; [reflexivity |]]; state_simpl;
      destruct (makeFallbackMoveAt_outcome O currentFen r t)
        as [[Hg' [Hst' [Hi' [Hc' [Hl' Hp']]]]] | [txt [mv [f' [_ [Hm [Hg' [Hl' [Hc' Hp']]]]]]]]];
      try exact Hp'.
    - left. rewrite Hg', Hst', Hi', Hc', Hl'. auto.
    - right. exists txt, mv, f'. auto. }
  split; [| split; [| split]].
  - unfold Async.getAIMoveResume. destruct fetched as [raw | e].
    + destruct (validateAIMove O currentFen (cleanAIMoveText raw))
        as [txt [[moveResult newFen] |]].
      * rewrite gameEffects_isPlayerTurn. reflexivity.
      * apply Hfb; reflexivity.
    + apply Hfb; reflexivity.
  - unfold Async.getAIMoveResume. destruct fetched as [raw | e].
    + destruct (validateAIMove O currentFen (cleanAIMoveText raw))
        as [txt [[moveResult newFen] |]].
      * rewrite gameEffects_isLoading. reflexivity.
      * apply Hfb; reflexivity.
    + apply Hfb; reflexivity.
  - unfold Async.getAIMoveResume. destruct fetched as [raw | e].
    + destruct (validateAIMove O currentFen (cleanAIMoveText raw))
        as [txt [[moveResult newFen] |]] eqn:Ev.
      * right. exists txt, moveResult, newFen.
        apply validateAIMove_sound in Ev.
        rewrite gameEffects_game, gameEffects_lastAIMove.
        state_simpl. repeat split; try reflexivity. exact Ev.
      * apply Hfb; reflexivity.
    + apply Hfb; reflexivity.
  - intros srv lmStudioUrl modelId. apply getAIMove_uninterrupted.
Qed.

Lemma ai_installs_only_accepted_moves_witness :
  let undone := undoMove Example.oracle
                  (fst (Async.getAIMoveStart Example.oracle Example.afterKg2)) in
  let s' := Async.getAIMoveResume Example.oracle Example.posB (inl "Nf3.") (1 # 2) undone in
  isPlayerTurn s' = true /\ isLoading s' = false /\
  game s' = newChess Example.posC.
Proof.
  cbv zeta.
  destruct (ai_installs_only_accepted_moves Example.oracle Example.posB (inl "Nf3.") (1 # 2)
              (undoMove Example.oracle
                 (fst (Async.getAIMoveStart Example.oracle Example.afterKg2))))
    as [_ [_ [Ht [Hl _]]]].
  split; [exact Ht |]. split; [exact Hl |]. vm_compute. reflexivity.
Defined.

(** An undo during the request.  In the example game, after White's Kg2,
    the request goes out on the position with Black to move; the player
    undoes Kg2 before the answer is there; the answer Nf3 is then
    validated on the position of the request and installed on top of the
    restored one, where the rules library does not accept it. *)
Example undo_during_request :
  let started := Async.getAIMoveStart Example.oracle Example.afterKg2 in
  let undone := undoMove Example.oracle (fst started) in
  let s' := Async.getAIMoveResume Example.oracle Example.posB (inl "Nf3.") (1 # 2) undone in
  snd started
    = Some (Example.posB, aiPrompt Example.posB (moves Example.oracle Example.posB)) /\
  ChessJS.fen (game undone) = Example.posA /\
  moveSan Example.oracle Example.posA "Nf3" = None /\
  ChessJS.fen (game s') = Example.posC /\
  gameStates s' = [Example.posA; Example.posC] /\
  lastAIMove s' = "Nf3" /\ isPlayerTurn s' = true.
Proof. vm_compute. repeat split; reflexivity. Qed.

(** The remote source being silent, Black's reply in the example game
    comes from the fallback and is a legal knight move. *)
Example ai_fallback_reply :
  let s' := getAIMove Example.oracle Example.offline Example.localUrl None (0 # 1)
              Example.afterKg2 in
  lastAIMove s' = "Ne6" /\ aiMoveSource s' = "Smart Fallback" /\
  isPlayerTurn s' = true /\ isLoading s' = false.
Proof. vm_compute. repeat split; reflexivity. Qed.

(** X11.  On a non-empty list of legal notations the fallback selection
    always yields one of them, and the quality label and rationale say
    what was drawn: a notation with [+] under "Puts king in check"
    (excellent); with no such notation in the list, one with [x] under
    "Captures a piece" (good); failing that, one with [=] under "Promotes a
    pawn" (excellent); failing that, a knight or bishop move under
    "Develops a piece" (good); and only when all four buckets are empty an
    arbitrary move under "Basic move selection" (fair). *)
Theorem fallback_choice_is_legal_and_labelled (legalMoves : list string) (r : Q) :
  (0 <= r)%Q -> (r < 1)%Q -> legalMoves <> [] ->
  let choice := selectFallback legalMoves r in
  exists m,
    selectedMove choice = Some m /\ In m legalMoves /\
    ((JS.includes "+" m = true /\
      fbQuality choice = excellent /\ fbThinking choice = "Fallback: Puts king in check.") \/
     (checkMoves legalMoves = [] /\ JS.includes "x" m = true /\
      fbQuality choice = good /\ fbThinking choice = "Fallback: Captures a piece.") \/
     (checkMoves legalMoves = [] /\ captureMoves legalMoves = [] /\
      JS.includes "=" m = true /\
      fbQuality choice = excellent /\ fbThinking choice = "Fallback: Promotes a pawn.") \/
     (checkMoves legalMoves = [] /\ captureMoves legalMoves = [] /\
      promotionMoves legalMoves = [] /\
      orb (JS.startsWith "N" m) (JS.startsWith "B" m) = true /\
      fbQuality choice = good /\ fbThinking choice = "Fallback: Develops a piece.") \/
     (checkMoves legalMoves = [] /\ captureMoves legalMoves = [] /\
      promotionMoves legalMoves = [] /\ developingMoves legalMoves = [] /\
      fbQuality choice = fair /\ fbThinking choice = "Fallback: Basic move selection.")).
Proof.
  intros H0 H1 Hne. cbv zeta.
  destruct (selectFallback_bucket legalMoves r H0 H1 Hne)
    as [m [Hsel [Hin [Hk [Hc [Hp Hd]]]]]].
  exists m. split; [exact Hsel |]. split; [exact Hin |].
  unfold selectFallback.
  destruct (0 <? JS.len (checkMoves legalMoves))%Z eqn:Ek.
  { left. apply len_pos_iff in Ek. specialize (Hk Ek).
    unfold checkMoves in Hk. apply filter_In in Hk. cbn. tauto. }
  apply len_pos_false in Ek. right.
  destruct (0 <? JS.len (captureMoves legalMoves))%Z eqn:Ec.
  { left. apply len_pos_iff in Ec. specialize (Hc Ek Ec).
    unfold captureMoves in Hc. apply filter_In in Hc. cbn. tauto. }
  apply len_pos_false in Ec. right.
  destruct (0 <? JS.len (promotionMoves legalMoves))%Z eqn:Ep.
  { left. apply len_pos_iff in Ep. specialize (Hp Ek Ec Ep).
    unfold promotionMoves in Hp. apply filter_In in Hp. cbn. tauto. }
  apply len_pos_false in Ep. right.
  destruct (0 <? JS.len (developingMoves legalMoves))%Z eqn:Ed.
  { left. apply len_pos_iff in Ed. specialize (Hd Ek Ec Ep Ed).
    unfold developingMoves in Hd. apply filter_In in Hd.
    destruct Hd as [_ Hd]. apply andb_true_iff in Hd. cbn. tauto. }
  apply len_pos_false in Ed. right. cbn. tauto.
Qed.

Lemma fallback_choice_is_legal_and_labelled_witness :
  exists m,
    selectedMove (selectFallback ["a4"; "Kxf3"; "Kg3"] (3 # 4)) = Some m /\
    In m ["a4"; "Kxf3"; "Kg3"].
Proof.
  destruct (fallback_choice_is_legal_and_labelled ["a4"; "Kxf3"; "Kg3"] (3 # 4))
    as [m [Hsel [Hin _]]].
  - discriminate.
  - reflexivity.
  - discriminate.
  - exists m. split; assumption.
Defined.

(** ** The captured-piece tally *)

Import Tally.

Lemma PieceSymbol_eqb_eq (a c : PieceSymbol) : PieceSymbol_eqb a c = true <-> a = c.
Proof. destruct a, c; cbn; split; intro H; try reflexivity; discriminate. Qed.

Lemma PieceSymbol_eqb_refl (a : PieceSymbol) : PieceSymbol_eqb a a = true.
Proof. apply PieceSymbol_eqb_eq. reflexivity. Qed.

Lemma orderKey_pieceOrder (t : PieceSymbol) : orderKey t = pieceOrder t.
Proof. destruct t; reflexivity. Qed.

Lemma pieceOrder_inj (a c : PieceSymbol) : pieceOrder a = pieceOrder c -> a = c.
Proof. destruct a, c; cbn; intro H; try reflexivity; discriminate. Qed.

Lemma insertByOrder_perm (e : CapturedEntry) (l : list CapturedEntry) :
  Permutation (insertByOrder e l) (e :: l).
Proof.
  induction l as [| x l IH]; [reflexivity |].
  cbn [insertByOrder]. destruct (_ <? 0)%Z; [reflexivity |].
  rewrite IH. apply perm_swap.
Qed.

Lemma insertByOrder_sorted (e : CapturedEntry) (l : list CapturedEntry) :
  StronglySorted byOrder l -> StronglySorted byOrder (insertByOrder e l).
Proof.
  induction l as [| x l IH]; intro Hs.
  - cbn. constructor; constructor.
  - cbn [insertByOrder]. rewrite !orderKey_pieceOrder.
    inversion Hs as [| x' l' Hs' Hall]; subst.
    destruct (Z.ltb_spec (pieceOrder (type e) - pieceOrder (type x)) 0) as [Hlt | Hge].
    + constructor; [exact Hs |]. constructor; [unfold byOrder; lia |].
      eapply Forall_impl; [| exact Hall]. unfold byOrder. intros a Ha. lia.
    + constructor; [apply IH; exact Hs' |].
      eapply Permutation_Forall; [symmetry; apply insertByOrder_perm |].
      constructor; [unfold byOrder; lia | exact Hall].
Qed.

Lemma sortByOrder_acc (l acc : list CapturedEntry) :
  StronglySorted byOrder acc ->
  StronglySorted byOrder (fold_left (fun a e => insertByOrder e a) l acc) /\
  Permutation (fold_left (fun a e => insertByOrder e a) l acc) (l ++ acc)%list.
Proof.
  revert acc. induction l as [| x l IH]; intros acc Hacc.
  - split; [exact Hacc | reflexivity].
  - cbn [fold_left]. destruct (IH _ (insertByOrder_sorted x acc Hacc)) as [Hs Hp].
    split; [exact Hs |]. rewrite Hp, insertByOrder_perm.
    cbn. symmetry. apply Permutation_middle.
Qed.

Lemma sortByOrder_sorted (l : list CapturedEntry) : StronglySorted byOrder (sortByOrder l).
Proof. apply sortByOrder_acc. constructor. Qed.

Lemma sortByOrder_perm (l : list CapturedEntry) : Permutation (sortByOrder l) l.
Proof.
  unfold sortByOrder. destruct (sortByOrder_acc l []) as [_ Hp]; [constructor |].
  rewrite Hp, app_nil_r. reflexivity.
Qed.

Lemma countOf_perm (t : PieceSymbol) (l l' : list CapturedEntry) :
  Permutation l l' -> countOf t l = countOf t l'.
Proof.
  induction 1; cbn [countOf]; lia.
Qed.

Lemma countOf_app (t : PieceSymbol) (l l' : list CapturedEntry) :
  countOf t (l ++ l')%list = (countOf t l + countOf t l')%Z.
Proof. induction l as [| e l IH]; cbn [countOf app]; lia. Qed.

Lemma countOf_bumpFirst (t t' : PieceSymbol) (l : list CapturedEntry) :
  hasType t l = true ->
  countOf t' (bumpFirst t l)
  = (countOf t' l + if PieceSymbol_eqb t t' then 1 else 0)%Z.
Proof.
  unfold hasType. induction l as [| e l IH]; [discriminate |].
  cbn [existsb bumpFirst]. destruct (PieceSymbol_eqb (type e) t) eqn:Ee.
  - intros _. apply PieceSymbol_eqb_eq in Ee. cbn [countOf type count]. rewrite Ee.
    destruct (PieceSymbol_eqb t t'); lia.
  - cbn [orb]. intro H. cbn [countOf]. rewrite (IH H). lia.
Qed.

Lemma kinds_bumpFirst (t : PieceSymbol) (l : list CapturedEntry) :
  kinds (bumpFirst t l) = kinds l.
Proof.
  unfold kinds. induction l as [| e l IH]; [reflexivity |].
  cbn [bumpFirst]. destruct (PieceSymbol_eqb (type e) t); cbn; [| rewrite IH]; reflexivity.
Qed.

Lemma positive_bumpFirst (t : PieceSymbol) (l : list CapturedEntry) :
  Forall (fun e => (1 <= count e)%Z) l ->
  Forall (fun e => (1 <= count e)%Z) (bumpFirst t l).
Proof.
  induction 1 as [| e l He Hl IH]; [constructor |].
  cbn [bumpFirst]. destruct (PieceSymbol_eqb (type e) t).
  - constructor; [cbn; lia | exact Hl].
  - constructor; assumption.
Qed.

Lemma hasType_false_kinds (t : PieceSymbol) (l : list CapturedEntry) :
  hasType t l = false -> ~ In t (kinds l).
Proof.
  unfold hasType, kinds. induction l as [| e l IH]; [intros _ []|].
  cbn [existsb map]. intro H. apply orb_false_iff in H. destruct H as [He Hl].
  intros [Hin | Hin]; [| exact (IH Hl Hin)].
  rewrite Hin, PieceSymbol_eqb_refl in He. discriminate.
Qed.

Lemma countOf_tallyAdd (t t' : PieceSymbol) (l : list CapturedEntry) :
  countOf t' (tallyAdd t l)
  = (countOf t' l + if PieceSymbol_eqb t t' then 1 else 0)%Z.
Proof.
  unfold tallyAdd. rewrite (countOf_perm t' _ _ (sortByOrder_perm _)).
  destruct (hasType t l) eqn:Eh.
  - apply countOf_bumpFirst. exact Eh.
  - rewrite countOf_app. cbn [countOf type count]. lia.
Qed.

Lemma tallyAdd_shape (t : PieceSymbol) (l : list CapturedEntry) :
  StronglySorted byOrder (tallyAdd t l) /\
  (NoDup (kinds l) -> NoDup (kinds (tallyAdd t l))) /\
  (Forall (fun e => (1 <= count e)%Z) l ->
     Forall (fun e => (1 <= count e)%Z) (tallyAdd t l)) /\
  length (tallyAdd t l) = (if hasType t l then length l else S (length l)).
Proof.
  unfold tallyAdd.
  split; [apply sortByOrder_sorted |].
  set (u := if hasType t l then bumpFirst t l
            else (l ++ [{| type := t; count := 1 |}])%list).
  pose proof (sortByOrder_perm u) as Hp.
  split; [| split].
  - intro Hnd. unfold kinds.
    apply (Permutation_NoDup (l := map type u));
      [apply Permutation_map; symmetry; exact Hp |].
    subst u. destruct (hasType t l) eqn:Eh.
    + change (NoDup (kinds (bumpFirst t l))). rewrite kinds_bumpFirst. exact Hnd.
    + rewrite map_app. cbn [map type].
      apply (Permutation_NoDup (l := t :: map type l));
        [apply Permutation_cons_append |].
      constructor; [exact (hasType_false_kinds t l Eh) | exact Hnd].
  - intro Hpos. eapply Permutation_Forall; [symmetry; exact Hp |].
    subst u. destruct (hasType t l).
    + apply positive_bumpFirst. exact Hpos.
    + apply Forall_app. split; [exact Hpos |]. constructor; [cbn; lia | constructor].
  - rewrite (Permutation_length Hp). subst u. destruct (hasType t l).
    + pose proof (f_equal (@length _) (kinds_bumpFirst t l)) as H.
      unfold kinds in H. rewrite !length_map in H. exact H.
    + rewrite length_app. cbn [length]. lia.
Qed.

(** Two captures of a knight and one of a queen, in that order. *)
Example tally_run :
  tallyAdd Knight (tallyAdd Queen (tallyAdd Knight []))
  = [ {| type := Queen; count := 1 |}; {| type := Knight; count := 2 |} ].
Proof. reflexivity. Qed.

Lemma tallyAdd_wellFormed (t : PieceSymbol) (l : list CapturedEntry) :
  wellFormed l -> wellFormed (tallyAdd t l).
Proof.
  intros [_ [Hnd Hpos]]. destruct (tallyAdd_shape t l) as [Hs [Hn [Hp _]]].
  repeat split; auto.
Qed.

Lemma invoke_other (runs : nat) (pc : Piece) (prev : CapturedPieces) :
  match pcolor pc with
  | White => b (Updater.invoke runs pc prev) = b prev
  | Black => w (Updater.invoke runs pc prev) = w prev
  end.
Proof.
  revert prev. induction runs as [| k IH]; intro prev; cbn [Updater.invoke].
  - destruct (pcolor pc); reflexivity.
  - specialize (IH (fst (Updater.capturedUpdater pc prev))).
    unfold Updater.capturedUpdater in *. cbn [fst] in *.
    destruct (pcolor pc); cbn [w b] in IH; exact IH.
Qed.

Lemma invoke_mine (runs : nat) (pc : Piece) (prev : CapturedPieces) :
  match pcolor pc with
  | White => w (Updater.invoke runs pc prev) = Nat.iter runs (tallyAdd (ptype pc)) (w prev)
  | Black => b (Updater.invoke runs pc prev) = Nat.iter runs (tallyAdd (ptype pc)) (b prev)
  end.
Proof.
  revert prev. induction runs as [| k IH]; intro prev.
  - cbn. destruct (pcolor pc); reflexivity.
  - cbn [Updater.invoke]. specialize (IH (fst (Updater.capturedUpdater pc prev))).
    unfold Updater.capturedUpdater in *. cbn [fst] in *.
    destruct (pcolor pc); cbn [w b] in IH; rewrite IH;
      symmetry; apply Nat.iter_succ_r.
Qed.

Lemma countOf_iter_tallyAdd (runs : nat) (t t' : PieceSymbol) (l : list CapturedEntry) :
  countOf t' (Nat.iter runs (tallyAdd t) l)
  = (countOf t' l + if PieceSymbol_eqb t t' then Z.of_nat runs else 0)%Z.
Proof.
  induction runs as [| k IH].
  - cbn. destruct (PieceSymbol_eqb t t'); lia.
  - rewrite Nat.iter_succ, countOf_tallyAdd, IH.
    destruct (PieceSymbol_eqb t t'); lia.
Qed.

Lemma iter_tallyAdd_wellFormed (runs : nat) (t : PieceSymbol) (l : list CapturedEntry) :
  wellFormed l -> wellFormed (Nat.iter runs (tallyAdd t) l).
Proof.
  intro H. induction runs as [| k IH]; [exact H |].
  rewrite Nat.iter_succ. apply tallyAdd_wellFormed. exact IH.
Qed.

Lemma hasType_iff_kinds (t : PieceSymbol) (l : list CapturedEntry) :
  hasType t l = true <-> In t (kinds l).
Proof.
  unfold hasType, kinds. rewrite existsb_exists, in_map_iff. split.
  - intros [x [Hx Hxt]]. exists x. apply PieceSymbol_eqb_eq in Hxt. auto.
  - intros [x [Hxt Hx]]. exists x. split; [exact Hx |].
    apply PieceSymbol_eqb_eq. exact Hxt.
Qed.

Lemma hasType_tallyAdd (t : PieceSymbol) (l : list CapturedEntry) :
  hasType t (tallyAdd t l) = true.
Proof.
  apply hasType_iff_kinds. unfold tallyAdd, kinds.
  eapply Permutation_in; [apply Permutation_map; symmetry; apply sortByOrder_perm |].
  destruct (hasType t l) eqn:El.
  - change (In t (kinds (bumpFirst t l))). rewrite kinds_bumpFirst.
    apply hasType_iff_kinds. exact El.
  - rewrite map_app. apply in_or_app. right. left. reflexivity.
Qed.

(** X12.  [addCapturedPiece] records the piece once for every invocation
    of its updater.  With [runs] invocations in a row on the same
    previous value (one, or two where the framework double-invokes
    updaters) the count of the captured kind, in the tally of the
    captured piece's colour, goes up by [runs] and every other count
    stays; the tally of the other colour is untouched; after at least
    one invocation that tally is in display order (queen, rook, bishop,
    knight, pawn, king) and holds the kind, in one entry more than before
    exactly when the kind is new; one entry per kind and counts of at
    least one are preserved.  A single invocation is [addCapturedPiece]
    as the handlers use it. *)
Theorem addCapturedPiece_counts_each_invocation (runs : nat) (pc : Piece) (s : State) :
  let before := capturedPieces s in
  let after := capturedPieces (Updater.addCapturedPieceRuns runs pc s) in
  let mine (c : CapturedPieces) := match pcolor pc with White => w c | Black => b c end in
  let other (c : CapturedPieces) := match pcolor pc with White => b c | Black => w c end in
  Updater.addCapturedPieceRuns 1 pc s = addCapturedPiece pc s /\
  (forall t, countOf t (mine after)
             = (countOf t (mine before)
                + if PieceSymbol_eqb (ptype pc) t then Z.of_nat runs else 0)%Z) /\
  other after = other before /\
  (wellFormed (mine before) -> wellFormed (mine after)) /\
  ((1 <= runs)%nat ->
     StronglySorted byOrder (mine after) /\
     hasType (ptype pc) (mine after) = true /\
     length (mine after)
     = (if hasType (ptype pc) (mine before) then length (mine before)
        else S (length (mine before)))).
Proof.
  cbv zeta. unfold Updater.addCapturedPieceRuns. state_simpl.
  pose proof (invoke_mine runs pc (capturedPieces s)) as Hm.
  pose proof (invoke_other runs pc (capturedPieces s)) as Ho.
  split.
  { unfold addCapturedPiece. cbn [Updater.invoke Updater.capturedUpdater fst].
    destruct (pcolor pc); reflexivity. }
  assert (Hlen : forall k t l,
            length (Nat.iter (S k) (tallyAdd t) l)
            = (if hasType t l then length l else S (length l))).
  { induction k as [| k IH]; intros t l.
    - cbn [Nat.iter nat_rect]. apply tallyAdd_shape.
    - change (Nat.iter (S (S k)) (tallyAdd t) l)
        with (tallyAdd t (Nat.iter (S k) (tallyAdd t) l)).
      destruct (tallyAdd_shape t (Nat.iter (S k) (tallyAdd t) l)) as [_ [_ [_ ->]]].
      change (Nat.iter (S k) (tallyAdd t) l)
        with (tallyAdd t (Nat.iter k (tallyAdd t) l)) at 1.
      rewrite hasType_tallyAdd. apply IH. }
  destruct (pcolor pc); rewrite Hm, Ho;
    (split; [intro t; apply countOf_iter_tallyAdd |]);
    (split; [reflexivity |]);
    (split; [apply iter_tallyAdd_wellFormed |]);
    (intro Hr; destruct runs as [| k]; [lia |]);
    (split; [rewrite Nat.iter_succ; apply tallyAdd_shape |]);
    (split; [rewrite Nat.iter_succ; apply hasType_tallyAdd | apply Hlen]).
Qed.

Lemma addCapturedPiece_counts_each_invocation_witness :
  countOf Knight
    (b (capturedPieces
          (Updater.addCapturedPieceRuns 2 {| ptype := Knight; pcolor := Black |}
             Example.afterKxf3))) = 3%Z.
Proof.
  destruct (addCapturedPiece_counts_each_invocation 2
              {| ptype := Knight; pcolor := Black |} Example.afterKxf3)
    as [_ [H _]].
  cbv zeta in H. cbn [pcolor ptype] in H. rewrite (H Knight). reflexivity.
Defined.

(** A knight taken once, recorded by an updater invoked once and by one
    invoked twice. *)
Example knight_counted_per_invocation :
  let pc := {| ptype := Knight; pcolor := Black |} in
  capturedPieces (Updater.addCapturedPieceRuns 1 pc Example.afterNf3)
    = {| w := []; b := [ {| type := Knight; count := 1 |} ] |} /\
  capturedPieces (Updater.addCapturedPieceRuns 2 pc Example.afterNf3)
    = {| w := []; b := [ {| type := Knight; count := 2 |} ] |}.
Proof. vm_compute. split; reflexivity. Qed.

Section TallyUnderPlay.

Variable O : RulesOracle.

Lemma getAIMove_tally (srv : Server) (lmStudioUrl : string)
  (modelId : option string) (r : Q) (s : State) :
  capturedPieces (getAIMove O srv lmStudioUrl modelId r s) = capturedPieces s \/
  exists m, capturedPieces (getAIMove O srv lmStudioUrl modelId r s)
            = capturedPieces (recordCapture m s).
Proof.
  unfold getAIMove. destruct (orb _ _); [left; reflexivity |].
  set (s1 := setMoveQuality None _).
  assert (Hfb : forall t, capturedPieces t = capturedPieces s ->
            capturedPieces (setIsLoading false (makeFallbackMove O r t)) = capturedPieces s \/
            exists m, capturedPieces (setIsLoading false (makeFallbackMove O r t))
                      = capturedPieces (recordCapture m s)).
  { intros t Ht. state_simpl.
    destruct (makeFallbackMove_outcome O r t)
      as [[_ [_ [_ [Hc _]]]] | [txt [mv [f' [_ [_ [_ [_ [Hc _]]]]]]]]].
    - left. congruence.
    - right. exists mv. rewrite Hc. apply recordCapture_congr. exact Ht. }
  unfold afterFetch.
  destruct (snd (fetchRawAIMove srv lmStudioUrl _ modelId)) as [raw | e].
  - destruct (validateAIMove O _ _) as [txt [[moveResult newFen] |]].
    + right. exists moveResult. rewrite gameEffects_capturedPieces. state_simpl.
      apply recordCapture_congr. reflexivity.
    + apply Hfb. reflexivity.
  - apply Hfb. reflexivity.
Qed.

Lemma play_tally (s s' : State) :
  play O s s' ->
  capturedPieces s' = capturedPieces s \/
  exists m, capturedPieces s' = capturedPieces (recordCapture m s).
Proof.
  intros [a c | k | srv url mid r | | f fetched r | |].
  - unfold onDrop. destruct (orb _ _); [left; reflexivity |].
    destruct (isPawnPromotion O s a c); [left; reflexivity |].
    destruct (moveFromTo O _ a c None) as [[move newFen] |]; [| left; reflexivity].
    right. exists move. cbn [fst]. rewrite gameEffects_capturedPieces. reflexivity.
  - left. unfold handlePromotion.
    destruct (promotionMove s) as [[fromSq toSq] |]; [| reflexivity].
    destruct (moveFromTo O _ fromSq toSq (Some k)) as [[move newFen] |]; [| reflexivity].
    rewrite gameEffects_capturedPieces. reflexivity.
  - apply getAIMove_tally.
  - left. unfold Async.getAIMoveStart. destruct (orb _ _); reflexivity.
  - apply getAIMoveResume_tally.
  - left. unfold undoMove. destruct (0 <? currentStateIndex s)%Z; [| reflexivity].
    rewrite gameEffects_capturedPieces. reflexivity.
  - left. unfold redoMove.
    destruct (currentStateIndex s <? JS.len (gameStates s) - 1)%Z; [| reflexivity].
    rewrite gameEffects_capturedPieces. reflexivity.
Qed.

Lemma recordCapture_counts (m : Move) (s : State) (t : PieceSymbol) :
  (countOf t (w (capturedPieces s)) <= countOf t (w (capturedPieces (recordCapture m s)))
   <= countOf t (w (capturedPieces s)) + 1)%Z /\
  (countOf t (b (capturedPieces s)) <= countOf t (b (capturedPieces (recordCapture m s)))
   <= countOf t (b (capturedPieces s)) + 1)%Z.
Proof.
  unfold recordCapture. destruct (captured m) as [c |]; [| lia].
  unfold addCapturedPiece. cbn [pcolor ptype].
  destruct (opposite (color m)); state_simpl; cbn [w b];
    rewrite countOf_tallyAdd; destruct (PieceSymbol_eqb c t); lia.
Qed.

Lemma recordCapture_wellFormed (m : Move) (s : State) :
  wellFormed (w (capturedPieces s)) /\ wellFormed (b (capturedPieces s)) ->
  wellFormed (w (capturedPieces (recordCapture m s))) /\
  wellFormed (b (capturedPieces (recordCapture m s))).
Proof.
  intros [Hw Hb]. unfold recordCapture. destruct (captured m) as [c |]; [| tauto].
  unfold addCapturedPiece. cbn [pcolor ptype].
  destruct (opposite (color m)); state_simpl; cbn [w b];
    split; auto using tallyAdd_wellFormed.
Qed.

End TallyUnderPlay.

(** X13.  The tallies are forward-only under play: a drop, a promotion
    choice, an AI turn (as a whole, or either half of one interrupted at
    its [await]), an undo or a redo never lowers the count of any kind in
    either tally.  Undo and redo, and the promotion choice even when it
    captures, leave the tallies as they are. *)
Theorem play_never_lowers_tally (O : RulesOracle) (s s' : State) :
  play O s s' ->
  (forall t,
     (countOf t (w (capturedPieces s)) <= countOf t (w (capturedPieces s')))%Z /\
     (countOf t (b (capturedPieces s)) <= countOf t (b (capturedPieces s')))%Z) /\
  capturedPieces (undoMove O s) = capturedPieces s /\
  capturedPieces (redoMove O s) = capturedPieces s /\
  (forall pieceType, capturedPieces (handlePromotion O pieceType s) = capturedPieces s).
Proof.
  intro Hp. pose proof (play_tally O s s' Hp) as Hc.
  split.
  - intro t. destruct Hc as [-> | [m ->]]; [lia |].
    pose proof (recordCapture_counts m s t). lia.
  - split; [| split].
    + unfold undoMove. destruct (0 <? currentStateIndex s)%Z; [| reflexivity].
      rewrite gameEffects_capturedPieces. reflexivity.
    + unfold redoMove.
      destruct (currentStateIndex s <? JS.len (gameStates s) - 1)%Z; [| reflexivity].
      rewrite gameEffects_capturedPieces. reflexivity.
    + intro k. unfold handlePromotion.
      destruct (promotionMove s) as [[fromSq toSq] |]; [| reflexivity].
      destruct (moveFromTo O _ fromSq toSq (Some k)) as [[move newFen] |]; [| reflexivity].
      rewrite gameEffects_capturedPieces. reflexivity.
Qed.

Lemma play_never_lowers_tally_witness :
  countOf Knight (b (capturedPieces Example.afterNf3)) = 0%Z /\
  countOf Knight (b (capturedPieces Example.afterKxf3)) = 1%Z /\
  (countOf Knight (b (capturedPieces Example.afterNf3))
   <= countOf Knight (b (capturedPieces Example.afterKxf3)))%Z.
Proof.
  split; [reflexivity |]. split; [reflexivity |].
  destruct (play_never_lowers_tally Example.oracle Example.afterNf3 Example.afterKxf3)
    as [H _].
  - unfold Example.afterKxf3. apply play_onDrop.
  - destruct (H Knight) as [_ Hlo]. exact Hlo.
Defined.

(** X14.  In every reachable state both tallies are well formed: in
    display order, one entry per kind, every count at least one. *)
Theorem reachable_tallies_well_formed (O : RulesOracle) (s : State) :
  reachable O s ->
  wellFormed (w (capturedPieces s)) /\ wellFormed (b (capturedPieces s)).
Proof.
  assert (Hempty : wellFormed []).
  { repeat split; constructor. }
  assert (Hplay : forall u u', play O u u' ->
            wellFormed (w (capturedPieces u)) /\ wellFormed (b (capturedPieces u)) ->
            wellFormed (w (capturedPieces u')) /\ wellFormed (b (capturedPieces u'))).
  { intros u u' Hp Hu. destruct (play_tally O u u' Hp) as [-> | [m ->]];
      [exact Hu | apply recordCapture_wellFormed; exact Hu]. }
  induction 1 as [| s a c _ IH | s k _ IH | s srv url mid r _ IH
                  | s _ IH | s _ IH | s _ IH | s f _ IH].
  - unfold mounted. rewrite gameEffects_capturedPieces. cbn. auto.
  - exact (Hplay _ _ (play_onDrop O s a c) IH).
  - exact (Hplay _ _ (play_handlePromotion O s k) IH).
  - exact (Hplay _ _ (play_getAIMove O s srv url mid r) IH).
  - exact (Hplay _ _ (play_undoMove O s) IH).
  - exact (Hplay _ _ (play_redoMove O s) IH).
  - unfold resetGame. rewrite gameEffects_capturedPieces. cbn. auto.
  - unfold loadGame. destruct (validFen O f); [| exact IH].
    rewrite gameEffects_capturedPieces. cbn. auto.
Qed.

Lemma reachable_tallies_well_formed_witness :
  wellFormed (b (capturedPieces Example.afterKxf3)).
Proof.
  apply (reachable_tallies_well_formed Example.oracle Example.afterKxf3).
  unfold Example.afterKxf3, Example.afterNf3, Example.afterKg2, Example.loaded.
  apply reach_onDrop, reach_getAIMove, reach_onDrop, reach_loadGame, reach_mounted.
Defined.

(** ** The state as a whole *)

Import Log.

Section Consistency.

Variable O : RulesOracle.

Lemma fen_historySyncEffect (t : State) :
  ChessGame.fen (historySyncEffect t) = ChessJS.fen (game t).
Proof.
  unfold historySyncEffect.
  destruct (currentStateIndex t =? -1)%Z; [reflexivity |].
  destruct (JS.index (gameStates t) (currentStateIndex t)) as [f |]; [| reflexivity].
  destruct (String.eqb f (ChessJS.fen (game t))); reflexivity.
Qed.

Lemma fen_gameEffects (t : State) :
  ChessGame.fen (gameEffects O t) = ChessJS.fen (game (gameEffects O t)).
Proof.
  rewrite gameEffects_game. unfold gameEffects, statusEffect. state_simpl.
  apply fen_historySyncEffect.
Qed.

Lemma board_makeFallbackMove (r : Q) (s : State) :
  ChessGame.fen s = ChessJS.fen (game s) ->
  ChessGame.fen (makeFallbackMove O r s) = ChessJS.fen (game (makeFallbackMove O r s)).
Proof.
  intro H. unfold makeFallbackMove.
  destruct (JS.len (moves O (ChessJS.fen (game s))) =? 0)%Z; [exact H |].
  destruct (applySelected O _ _) as [[moveResult newFen] |]; [| exact H].
  apply fen_gameEffects.
Qed.

Lemma board_reachable (s : State) :
  reachable O s -> ChessGame.fen s = ChessJS.fen (game s).
Proof.
  induction 1 as [| s a c _ IH | s k _ IH | s srv url mid r _ IH
                  | s _ IH | s _ IH | s _ IH | s f _ IH].
  - apply fen_gameEffects.
  - unfold onDrop. destruct (orb _ _); [exact IH |].
    destruct (isPawnPromotion O s a c); [exact IH |].
    destruct (moveFromTo O _ a c None) as [[move newFen] |]; [| exact IH].
    apply fen_gameEffects.
  - unfold handlePromotion.
    destruct (promotionMove s) as [[fromSq toSq] |]; [| exact IH].
    destruct (moveFromTo O _ fromSq toSq (Some k)) as [[move newFen] |]; [| exact IH].
    apply fen_gameEffects.
  - unfold getAIMove. destruct (orb _ _); [exact IH |].
    unfold afterFetch.
    destruct (snd (fetchRawAIMove srv url _ mid)) as [raw | e].
    + destruct (validateAIMove O _ _) as [txt [[moveResult newFen] |]].
      * apply fen_gameEffects.
      * state_simpl. apply board_makeFallbackMove. exact IH.
    + state_simpl. apply board_makeFallbackMove. exact IH.
  - unfold undoMove. destruct (0 <? currentStateIndex s)%Z; [| exact IH].
    apply fen_gameEffects.
  - unfold redoMove.
    destruct (currentStateIndex s <? JS.len (gameStates s) - 1)%Z; [| exact IH].
    apply fen_gameEffects.
  - apply fen_gameEffects.
  - unfold loadGame. destruct (validFen O f); [| exact IH]. apply fen_gameEffects.
Qed.

(** *** The log holds no position twice in a row *)

Lemma noRepeat_single (f : Fen) : noRepeat [f].
Proof. intros [| i] a c Ha Hc; cbn in Hc; [discriminate | destruct i; discriminate]. Qed.

Lemma noRepeat_cut_append (st : list Fen) (n : nat) (f0 f : Fen) :
  noRepeat st -> nth_error st n = Some f0 -> f0 <> f ->
  noRepeat (firstn (S n) st ++ [f])%list.
Proof.
  intros Hst Hn Hne i a c Ha Hc.
  assert (Hb : (n < length st)%nat) by (apply nth_error_Some; congruence).
  assert (Hl : length (firstn (S n) st) = S n) by (rewrite length_firstn; lia).
  destruct (Nat.lt_ge_cases (S i) (S n)) as [Hlt | Hge].
  - rewrite nth_error_app1, nth_error_firstn in Ha, Hc by lia.
    destruct (Nat.ltb_spec i (S n)); [| lia].
    destruct (Nat.ltb_spec (S i) (S n)); [| lia].
    exact (Hst i a c Ha Hc).
  - destruct (Nat.eq_dec i n) as [-> | Hin].
    + rewrite nth_error_app1, nth_error_firstn in Ha by lia.
      destruct (Nat.ltb_spec n (S n)); [| lia].
      rewrite nth_error_app2, Hl, Nat.sub_diag in Hc by lia.
      cbn in Hc. congruence.
    + assert (Hnone : nth_error (firstn (S n) st ++ [f])%list (S i) = None).
      { apply nth_error_None. rewrite length_app, Hl. cbn [length]. lia. }
      congruence.
Qed.

Lemma noRepeat_gameEffects (t : State) :
  currentStateIndex t = (-1)%Z \/
  (exists n f0, currentStateIndex t = Z.of_nat n /\ nth_error (gameStates t) n = Some f0) ->
  noRepeat (gameStates t) ->
  noRepeat (gameStates (gameEffects O t)).
Proof.
  intros [Hempty | [n [f0 [Hidx Hn]]]] Hst.
  - destruct (sync_init O t Hempty) as [-> _]. apply noRepeat_single.
  - assert (Hcur : cursorEntry t = Some f0).
    { unfold cursorEntry. rewrite Hidx, index_of_nat. exact Hn. }
    destruct (String.eqb_spec f0 (ChessJS.fen (game t))) as [E | NE].
    + rewrite E in Hcur. destruct (sync_noop O t Hcur) as [-> _]. exact Hst.
    + assert (Hi : currentStateIndex t <> (-1)%Z) by lia.
      assert (Hc : cursorEntry t <> Some (ChessJS.fen (game t))) by congruence.
      destruct (sync_append O t Hi Hc) as [-> _].
      rewrite Hidx. replace (Z.of_nat n + 1)%Z with (Z.of_nat (S n)) by lia.
      rewrite slice0_of_nat. apply noRepeat_cut_append with (f0 := f0); assumption.
Qed.

Lemma noRepeat_makeFallbackMove (r : Q) (s : State) :
  Inv s -> noRepeat (gameStates s) ->
  noRepeat (gameStates (makeFallbackMove O r s)).
Proof.
  intros HI H. destruct (Inv_Store s HI) as [n [_ [Hidx [_ Hn]]]].
  unfold makeFallbackMove.
  destruct (JS.len (moves O (ChessJS.fen (game s))) =? 0)%Z; [exact H |].
  destruct (applySelected O _ _) as [[moveResult newFen] |]; [| exact H].
  apply noRepeat_gameEffects; state_simpl.
  - right. exists n, (ChessJS.fen (game s)).
    destruct (recordCapture_frame moveResult
                (setGameStatus "AI using fallback strategy..."
                   (setAiMoveSource "Smart Fallback" s)))
      as [_ [_ [-> [-> _]]]]. state_simpl. auto.
  - destruct (recordCapture_frame moveResult
                (setGameStatus "AI using fallback strategy..."
                   (setAiMoveSource "Smart Fallback" s)))
      as [_ [_ [-> _]]]. exact H.
Qed.

Lemma noRepeat_reachable (s : State) :
  reachable O s -> noRepeat (gameStates s).
Proof.
  induction 1 as [| s a c Hr IH | s k Hr IH | s srv url mid r Hr IH
                  | s Hr IH | s Hr IH | s Hr IH | s f Hr IH].
  - apply noRepeat_gameEffects; [left; reflexivity | intros [|i] ? ? Ha; discriminate].
  - pose proof (reachable_Inv O s Hr) as HI.
    destruct (Inv_Store s HI) as [n [_ [Hidx [_ Hn]]]].
    unfold onDrop. destruct (orb _ _); [exact IH |].
    destruct (isPawnPromotion O s a c); [exact IH |].
    destruct (moveFromTo O _ a c None) as [[move newFen] |]; [| exact IH].
    cbn [fst]. destruct (recordCapture_frame move s) as [_ [_ [Hst [Hi _]]]].
    apply noRepeat_gameEffects; state_simpl; rewrite ?Hst, ?Hi; [| exact IH].
    right. exists n, (ChessJS.fen (game s)). auto.
  - pose proof (reachable_Inv O s Hr) as HI.
    destruct (Inv_Store s HI) as [n [_ [Hidx [_ Hn]]]].
    unfold handlePromotion.
    destruct (promotionMove s) as [[fromSq toSq] |]; [| exact IH].
    destruct (moveFromTo O _ fromSq toSq (Some k)) as [[move newFen] |]; [| exact IH].
    apply noRepeat_gameEffects; state_simpl; [| exact IH].
    right. exists n, (ChessJS.fen (game s)). auto.
  - pose proof (reachable_Inv O s Hr) as HI.
    destruct (Inv_Store s HI) as [n [_ [Hidx [_ Hn]]]].
    unfold getAIMove. destruct (orb _ _); [exact IH |].
    set (s1 := setMoveQuality None _).
    assert (HI1 : Inv s1) by (revert HI; apply Inv_frame; reflexivity).
    unfold afterFetch.
    destruct (snd (fetchRawAIMove srv url _ mid)) as [raw | e].
    + destruct (validateAIMove O _ _) as [txt [[moveResult newFen] |]].
      * destruct (recordCapture_frame moveResult (setAiMoveSource "LM Studio" s1))
          as [_ [_ [Hst [Hi _]]]].
        apply noRepeat_gameEffects; state_simpl; rewrite ?Hst, ?Hi; [| exact IH].
        right. exists n, (ChessJS.fen (game s)). auto.
      * state_simpl. apply noRepeat_makeFallbackMove; assumption.
    + state_simpl. apply noRepeat_makeFallbackMove; [| exact IH].
      revert HI1. apply Inv_frame; reflexivity.
  - pose proof (reachable_Inv O s Hr) as HI.
    destruct (Inv_Store s HI) as [n Hs].
    destruct n as [| m]; [rewrite (undo_at_zero O _ _ _ Hs); exact IH |].
    pose proof (Store_bound _ _ _ _ Hs) as Hb.
    destruct (nth_error (gameStates s) m) as [q |] eqn:Eq;
      [| apply nth_error_None in Eq; lia].
    destruct (undo_Store O _ _ _ _ _ Hs Eq) as [-> _]. exact IH.
  - pose proof (reachable_Inv O s Hr) as HI.
    destruct (Inv_Store s HI) as [n Hs].
    destruct (nth_error (gameStates s) (S n)) as [q |] eqn:Eq.
    + destruct (redo_Store O _ _ _ _ _ Hs Eq) as [-> _]. exact IH.
    + apply nth_error_None in Eq. pose proof (Store_bound _ _ _ _ Hs) as Hb.
      assert (Htip : S n = length (gameStates s)) by lia.
      destruct (redo_at_tip O _ _ _ _ Hs Htip) as [_ ->]. exact IH.
  - unfold resetGame. apply noRepeat_gameEffects; state_simpl.
    + right. exists 0%nat, DEFAULT_POSITION. auto.
    + apply noRepeat_single.
  - unfold loadGame. destruct (validFen O f); [| exact IH].
    apply noRepeat_gameEffects; state_simpl.
    + right. exists 0%nat, f. auto.
    + apply noRepeat_single.
Qed.

End Consistency.

(** X15.  The data-model invariant.  In every reachable state the cursor
    is inside the log, the entry under it is the live position, the board
    shows the live position, the game object is a fresh object on that
    position, and the displayed move list is empty (it is rebuilt from
    the object's own history, which a fresh object does not have). *)
Theorem reachable_state_is_consistent (O : RulesOracle) (s : State) :
  reachable O s ->
  (0 <= currentStateIndex s < JS.len (gameStates s))%Z /\
  cursorEntry s = Some (ChessJS.fen (game s)) /\
  ChessGame.fen s = ChessJS.fen (game s) /\
  game s = newChess (ChessJS.fen (game s)) /\
  moveHistory s = [].
Proof.
  intro Hr. destruct (reachable_Inv O s Hr) as [Hh [Hm [Hb Hc]]].
  split; [exact Hb |]. split; [exact Hc |].
  split; [exact (board_reachable O s Hr) |]. split; [| exact Hm].
  destruct (game s) as [f h]. cbn in Hh. subst h. reflexivity.
Qed.

Lemma reachable_state_is_consistent_witness :
  moveHistory Example.afterKxf3 = [] /\
  ChessGame.fen Example.afterKxf3 = Example.posD.
Proof.
  destruct (reachable_state_is_consistent Example.oracle Example.afterKxf3)
    as [_ [_ [Hf [_ Hm]]]].
  - unfold Example.afterKxf3, Example.afterNf3, Example.afterKg2, Example.loaded.
    apply reach_onDrop, reach_getAIMove, reach_onDrop, reach_loadGame, reach_mounted.
  - split; [exact Hm | rewrite Hf; reflexivity].
Defined.

(** X16.  The log of a reachable state never holds the same position
    twice in a row; hence an undo that is available restores a position
    different from the current one, and so does a redo. *)
Theorem undo_and_redo_change_the_position (O : RulesOracle) (s : State) :
  reachable O s ->
  noRepeat (gameStates s) /\
  (canUndo s = true ->
     ChessJS.fen (game (undoMove O s)) <> ChessJS.fen (game s)) /\
  (canRedo s = true ->
     ChessJS.fen (game (redoMove O s)) <> ChessJS.fen (game s)).
Proof.
  intro Hr. pose proof (noRepeat_reachable O s Hr) as Hnr.
  pose proof (reachable_Inv O s Hr) as HI.
  destruct (Inv_Store s HI) as [n Hs].
  pose proof (Store_bound _ _ _ _ Hs) as Hb.
  split; [exact Hnr |]. split.
  - intro Hu. unfold canUndo in Hu. destruct Hs as [Hst [Hidx [Hf Hn]]].
    rewrite Hidx in Hu. destruct n as [| m]; [discriminate |].
    destruct (nth_error (gameStates s) m) as [q |] eqn:Eq;
      [| apply nth_error_None in Eq; lia].
    destruct (undo_Store O s (gameStates s) m (ChessJS.fen (game s)) q) as [_ [_ [-> _]]];
      [repeat split; assumption | exact Eq |].
    exact (Hnr m _ _ Eq Hn).
  - intro Hre. unfold canRedo, JS.len in Hre. destruct Hs as [Hst [Hidx [Hf Hn]]].
    rewrite Hidx in Hre. apply Z.ltb_lt in Hre.
    destruct (nth_error (gameStates s) (S n)) as [q |] eqn:Eq;
      [| apply nth_error_None in Eq; lia].
    destruct (redo_Store O s (gameStates s) n (ChessJS.fen (game s)) q) as [_ [_ [-> _]]];
      [repeat split; assumption | exact Eq |].
    intro E. exact (Hnr n _ _ Hn Eq (eq_sym E)).
Qed.

Lemma undo_and_redo_change_the_position_witness :
  ChessJS.fen (game (undoMove Example.oracle Example.afterKxf3))
  <> ChessJS.fen (game Example.afterKxf3).
Proof.
  destruct (undo_and_redo_change_the_position Example.oracle Example.afterKxf3)
    as [_ [Hu _]].
  - unfold Example.afterKxf3, Example.afterNf3, Example.afterKg2, Example.loaded.
    apply reach_onDrop, reach_getAIMove, reach_onDrop, reach_loadGame, reach_mounted.
  - apply Hu. reflexivity.
Defined.

(** X17.  Undo and redo are inverse to each other on the position, the
    cursor and the log: in a reachable state, an available undo followed
    by redo, or an available redo followed by undo, brings back the same
    game object, cursor and snapshots, with the tallies untouched. *)
Theorem undo_redo_inverse (O : RulesOracle) (s : State) :
  reachable O s ->
  (canUndo s = true ->
     game (redoMove O (undoMove O s)) = game s /\
     currentStateIndex (redoMove O (undoMove O s)) = currentStateIndex s /\
     gameStates (redoMove O (undoMove O s)) = gameStates s /\
     capturedPieces (redoMove O (undoMove O s)) = capturedPieces s) /\
  (canRedo s = true ->
     game (undoMove O (redoMove O s)) = game s /\
     currentStateIndex (undoMove O (redoMove O s)) = currentStateIndex s /\
     gameStates (undoMove O (redoMove O s)) = gameStates s /\
     capturedPieces (undoMove O (redoMove O s)) = capturedPieces s).
Proof.
  intro Hr. pose proof (reachable_Inv O s Hr) as HI.
  destruct (Inv_Store s HI) as [n Hs].
  pose proof (Store_bound _ _ _ _ Hs) as Hb.
  assert (Hfresh : forall u, reachable O u -> ChessJS.fen (game u) = ChessJS.fen (game s) ->
                             game u = game s).
  { intros u Hu Hf. destruct (reachable_Inv O u Hu) as [Hhu _].
    destruct HI as [Hhs _]. destruct (game u) as [fu hu], (game s) as [fs hs].
    cbn in *. congruence. }
  assert (Hcap : forall u, capturedPieces (undoMove O u) = capturedPieces u /\
                           capturedPieces (redoMove O u) = capturedPieces u).
  { intro u. split.
    - unfold undoMove. destruct (0 <? currentStateIndex u)%Z; [| reflexivity].
      rewrite gameEffects_capturedPieces. reflexivity.
    - unfold redoMove.
      destruct (currentStateIndex u <? JS.len (gameStates u) - 1)%Z; [| reflexivity].
      rewrite gameEffects_capturedPieces. reflexivity. }
  split.
  - intro Hu. unfold canUndo in Hu.
    destruct n as [| m]; [destruct Hs as [_ [Hidx _]]; rewrite Hidx in Hu; discriminate |].
    destruct (nth_error (gameStates s) m) as [q |] eqn:Eq;
      [| apply nth_error_None in Eq; lia].
    pose proof (undo_Store O _ _ _ _ _ Hs Eq) as H1.
    assert (Hn : nth_error (gameStates s) (S m) = Some (ChessJS.fen (game s)))
      by apply Hs.
    pose proof (redo_Store O _ _ _ _ _ H1 Hn) as [Hst [Hidx [Hf _]]].
    split; [| split; [| split]].
    + apply Hfresh; [apply reach_redoMove, reach_undoMove; exact Hr | exact Hf].
    + rewrite Hidx. symmetry. apply Hs.
    + exact Hst.
    + rewrite (proj2 (Hcap _)), (proj1 (Hcap _)). reflexivity.
  - intro Hre. unfold canRedo, JS.len in Hre. apply Z.ltb_lt in Hre.
    assert (Hidx0 : currentStateIndex s = Z.of_nat n) by apply Hs.
    destruct (nth_error (gameStates s) (S n)) as [q |] eqn:Eq;
      [| apply nth_error_None in Eq; lia].
    pose proof (redo_Store O _ _ _ _ _ Hs Eq) as H1.
    assert (Hn : nth_error (gameStates s) n = Some (ChessJS.fen (game s)))
      by apply Hs.
    pose proof (undo_Store O _ _ _ _ _ H1 Hn) as [Hst [Hidx [Hf _]]].
    split; [| split; [| split]].
    + apply Hfresh; [apply reach_undoMove, reach_redoMove; exact Hr | exact Hf].
    + rewrite Hidx. symmetry. exact Hidx0.
    + exact Hst.
    + rewrite (proj1 (Hcap _)), (proj2 (Hcap _)). reflexivity.
Qed.

Lemma undo_redo_inverse_witness :
  game (redoMove Example.oracle (undoMove Example.oracle Example.afterKxf3))
  = game Example.afterKxf3.
Proof.
  destruct (undo_redo_inverse Example.oracle Example.afterKxf3) as [Hu _].
  - unfold Example.afterKxf3, Example.afterNf3, Example.afterKg2, Example.loaded.
    apply reach_onDrop, reach_getAIMove, reach_onDrop, reach_loadGame, reach_mounted.
  - apply Hu. reflexivity.
Defined.

(** ** Restarting, and the player's drop *)

(** X18.  Resetting and loading restart the log.  After [resetGame] the
    game stands on the start position, the log is that single position
    with the cursor on it, the tallies are empty, it is the player's turn
    and there is nothing to undo or redo.  [loadGame] does the same for a
    position the rules library can load, the turn going to the player
    exactly when White is to move there; for a position it cannot load,
    nothing changes. *)
Theorem reset_and_load_restart_the_log (O : RulesOracle) (s : State) :
  (let s' := resetGame O s in
   game s' = newChess DEFAULT_POSITION /\
   gameStates s' = [DEFAULT_POSITION] /\ currentStateIndex s' = 0%Z /\
   capturedPieces s' = {| w := []; b := [] |} /\
   isPlayerTurn s' = true /\ canUndo s' = false /\ canRedo s' = false) /\
  (forall fenToLoad, validFen O fenToLoad = true ->
     let s' := loadGame O fenToLoad s in
     game s' = newChess fenToLoad /\
     gameStates s' = [fenToLoad] /\ currentStateIndex s' = 0%Z /\
     capturedPieces s' = {| w := []; b := [] |} /\
     isPlayerTurn s' = Color_eqb (turn O fenToLoad) White /\
     canUndo s' = false /\ canRedo s' = false) /\
  (forall fenToLoad, validFen O fenToLoad = false -> loadGame O fenToLoad s = s).
Proof.
  assert (H : forall t f, game t = newChess f -> gameStates t = [f] ->
            currentStateIndex t = 0%Z ->
            gameStates (gameEffects O t) = [f] /\
            currentStateIndex (gameEffects O t) = 0%Z /\
            canUndo (gameEffects O t) = false /\ canRedo (gameEffects O t) = false).
  { intros t f Hg Hst Hi.
    assert (Hcur : cursorEntry t = Some (ChessJS.fen (game t))).
    { unfold cursorEntry. rewrite Hst, Hi, Hg. reflexivity. }
    unfold canUndo, canRedo. destruct (sync_noop O t Hcur) as [-> ->].
    rewrite Hst, Hi. auto. }
  split; [| split].
  - cbv zeta. unfold resetGame.
    match goal with
    | |- context [gameEffects O ?t] =>
        destruct (H t DEFAULT_POSITION eq_refl eq_refl eq_refl) as [Hst [Hi [Hu Hre]]]
    end.
    rewrite gameEffects_game, gameEffects_capturedPieces, gameEffects_isPlayerTurn.
    state_simpl. repeat split; assumption.
  - intros f Hvalid. cbv zeta. unfold loadGame. rewrite Hvalid.
    match goal with
    | |- context [gameEffects O ?t] =>
        destruct (H t f eq_refl eq_refl eq_refl) as [Hst [Hi [Hu Hre]]]
    end.
    rewrite gameEffects_game, gameEffects_capturedPieces, gameEffects_isPlayerTurn.
    state_simpl. repeat split; assumption.
  - intros f Hinvalid. unfold loadGame. rewrite Hinvalid. reflexivity.
Qed.

(** X19.  A drop that the component refuses changes nothing: whenever
    [onDrop] returns false the state is the one before.  It returns true
    exactly when it is the player's turn, the game is not over, and
    either the drop is a pawn reaching the far rank or the rules library
    accepts the move. *)
Theorem refused_drop_changes_nothing
  (O : RulesOracle) (sourceSquare targetSquare : Square) (s : State) :
  (snd (onDrop O sourceSquare targetSquare s) = false ->
     fst (onDrop O sourceSquare targetSquare s) = s) /\
  (snd (onDrop O sourceSquare targetSquare s) = true <->
     isPlayerTurn s = true /\ isGameOver O (ChessJS.fen (game s)) = false /\
     (isPawnPromotion O s sourceSquare targetSquare = true \/
      moveFromTo O (ChessJS.fen (game s)) sourceSquare targetSquare None <> None)).
Proof.
  unfold onDrop.
  destruct (isPlayerTurn s); cbn [negb orb];
    [| split; [reflexivity | split; [discriminate | intros [H _]; discriminate]]].
  destruct (isGameOver O (ChessJS.fen (game s)));
    [split; [reflexivity | split; [discriminate | intros [_ [H _]]; discriminate]] |].
  destruct (isPawnPromotion O s sourceSquare targetSquare).
  - cbn [fst snd]. split; [discriminate | split; auto].
  - destruct (moveFromTo O _ sourceSquare targetSquare None) as [[move newFen] |];
      cbn [fst snd].
    + split; [discriminate |]. split; [| reflexivity].
      intros _. repeat split. right. discriminate.
    + split; [reflexivity |]. split; [discriminate |].
      intros [_ [_ [H | H]]]; [discriminate | contradiction].
Qed.

Section Drop.

Variable O : RulesOracle.

(** The effects on a state whose live position differs from the entry
    under a valid cursor. *)
Lemma gameEffects_fresh (t : State) (st : list Fen) (n : nat) (f : Fen) :
  gameStates t = st -> currentStateIndex t = Z.of_nat n ->
  nth_error st n = Some f -> ChessJS.fen (game t) <> f ->
  Store (gameEffects O t) (firstn (S n) st ++ [ChessJS.fen (game t)])%list (S n)
    (ChessJS.fen (game t)).
Proof.
  intros Hst Hidx Hn Hne.
  assert (Hb : (n < length st)%nat) by (apply nth_error_Some; congruence).
  assert (Hi : currentStateIndex t <> (-1)%Z) by lia.
  assert (Hc : cursorEntry t <> Some (ChessJS.fen (game t))).
  { unfold cursorEntry. rewrite Hst, Hidx, index_of_nat, Hn. congruence. }
  unfold Store. rewrite gameEffects_game.
  destruct (sync_append O t Hi Hc) as [-> ->]. rewrite Hst, Hidx.
  replace (Z.of_nat n + 1)%Z with (Z.of_nat (S n)) by lia.
  rewrite slice0_of_nat.
  assert (Hlen : length (firstn (S n) st) = S n) by (rewrite length_firstn; lia).
  split; [reflexivity |]. split; [| split; [reflexivity |]].
  - unfold JS.len. rewrite length_app, Hlen. cbn [length]. lia.
  - rewrite nth_error_app2, Hlen, Nat.sub_diag by lia. reflexivity.
Qed.

Lemma gameEffects_gameStatus (t : State) :
  gameStatus (gameEffects O t) = statusText O (ChessJS.fen (game t)).
Proof.
  unfold gameEffects, statusEffect. state_simpl.
  destruct (historySyncEffect_frame t) as [-> _]. reflexivity.
Qed.

End Drop.

(** X20.  A legal drop commits.  In a reachable state, on the player's
    turn, a drop that is not a promotion and that the rules library
    accepts installs the resulting position, cuts the log after the
    cursor and appends the position (so nothing is left to redo, and the
    move can be undone), records the capture if there is one, refreshes
    the status line and hands the turn to the AI, which is triggered
    unless the game is over. *)
Theorem legal_drop_commits
  (O : RulesOracle) (s : State) (sourceSquare targetSquare : Square)
  (move : Move) (newFen : Fen) :
  reachable O s ->
  isPlayerTurn s = true ->
  isGameOver O (ChessJS.fen (game s)) = false ->
  isPawnPromotion O s sourceSquare targetSquare = false ->
  moveFromTo O (ChessJS.fen (game s)) sourceSquare targetSquare None
    = Some (move, newFen) ->
  newFen <> ChessJS.fen (game s) ->
  let s' := fst (onDrop O sourceSquare targetSquare s) in
  snd (onDrop O sourceSquare targetSquare s) = true /\
  game s' = newChess newFen /\
  (exists n,
     currentStateIndex s = Z.of_nat n /\
     gameStates s' = (firstn (S n) (gameStates s) ++ [newFen])%list /\
     currentStateIndex s' = Z.of_nat (S n)) /\
  canRedo s' = false /\ canUndo s' = true /\
  capturedPieces s' = capturedPieces (recordCapture move s) /\
  gameStatus s' = statusText O newFen /\
  isPlayerTurn s' = false /\
  aiTurnTriggered O s' = negb (isGameOver O newFen).
Proof.
  intros Hr Hturn Hover Hprom Hmove Hne. cbv zeta.
  pose proof (reachable_Inv O s Hr) as HI.
  destruct (Inv_Store s HI) as [n [_ [Hidx [_ Hn]]]].
  unfold onDrop. rewrite Hturn, Hover, Hprom, Hmove. cbn [negb orb fst snd].
  set (t := setIsPlayerTurn false (setGame (newChess newFen) (recordCapture move s))).
  destruct (recordCapture_frame move s) as [_ [_ [Hst [Hi _]]]].
  assert (Ht : Store (gameEffects O t)
                 (firstn (S n) (gameStates s) ++ [newFen])%list (S n) newFen).
  { apply (gameEffects_fresh O t (gameStates s) n (ChessJS.fen (game s)));
      subst t; state_simpl; auto. congruence. }
  pose proof Ht as [Hst' [Hidx' _]].
  assert (Htip : S (S n) = length (firstn (S n) (gameStates s) ++ [newFen])%list).
  { pose proof (nth_error_Some (gameStates s) n) as Hb.
    rewrite length_app, length_firstn. cbn [length].
    assert (n < length (gameStates s))%nat by (apply Hb; congruence). lia. }
  destruct (redo_at_tip O _ _ _ _ Ht Htip) as [Hredo _].
  split; [reflexivity |].
  split; [rewrite gameEffects_game; reflexivity |].
  split; [exists n; auto |].
  split; [exact Hredo |].
  split; [unfold canUndo; rewrite Hidx'; apply Z.ltb_lt; lia |].
  split; [rewrite gameEffects_capturedPieces; reflexivity |].
  split; [rewrite gameEffects_gameStatus; reflexivity |].
  split; [rewrite gameEffects_isPlayerTurn; reflexivity |].
  unfold aiTurnTriggered. rewrite gameEffects_isPlayerTurn, gameEffects_game. reflexivity.
Qed.

Lemma legal_drop_commits_witness :
  gameStates Example.afterKxf3
  = [Example.posA; Example.posB; Example.posC; Example.posD] /\
  canRedo Example.afterKxf3 = false.
Proof.
  destruct (legal_drop_commits Example.oracle Example.afterNf3 "g2" "f3"
              Example.Kxf3 Example.posD)
    as [_ [_ [[n [Hn [Hst _]]] [Hredo _]]]].
  - unfold Example.afterNf3, Example.afterKg2, Example.loaded.
    apply reach_getAIMove, reach_onDrop, reach_loadGame, reach_mounted.
  - reflexivity.
  - reflexivity.
  - reflexivity.
  - reflexivity.
  - discriminate.
  - split; [| exact Hredo].
    unfold Example.afterKxf3. rewrite Hst.
    assert (E : currentStateIndex Example.afterNf3 = 2%Z) by (vm_compute; reflexivity).
    assert (n = 2%nat) as -> by (rewrite E in Hn; lia).
    reflexivity.
Defined.

(** X21.  The promotion dialog is opened on the look of the drop alone:
    any white pawn dropped on the eighth rank (any black pawn on the
    first) opens it, from whatever square and whether or not the move is
    possible.  When the rules library accepts the move for no piece kind,
    every choice in the dialog leaves the state as it is, dialog open. *)
Theorem unplayable_promotion_keeps_dialog_open
  (O : RulesOracle) (s : State) (sourceSquare targetSquare : Square) (pc : Piece) :
  isPlayerTurn s = true ->
  isGameOver O (ChessJS.fen (game s)) = false ->
  get O (ChessJS.fen (game s)) sourceSquare = Some pc ->
  ptype pc = Pawn ->
  JS.charAt 1 targetSquare = (match pcolor pc with White => "8" | Black => "1" end) ->
  (forall pieceType,
     moveFromTo O (ChessJS.fen (game s)) sourceSquare targetSquare (Some pieceType) = None) ->
  let s' := fst (onDrop O sourceSquare targetSquare s) in
  snd (onDrop O sourceSquare targetSquare s) = true /\
  showPromotionModal s' = true /\
  promotionMove s' = Some (sourceSquare, targetSquare) /\
  game s' = game s /\
  forall pieceType, handlePromotion O pieceType s' = s'.
Proof.
  intros Hturn Hover Hget Hpawn Hrank Hnone. cbv zeta.
  assert (Hprom : isPawnPromotion O s sourceSquare targetSquare = true).
  { unfold isPawnPromotion. rewrite Hget, Hpawn, Hrank. cbn.
    destruct (pcolor pc); reflexivity. }
  unfold onDrop. rewrite Hturn, Hover, Hprom. cbn [negb orb fst snd].
  repeat (split; [reflexivity |]).
  intro k. unfold handlePromotion. state_simpl. rewrite Hnone. reflexivity.
Qed.

Lemma unplayable_promotion_keeps_dialog_open_witness :
  let s' := fst (onDrop Example.oracle "a3" "a8" Example.loaded) in
  showPromotionModal s' = true /\ handlePromotion Example.oracle Queen s' = s'.
Proof.
  cbv zeta.
  destruct (unplayable_promotion_keeps_dialog_open Example.oracle Example.loaded
              "a3" "a8" {| ptype := Pawn; pcolor := White |})
    as [_ [Hshow [_ [_ Hk]]]].
  - reflexivity.
  - reflexivity.
  - reflexivity.
  - reflexivity.
  - reflexivity.
  - intro k. destruct k; reflexivity.
  - split; [exact Hshow | apply Hk].
Defined.

(** ** Saved games *)

Lemma splice1_in_range {A} (arr : list A) (i : nat) :
  (i < length arr)%nat ->
  SavedGames.splice1 arr (Z.of_nat i) = (firstn i arr ++ skipn (S i) arr)%list.
Proof.
  intro Hi. unfold SavedGames.splice1, JS.len.
  destruct (Z.ltb_spec (Z.of_nat i) 0); [lia |].
  rewrite Z.min_l by lia. rewrite Nat2Z.id.
  replace (i + 1)%nat with (S i) by lia. reflexivity.
Qed.

Lemma nth_error_skipn_shift {A} (arr : list A) (k j : nat) :
  nth_error (skipn k arr) j = nth_error arr (k + j).
Proof.
  revert arr. induction k as [| k IH]; intro arr; [reflexivity |].
  destruct arr as [| a arr]; [destruct j; reflexivity |].
  cbn [skipn Nat.add nth_error]. apply IH.
Qed.

(** X22.  Saving.  A dismissed or empty name saves nothing.  Otherwise
    one record is appended -- the given name, the live position, the
    clock value -- the records saved before keep their places, the stored
    copy is the new list and the dialog is closed.  And what is saved is
    what is loaded: [loadGame] on the position of that record, when the
    rules library can load it, puts the game back on the position that
    was live at the time of saving, from whatever state. *)
Theorem save_appends_and_load_restores
  (O : RulesOracle) (nm : string) (now : Z) (s later : State) (v : SavedGames.Saves) :
  SavedGames.saveGame None now (game s) v = v /\
  SavedGames.saveGame (Some "") now (game s) v = v /\
  (nm <> "" ->
   let v' := SavedGames.saveGame (Some nm) now (game s) v in
   let record := {| SavedGames.name := nm; SavedGames.fen := ChessJS.fen (game s);
                    SavedGames.timestamp := now |} in
   SavedGames.savedGames v' = (SavedGames.savedGames v ++ [record])%list /\
   SavedGames.stored v' = Some (SavedGames.savedGames v') /\
   SavedGames.showSaveLoadModal v' = false /\
   (forall i, (i < length (SavedGames.savedGames v))%nat ->
      nth_error (SavedGames.savedGames v') i = nth_error (SavedGames.savedGames v) i) /\
   nth_error (SavedGames.savedGames v') (length (SavedGames.savedGames v)) = Some record /\
   (validFen O (SavedGames.fen record) = true ->
      game (loadGame O (SavedGames.fen record) later) = newChess (ChessJS.fen (game s)) /\
      cursorEntry (loadGame O (SavedGames.fen record) later)
        = Some (ChessJS.fen (game s)))).
Proof.
  split; [reflexivity |]. split; [reflexivity |].
  intros Hnm. cbv zeta. unfold SavedGames.saveGame.
  apply String.eqb_neq in Hnm. rewrite Hnm.
  cbn [SavedGames.savedGames SavedGames.stored SavedGames.showSaveLoadModal SavedGames.fen].
  split; [reflexivity |]. split; [reflexivity |]. split; [reflexivity |].
  split; [intros i Hi; apply nth_error_app1; exact Hi |].
  split; [rewrite nth_error_app2, Nat.sub_diag by lia; reflexivity |].
  intro Hvalid. unfold loadGame. rewrite Hvalid.
  split; [rewrite gameEffects_game; reflexivity |].
  match goal with
  | |- cursorEntry (gameEffects O ?t) = _ =>
      destruct (gameEffects_Store O t) as [n Hn];
      exact (Store_cursorEntry _ _ _ _ Hn)
  end.
Qed.

Lemma save_appends_and_load_restores_witness :
  let v' := SavedGames.saveGame (Some "ending") 1700000000000
              (game Example.afterKg2) SavedGames.initialSaves in
  length (SavedGames.savedGames v') = 1%nat /\
  ChessJS.fen (game (loadGame Example.oracle Example.posB Example.afterKxf3))
  = Example.posB.
Proof.
  cbv zeta.
  destruct (save_appends_and_load_restores Example.oracle "ending" 1700000000000
              Example.afterKg2 Example.afterKxf3 SavedGames.initialSaves)
    as [_ [_ H]].
  destruct H as [Hl [_ [_ [_ [_ Hload]]]]]; [discriminate |].
  cbv zeta in Hl, Hload. rewrite Hl. split; [reflexivity |].
  destruct Hload as [Hg _]; [reflexivity |].
  change (SavedGames.fen _) with Example.posB in Hg. rewrite Hg. reflexivity.
Defined.

(** X23.  Deleting.  Without confirmation nothing changes.  With it, and
    an index inside the list, exactly the record at that index goes: the
    list is one shorter, the records before it keep their places, those
    after it move up by one, and the stored copy is the new list.
    Deleting the record just appended by a save gives back the list as it
    was. *)
Theorem delete_removes_the_indexed_record
  (v : SavedGames.Saves) (i : nat) :
  (forall index, SavedGames.deleteSavedGame false index v = v) /\
  ((i < length (SavedGames.savedGames v))%nat ->
   let v' := SavedGames.deleteSavedGame true (Z.of_nat i) v in
   S (length (SavedGames.savedGames v')) = length (SavedGames.savedGames v) /\
   (forall j, (j < i)%nat ->
      nth_error (SavedGames.savedGames v') j = nth_error (SavedGames.savedGames v) j) /\
   (forall j, (i <= j)%nat ->
      nth_error (SavedGames.savedGames v') j = nth_error (SavedGames.savedGames v) (S j)) /\
   SavedGames.stored v' = Some (SavedGames.savedGames v')) /\
  (forall nm now g, nm <> "" ->
     SavedGames.savedGames
       (SavedGames.deleteSavedGame true (JS.len (SavedGames.savedGames v))
          (SavedGames.saveGame (Some nm) now g v))
     = SavedGames.savedGames v).
Proof.
  split; [reflexivity |]. split.
  - intro Hi. cbv zeta. unfold SavedGames.deleteSavedGame.
    cbn [SavedGames.savedGames SavedGames.stored].
    rewrite (splice1_in_range _ i Hi).
    assert (Hl : length (firstn i (SavedGames.savedGames v)) = i)
      by (rewrite length_firstn; lia).
    split; [| split; [| split; [| reflexivity]]].
    + rewrite length_app, Hl, length_skipn. lia.
    + intros j Hj. rewrite nth_error_app1 by lia.
      rewrite nth_error_firstn. destruct (Nat.ltb_spec j i); [reflexivity | lia].
    + intros j Hj. rewrite nth_error_app2 by lia.
      rewrite Hl, nth_error_skipn_shift. f_equal. lia.
  - intros nm now g Hnm. unfold SavedGames.saveGame.
    apply String.eqb_neq in Hnm. rewrite Hnm.
    unfold SavedGames.deleteSavedGame. cbn [SavedGames.savedGames].
    unfold JS.len.
    rewrite (splice1_in_range _ (length (SavedGames.savedGames v)))
      by (rewrite length_app; cbn [length]; lia).
    rewrite firstn_app, Nat.sub_diag, firstn_all, firstn_O, app_nil_r.
    rewrite skipn_all2 by (rewrite length_app; cbn [length]; lia).
    apply app_nil_r.
Qed.

Lemma delete_removes_the_indexed_record_witness :
  S (length (SavedGames.savedGames
               (SavedGames.deleteSavedGame true 0
                  (SavedGames.saveGame (Some "ending") 0 (game Example.afterKg2)
                     SavedGames.initialSaves))))
  = 1%nat.
Proof.
  destruct (delete_removes_the_indexed_record
              (SavedGames.saveGame (Some "ending") 0 (game Example.afterKg2)
                 SavedGames.initialSaves) 0)
    as [_ [H _]].
  destruct H as [Hlen _]; [cbn; lia |].
  exact Hlen.
Defined.

(** ** Duplicate commits, and the label of the AI move *)

Section Labels.

Variable O : RulesOracle.

Lemma gameEffects_fixed (t : State) (p : Fen) :
  game t = newChess p -> ChessGame.fen t = p ->
  gameStatus t = statusText O p -> moveHistory t = [] ->
  cursorEntry t = Some p ->
  gameEffects O t = t.
Proof.
  intros Hg Hf Hs Hm Hc.
  unfold gameEffects, statusEffect, historySyncEffect.
  unfold cursorEntry in Hc.
  destruct (Z.eqb_spec (currentStateIndex t) (-1)) as [E | _];
    [rewrite E in Hc; discriminate |].
  rewrite Hc, Hg. cbn [ChessJS.fen newChess]. rewrite String.eqb_refl.
  state_simpl. rewrite Hg. cbn [ChessJS.fen history newChess formatHistory map].
  destruct t. cbn in *. subst. reflexivity.
Qed.

Lemma gameEffects_label (t : State) :
  moveQuality (gameEffects O t) = moveQuality t /\
  aiThinking (gameEffects O t) = aiThinking t.
Proof.
  unfold gameEffects, statusEffect, historySyncEffect. state_simpl.
  destruct (currentStateIndex t =? -1)%Z; [split; reflexivity |].
  destruct (JS.index (gameStates t) (currentStateIndex t)) as [f |];
    [| split; reflexivity].
  destruct (String.eqb f (ChessJS.fen (game t))); split; reflexivity.
Qed.

Lemma makeFallbackMove_source (r : Q) (t : State) :
  aiMoveSource (makeFallbackMove O r t) = "Smart Fallback".
Proof.
  unfold makeFallbackMove.
  destruct (JS.len (moves O (ChessJS.fen (game t))) =? 0)%Z; [reflexivity |].
  destruct (applySelected O _ _) as [[moveResult newFen] |]; [| reflexivity].
  rewrite gameEffects_aiMoveSource. state_simpl.
  rewrite recordCapture_aiMoveSource. reflexivity.
Qed.

End Labels.

(** X24.  Committing is idempotent: committing the same position a
    second time leaves the whole state as the first commit left it --
    log, cursor, board, status line and all. *)
Theorem commit_idempotent (O : RulesOracle) (p : Fen) (s : State) :
  commit O p (commit O p s) = commit O p s.
Proof.
  remember (commit O p s) as s1 eqn:E.
  assert (Hg : game s1 = newChess p).
  { subst s1. unfold commit. rewrite gameEffects_game. reflexivity. }
  assert (Hf : ChessGame.fen s1 = p).
  { subst s1. unfold commit. rewrite fen_gameEffects, gameEffects_game. reflexivity. }
  assert (Hs : gameStatus s1 = statusText O p).
  { subst s1. unfold commit. rewrite gameEffects_gameStatus. reflexivity. }
  assert (Hm : moveHistory s1 = []).
  { subst s1. unfold commit.
    destruct (gameEffects_store O (setGame (newChess p) s)) as [_ [_ ->]]. reflexivity. }
  assert (Hc : cursorEntry s1 = Some p).
  { subst s1. destruct (commit_Store O p s) as [n Hn].
    exact (Store_cursorEntry _ _ _ _ Hn). }
  clear E. unfold commit.
  assert (Hsame : setGame (newChess p) s1 = s1).
  { destruct s1. cbn in *. subst. reflexivity. }
  rewrite Hsame. apply (gameEffects_fixed O s1 p); assumption.
Qed.

(** X25.  The source shown for the AI move is truthful.  Once triggered,
    when the service returns a text whose token validates, [getAIMove]
    plays the validated move and shows "LM Studio" with the assessment of
    that very move; when the service fails, or the token validates to
    nothing, it shows "Smart Fallback". *)
Theorem ai_move_source_is_truthful
  (O : RulesOracle) (srv : Server) (lmStudioUrl : string)
  (modelId : option string) (r : Q) (s : State) :
  aiTurnTriggered O s = true ->
  let fetched :=
    snd (fetchRawAIMove srv lmStudioUrl
           (aiPrompt (ChessJS.fen (game s)) (moves O (ChessJS.fen (game s)))) modelId) in
  let s' := getAIMove O srv lmStudioUrl modelId r s in
  (forall raw txt moveResult newFen,
     fetched = inl raw ->
     validateAIMove O (ChessJS.fen (game s)) (cleanAIMoveText raw)
       = (txt, Some (moveResult, newFen)) ->
     aiMoveSource s' = "LM Studio" /\
     game s' = newChess newFen /\ lastAIMove s' = txt /\
     moveQuality s' = Some (fst (assessMoveQuality moveResult)) /\
     aiThinking s' = snd (assessMoveQuality moveResult)) /\
  ((exists e, fetched = inr e) \/
   (exists raw txt, fetched = inl raw /\
      validateAIMove O (ChessJS.fen (game s)) (cleanAIMoveText raw) = (txt, None)) ->
   aiMoveSource s' = "Smart Fallback").
Proof.
  intros Htrig fetched s'. unfold aiTurnTriggered in Htrig.
  apply andb_true_iff in Htrig. destruct Htrig as [Hturn Hover].
  apply negb_true_iff in Hturn. apply negb_true_iff in Hover.
  subst s'. unfold getAIMove. rewrite Hturn, Hover. cbn [orb]. fold fetched.
  set (s1 := setMoveQuality None _).
  change (ChessJS.fen (game s)) with (ChessJS.fen (game s1)).
  split.
  - intros raw txt moveResult newFen Hf Hv. rewrite Hf. unfold afterFetch. rewrite Hv.
    rewrite gameEffects_aiMoveSource, gameEffects_game, gameEffects_lastAIMove.
    destruct (gameEffects_label O
                (setIsLoading false
                   (setLastAIMove txt
                      (setIsPlayerTurn true
                         (setGame (newChess newFen)
                            (setAiThinking (snd (assessMoveQuality moveResult))
                               (setMoveQuality (Some (fst (assessMoveQuality moveResult)))
                                  (recordCapture moveResult
                                     (setAiMoveSource "LM Studio" s1)))))))))
      as [-> ->].
    state_simpl. rewrite recordCapture_aiMoveSource. state_simpl.
    repeat split; reflexivity.
  - intros [[e He] | [raw [txt [Hf Hv]]]].
    + rewrite He. unfold afterFetch. state_simpl. apply makeFallbackMove_source.
    + rewrite Hf. unfold afterFetch. rewrite Hv. state_simpl.
      apply makeFallbackMove_source.
Qed.

Lemma ai_move_source_is_truthful_witness :
  aiMoveSource Example.afterNf3 = "LM Studio" /\
  aiMoveSource (getAIMove Example.oracle Example.offline Example.localUrl None (1 # 2)
                  Example.afterKg2) = "Smart Fallback".
Proof.
  split.
  - destruct (ai_move_source_is_truthful Example.oracle
                (Example.chatOnly Example.paddedNf3) Example.localUrl None (1 # 2)
                Example.afterKg2) as [H _]; [reflexivity |].
    cbv zeta in H.
    destruct (H "Nf3." "Nf3" Example.Nf3 Example.posC) as [Hsrc _];
      [reflexivity | reflexivity |].
    exact Hsrc.
  - destruct (ai_move_source_is_truthful Example.oracle Example.offline
                Example.localUrl None (1 # 2) Example.afterKg2) as [_ H];
      [reflexivity |].
    cbv zeta in H. apply H. left. eexists. reflexivity.
Defined.

(** ** The invariant under interrupted AI turns *)

Section Interleaved.

Variable O : RulesOracle.

Lemma Inv_makeFallbackMoveAt (position : Fen) (r : Q) (s : State) :
  Inv s -> Inv (Async.makeFallbackMoveAt O position r s).
Proof.
  intro H. unfold Async.makeFallbackMoveAt.
  destruct (JS.len (moves O position) =? 0)%Z.
  - revert H. apply Inv_frame; reflexivity.
  - destruct (applySelected O _ _) as [[moveResult newFen] |].
    + apply Inv_gameEffects. reflexivity.
    + revert H. apply Inv_frame; reflexivity.
Qed.

Lemma Inv_getAIMoveResume (currentFen : Fen) (fetched : string + string) (r : Q)
  (s : State) :
  Inv s -> Inv (Async.getAIMoveResume O currentFen fetched r s).
Proof.
  intro H. unfold Async.getAIMoveResume. destruct fetched as [raw | e].
  - destruct (validateAIMove O _ _) as [txt [[moveResult newFen] |]].
    + apply Inv_gameEffects. reflexivity.
    + generalize (Inv_makeFallbackMoveAt currentFen r s H). apply Inv_frame; reflexivity.
  - assert (H' : Inv (setGameStatus "ERROR - Using fallback" s))
      by (revert H; apply Inv_frame; reflexivity).
    generalize (Inv_makeFallbackMoveAt currentFen r _ H'). apply Inv_frame; reflexivity.
Qed.

Lemma Inv_getAIMoveStart (s : State) : Inv s -> Inv (fst (Async.getAIMoveStart O s)).
Proof.
  unfold Async.getAIMoveStart. destruct (orb _ _); cbn [fst];
    apply Inv_frame; reflexivity.
Qed.

Lemma event_Inv (s s' : State) : Async.event O s s' -> Inv s -> Inv s'.
Proof.
  intros [a c | k | | f fetched r | | | | f] IH.
  - unfold onDrop.
    destruct (orb _ _); [exact IH |].
    destruct (isPawnPromotion O s a c).
    + revert IH. apply Inv_frame; reflexivity.
    + destruct (moveFromTo O _ a c None) as [[move newFen] |]; [| exact IH].
      apply Inv_gameEffects. reflexivity.
  - unfold handlePromotion.
    destruct (promotionMove s) as [[fromSq toSq] |]; [| exact IH].
    destruct (moveFromTo O _ fromSq toSq (Some k)) as [[move newFen] |]; [| exact IH].
    apply Inv_gameEffects. reflexivity.
  - apply Inv_getAIMoveStart. exact IH.
  - apply Inv_getAIMoveResume. exact IH.
  - unfold undoMove. destruct (0 <? currentStateIndex s)%Z; [| exact IH].
    apply Inv_gameEffects. apply newChessOpt_history.
  - unfold redoMove.
    destruct (currentStateIndex s <? JS.len (gameStates s) - 1)%Z; [| exact IH].
    apply Inv_gameEffects. apply newChessOpt_history.
  - apply Inv_gameEffects. reflexivity.
  - unfold loadGame. destruct (validFen O f); [| exact IH].
    apply Inv_gameEffects. reflexivity.
Qed.

Lemma reachable_interleaved (s : State) : reachable O s -> Async.interleaved O s.
Proof.
  induction 1 as [| s a c _ IH | s k _ IH | s srv url mid r _ IH
                  | s _ IH | s _ IH | s _ IH | s f _ IH].
  - constructor.
  - eapply Async.il_event; [exact IH | constructor].
  - eapply Async.il_event; [exact IH | constructor].
  - rewrite getAIMove_uninterrupted.
    pose proof (Async.ev_getAIMoveStart O s) as Hstart.
    destruct (Async.getAIMoveStart O s) as [s1 [[position prompt] |]]; cbn [fst] in Hstart.
    + eapply Async.il_event; [eapply Async.il_event; [exact IH | exact Hstart] |].
      constructor.
    + eapply Async.il_event; [exact IH | exact Hstart].
  - eapply Async.il_event; [exact IH | constructor].
  - eapply Async.il_event; [exact IH | constructor].
  - eapply Async.il_event; [exact IH | constructor].
  - eapply Async.il_event; [exact IH | constructor].
Qed.

End Interleaved.

(** X26.  The data-model invariant does not depend on AI turns running
    undisturbed.  Let the two halves of [getAIMove] be events of their
    own, a resumption coming at any later time with any position and any
    answer.  Every state reachable by whole AI turns is reachable that
    way, and in every state reachable that way the cursor is inside the
    log, the entry under it is the live position, the game object carries
    no moves of its own and the move list is empty. *)
Theorem interleaved_state_is_consistent (O : RulesOracle) (s : State) :
  (reachable O s -> Async.interleaved O s) /\
  (Async.interleaved O s ->
     (0 <= currentStateIndex s < JS.len (gameStates s))%Z /\
     cursorEntry s = Some (ChessJS.fen (game s)) /\
     JS.index (gameStates s) (currentStateIndex s) = Some (ChessJS.fen (game s)) /\
     history (game s) = [] /\
     moveHistory s = []).
Proof.
  split; [apply reachable_interleaved |].
  intro Hi.
  assert (HI : Inv s).
  { induction Hi as [| s s' _ IH Hev].
    - apply Inv_gameEffects. reflexivity.
    - exact (event_Inv O s s' Hev IH). }
  destruct HI as [Hh [Hm [Hb Hc]]].
  split; [exact Hb |]. split; [exact Hc |]. split; [exact Hc |].
  split; [exact Hh | exact Hm].
Qed.

Lemma interleaved_state_is_consistent_witness :
  let undone := undoMove Example.oracle
                  (fst (Async.getAIMoveStart Example.oracle Example.afterKg2)) in
  let s := Async.getAIMoveResume Example.oracle Example.posB (inl "Nf3.") (1 # 2) undone in
  gameStates s = [Example.posA; Example.posC] /\
  cursorEntry s = Some (ChessJS.fen (game s)).
Proof.
  cbv zeta. split; [vm_compute; reflexivity |].
  apply (interleaved_state_is_consistent Example.oracle).
  eapply Async.il_event; [| apply Async.ev_getAIMoveResume].
  eapply Async.il_event; [| apply Async.ev_undoMove].
  eapply Async.il_event; [| apply Async.ev_getAIMoveStart].
  eapply Async.il_event; [| apply (Async.ev_onDrop Example.oracle _ "h1" "g2")].
  eapply Async.il_event; [| apply (Async.ev_loadGame Example.oracle _ Example.posA)].
  apply Async.il_mounted.
Defined.
